(** * wp-agent chat front end: the streaming conversation engine

    A shallow embedding of the chat script of the front end
    (the unnamed source file that defines [streamCopilotChat],
    [sendMessage], [deleteConversation] and [renderContentToHtml]),
    and the properties its description states about it.

    JavaScript strings are sequences of UTF-16 code units; a code unit is
    an [N] here and a string a [list N].  [u "text"] is the string with
    the code units of an ASCII literal. *)

From Stdlib Require Import List NArith ZArith Bool Ascii String DecimalString Arith Lia.
Import ListNotations.

Set Implicit Arguments.
Set Warnings "-register-all".

(* ================================================================== *)
(** ** Strings *)

Module Js.

Definition char := N.
Definition jsstring := list char.

Definition u (s : string) : jsstring :=
  map N_of_ascii (list_ascii_of_string s).

(** Line feed, U+000A. *)
Definition nl : jsstring := [10%N].

(** The quotation mark, U+0022. *)
Definition dq : jsstring := [34%N].

Fixpoint str_eqb (a b : jsstring) : bool :=
  match a, b with
  | [], [] => true
  | x :: a', y :: b' => N.eqb x y && str_eqb a' b'
  | _, _ => false
  end.

(** [s.startsWith(p)] *)
Fixpoint startsWith (p s : jsstring) : bool :=
  match p, s with
  | [], _ => true
  | x :: p', y :: s' => N.eqb x y && startsWith p' s'
  | _ :: _, [] => false
  end.

(** [s.includes(p)] *)
Fixpoint includes (p s : jsstring) : bool :=
  startsWith p s ||
  match s with
  | [] => false
  | _ :: s' => includes p s'
  end.

(** [s.slice(n)] for [0 <= n] *)
Definition slice_from (n : nat) (s : jsstring) : jsstring := skipn n s.

(** Adds a character in front of the first part of a list of parts. *)
Definition cons_head (c : char) (ps : list jsstring) : list jsstring :=
  match ps with
  | [] => [[c]]
  | p :: ps' => (c :: p) :: ps'
  end.

(** [split_from sep k s]: the parts of [s] once its first [k] characters
    (the rest of a separator already recognised) have been skipped. *)
Fixpoint split_from (sep : jsstring) (k : nat) (s : jsstring) : list jsstring :=
  match s with
  | [] => [[]]
  | c :: t =>
      match k with
      | S k' => split_from sep k' t
      | O =>
          if startsWith sep s
          then [] :: split_from sep (List.length sep - 1) t
          else cons_head c (split_from sep 0 t)
      end
  end.

(** [s.split(sep)] for a string separator: the separators are found
    from the left and do not overlap; the empty separator splits into
    single code units. *)
Definition split (sep s : jsstring) : list jsstring :=
  match sep with
  | [] => map (fun c => [c]) s
  | _ :: _ => split_from sep 0 s
  end.

(** [parts.join(sep)] *)
Fixpoint join (sep : jsstring) (parts : list jsstring) : jsstring :=
  match parts with
  | [] => []
  | [p] => p
  | p :: ps => p ++ sep ++ join sep ps
  end.

End Js.
Import Js.

(* ================================================================== *)
(** ** Regular expressions

    The regular expressions of the source are written as terms of [re]
    and run by a backtracking matcher with the priorities of the
    JavaScript one: the left alternative first, a greedy repetition as
    far as it goes first, a lazy one as short as it goes first. *)

Module Regex.

Inductive re : Type :=
| Chr (p : char -> bool)
| Bol
| Eol
| WordB
| Eps
| Seq (a b : re)
| Alt (a b : re)
| Rep (greedy : bool) (min : nat) (max : option nat) (a : re)
| Grp (i : nat) (a : re).

(** A position in the input: the character before it ([None] at the
    start of the input), the input from it on, the groups captured so
    far. *)
Record mst : Type := mkMst {
  before : option char;
  rest : jsstring;
  caps : list (nat * jsstring)
}.

(** [\s]: white space and line terminators. *)
Definition is_space (c : char) : bool :=
  (N.leb 9 c && N.leb c 13) || N.eqb c 32 || N.eqb c 160 || N.eqb c 5760 ||
  (N.leb 8192 c && N.leb c 8202) || N.eqb c 8232 || N.eqb c 8233 ||
  N.eqb c 8239 || N.eqb c 8287 || N.eqb c 12288 || N.eqb c 65279.

(** [\d] *)
Definition is_digit (c : char) : bool := N.leb 48 c && N.leb c 57.

Definition is_upper (c : char) : bool := N.leb 65 c && N.leb c 90.
Definition is_lower (c : char) : bool := N.leb 97 c && N.leb c 122.

(** [\w] *)
Definition is_word (c : char) : bool :=
  is_upper c || is_lower c || is_digit c || N.eqb c 95.

(** [.]: any character but a line terminator. *)
Definition is_dot (c : char) : bool :=
  negb (N.eqb c 10 || N.eqb c 13 || N.eqb c 8232 || N.eqb c 8233).

(** [[0-9a-fA-F]] *)
Definition is_hex (c : char) : bool :=
  is_digit c || (N.leb 97 c && N.leb c 102) || (N.leb 65 c && N.leb c 70).

Definition upper_ascii (c : char) : char :=
  if is_lower c then (c - 32)%N else c.

Definition is_char (a : ascii) (c : char) : bool := N.eqb c (N_of_ascii a).

(** A letter of a pattern under the [i] flag. *)
Definition is_char_i (a : ascii) (c : char) : bool :=
  N.eqb (upper_ascii c) (upper_ascii (N_of_ascii a)).

Definition not_char (a : ascii) (c : char) : bool := negb (is_char a c).

Definition any_char (c : char) : bool := true.

(** A literal text. *)
Fixpoint lit (s : string) : re :=
  match s with
  | EmptyString => Eps
  | String a EmptyString => Chr (is_char a)
  | String a s' => Seq (Chr (is_char a)) (lit s')
  end.

(** A literal text under the [i] flag. *)
Fixpoint lit_i (s : string) : re :=
  match s with
  | EmptyString => Eps
  | String a EmptyString => Chr (is_char_i a)
  | String a s' => Seq (Chr (is_char_i a)) (lit_i s')
  end.

Definition star (a : re) : re := Rep true 0 None a.
Definition plus (a : re) : re := Rep true 1 None a.
Definition opt (a : re) : re := Rep true 0 (Some 1) a.
Definition lazy_star (a : re) : re := Rep false 0 None a.
Definition times (n : nat) (a : re) : re := Rep true n (Some n) a.

Definition set_cap (i : nat) (v : jsstring) (s : mst) : mst :=
  mkMst (before s) (rest s) ((i, v) :: caps s).

(** The text of group [i]; the empty string when it took no part in the
    match, as in a replacement pattern. *)
Fixpoint cap (i : nat) (cs : list (nat * jsstring)) : jsstring :=
  match cs with
  | [] => []
  | (j, v) :: cs' => if Nat.eqb i j then v else cap i cs'
  end.

Definition below (cnt : nat) (max : option nat) : bool :=
  match max with
  | None => true
  | Some m => Nat.ltb cnt m
  end.

Definition at_word_boundary (s : mst) : bool :=
  xorb (match before s with Some c => is_word c | None => false end)
       (match rest s with c :: _ => is_word c | [] => false end).

Section Repetition.

(** The matcher of the repeated expression, and the continuation. *)
Variable ma : (mst -> option mst) -> mst -> option mst.
Variable greedy : bool.
Variable min : nat.
Variable max : option nat.
Variable k : mst -> option mst.

(** [cnt] iterations are done.  Past the minimum an iteration that
    consumes nothing is not taken. *)
Fixpoint rep_loop (fuel cnt : nat) (s : mst) : option mst :=
  match fuel with
  | O => None
  | S f =>
      if greedy then
        match
          (if below cnt max
           then ma (fun s' =>
                      if Nat.ltb cnt min || Nat.ltb (List.length (rest s')) (List.length (rest s))
                      then rep_loop f (S cnt) s' else None) s
           else None)
        with
        | Some x => Some x
        | None => if Nat.leb min cnt then k s else None
        end
      else
        match (if Nat.leb min cnt then k s else None) with
        | Some x => Some x
        | None =>
            if below cnt max
            then ma (fun s' =>
                       if Nat.ltb cnt min || Nat.ltb (List.length (rest s')) (List.length (rest s))
                       then rep_loop f (S cnt) s' else None) s
            else None
        end
  end.

End Repetition.

(** [mt r k s]: match [r] at [s], then continue with [k]; on failure of
    the continuation the next way of matching [r] is tried. *)
Fixpoint mt (r : re) (k : mst -> option mst) (s : mst) {struct r} : option mst :=
  match r with
  | Chr p =>
      match rest s with
      | c :: t => if p c then k (mkMst (Some c) t (caps s)) else None
      | [] => None
      end
  | Bol => match before s with None => k s | Some _ => None end
  | Eol => match rest s with [] => k s | _ :: _ => None end
  | WordB => if at_word_boundary s then k s else None
  | Eps => k s
  | Seq a b => mt a (mt b k) s
  | Alt a b =>
      match mt a k s with
      | Some x => Some x
      | None => mt b k s
      end
  | Rep g mn mx a => rep_loop (mt a) g mn mx k (S (List.length (rest s) + mn)) 0 s
  | Grp i a =>
      mt a (fun s' =>
              k (set_cap i (firstn (List.length (rest s) - List.length (rest s')) (rest s)) s')) s
  end.

Definition match_here (r : re) (b : option char) (s : jsstring) : option mst :=
  mt r (fun x => Some x) (mkMst b s []).

(** A match found in a string: the text before it, the matched text,
    the groups, the text after it. *)
Record found : Type := mkFound {
  f_pre : jsstring;
  f_match : jsstring;
  f_caps : list (nat * jsstring);
  f_post : jsstring
}.

(** The leftmost match at or after the current position. *)
Fixpoint search (r : re) (b : option char) (skipped : jsstring) (s : jsstring)
  : option found :=
  match match_here r b s with
  | Some m =>
      Some (mkFound (rev skipped)
                    (firstn (List.length s - List.length (rest m)) s)
                    (caps m) (rest m))
  | None =>
      match s with
      | [] => None
      | c :: t => search r (Some c) (c :: skipped) t
      end
  end.

(** [s.match(r)] and [r.exec(s)] without the [g] flag. *)
Definition exec (r : re) (s : jsstring) : option found := search r None [] s.

(** [r.test(s)] *)
Definition test (r : re) (s : jsstring) : bool :=
  match exec r s with
  | Some _ => true
  | None => false
  end.

Definition last_char (b : option char) (s : jsstring) : option char :=
  match rev s with
  | c :: _ => Some c
  | [] => b
  end.

(** [s.replace(r, f)] with the [g] flag; [f] gets the match and its
    groups.  After an empty match the scan moves on by one character. *)
Fixpoint replace_from (fuel : nat) (r : re) (f : jsstring -> list (nat * jsstring) -> jsstring)
    (b : option char) (s : jsstring) : jsstring :=
  match fuel with
  | O => s
  | S n =>
      match search r b [] s with
      | None => s
      | Some m =>
          let b' := last_char (last_char b (f_pre m)) (f_match m) in
          f_pre m ++ f (f_match m) (f_caps m) ++
          match f_match m with
          | _ :: _ => replace_from n r f b' (f_post m)
          | [] =>
              match f_post m with
              | c :: t => c :: replace_from n r f (Some c) t
              | [] => []
              end
          end
      end
  end.

Definition replace_all (r : re) (f : jsstring -> list (nat * jsstring) -> jsstring)
    (s : jsstring) : jsstring :=
  replace_from (S (List.length s)) r f None s.

(** [s.replace(r, f)] without the [g] flag: the first match only. *)
Definition replace_first (r : re) (f : jsstring -> list (nat * jsstring) -> jsstring)
    (s : jsstring) : jsstring :=
  match exec r s with
  | None => s
  | Some m => f_pre m ++ f (f_match m) (f_caps m) ++ f_post m
  end.

(** [s.split(r)] for an expression without groups that matches no
    empty text. *)
Fixpoint split_from_re (fuel : nat) (r : re) (b : option char) (s : jsstring)
  : list jsstring :=
  match fuel with
  | O => [s]
  | S n =>
      match search r b [] s with
      | None => [s]
      | Some m =>
          match f_match m with
          | [] => [s]
          | _ :: _ =>
              f_pre m :: split_from_re n r (last_char b (f_match m)) (f_post m)
          end
      end
  end.

Definition split_re (r : re) (s : jsstring) : list jsstring :=
  split_from_re (S (List.length s)) r None s.

End Regex.

(* ================================================================== *)
(** ** JSON values, as [JSON.parse] returns them

    A number is an integer here: the decoder does nothing with a number
    but test whether it is zero. *)

Inductive JSON : Type :=
| JNull
| JBool (b : bool)
| JNum (n : Z)
| JStr (s : jsstring)
| JArr (items : list JSON)
| JObj (fields : list (jsstring * JSON)).

(** ToBoolean *)
Definition truthy (v : JSON) : bool :=
  match v with
  | JNull => false
  | JBool b => b
  | JNum n => negb (Z.eqb n 0)
  | JStr s => negb (str_eqb s [])
  | JArr _ | JObj _ => true
  end.

(** The last binding of a key: [JSON.parse] keeps the last of duplicate
    keys. *)
Fixpoint lookup_last (k : jsstring) (fields : list (jsstring * JSON)) : option JSON :=
  match fields with
  | [] => None
  | (k', v) :: rest =>
      match lookup_last k rest with
      | Some w => Some w
      | None => if str_eqb k k' then Some v else None
      end
  end.

(** [v.k] for the keys the decoder reads ([type], [message], [chunk],
    [done]); [None] is [undefined].  Only objects carry such keys. *)
Definition prop (v : JSON) (k : jsstring) : option JSON :=
  match v with
  | JObj fields => lookup_last k fields
  | _ => None
  end.

Definition truthy_opt (o : option JSON) : bool :=
  match o with
  | Some v => truthy v
  | None => false
  end.

(** [o === 'text'] *)
Definition is_str (o : option JSON) (s : jsstring) : bool :=
  match o with
  | Some (JStr t) => str_eqb t s
  | _ => false
  end.

(* ================================================================== *)
(** ** The frame decoder: [streamCopilotChat] *)

(** A JavaScript [Error]: its [name] and its [message]. *)
Record Error : Type := mkError { err_name : jsstring; err_message : jsstring }.

(** How the body of the response ends: the reader reports [done], or a
    pending [reader.read()] rejects (the abort signal, a network
    failure). *)
Inductive ReadEnd : Type :=
| EndOfStream
| ReadRejected (e : Error).

(** What the network does with one streaming request: [fetch] rejects,
    the response is not [ok] (the status, in decimal digits), or the body
    delivers text deltas, one per [reader.read()], and then ends. *)
Inductive Response : Type :=
| FetchRejected (e : Error)
| NotOk (status : jsstring)
| Streaming (reads : list jsstring) (ending : ReadEnd).

(** What is thrown inside the [try] block around one data line. *)
Inductive Thrown : Type :=
| SyntaxError
| StreamError (message : JSON)
| CallbackError.

(** A callback returns or throws; either way it leaves a state. *)
Inductive completion (S : Type) : Type :=
| Normal (s : S)
| Abrupt (s : S).

Definition state_of {S : Type} (c : completion S) : S :=
  match c with
  | Normal s => s
  | Abrupt s => s
  end.

(** The variables of the read loop other than [buffer]. *)
Record Inner (S : Type) : Type := mkInner {
  hadChunks : bool;
  sawDone : bool;
  user : S
}.

Section Decoder.

Variable S : Type.

(** [JSON.parse]: [None] when it throws a [SyntaxError]. *)
Variable JSON_parse : jsstring -> option JSON.

(** The callbacks; [None] is a missing (falsy) callback. *)
Variable onChunk : option (jsstring -> bool -> S -> completion S).
Variable onProgress : option (JSON -> S -> completion S).

Definition call_onChunk (chunk : jsstring) (done : bool) (s : S) : completion S :=
  match onChunk with
  | Some f => f chunk done s
  | None => Normal s
  end.

(** [evt.message || 'Stream error'] *)
Definition error_message (evt : JSON) : JSON :=
  match prop evt (u "message") with
  | Some m => if truthy m then m else JStr (u "Stream error")
  | None => JStr (u "Stream error")
  end.

(** The text-chunk step of the [try] block. *)
Definition chunk_step (evt : JSON) (i : Inner S) : Inner S * option Thrown :=
  match prop evt (u "chunk") with
  | Some (JStr chunk) =>
      let done := truthy_opt (prop evt (u "done")) in
      let saw := if done then true else sawDone i in
      match call_onChunk chunk done (user i) with
      | Normal s => (mkInner true saw s, None)
      | Abrupt s => (mkInner true saw s, Some CallbackError)
      end
  | _ => (i, None)
  end.

(** The body of the [try] block for a line that starts with ["data: "]. *)
Definition try_body (line : jsstring) (i : Inner S) : Inner S * option Thrown :=
  match JSON_parse (slice_from 6 line) with
  | None => (i, Some SyntaxError)
  | Some evt =>
      if truthy evt then
        if is_str (prop evt (u "type")) (u "error")
        then (i, Some (StreamError (error_message evt)))
        else
          match onProgress with
          | Some f =>
              if truthy_opt (prop evt (u "type")) then
                match f evt (user i) with
                | Normal s => chunk_step evt (mkInner (hadChunks i) (sawDone i) s)
                | Abrupt s => (mkInner (hadChunks i) (sawDone i) s, Some CallbackError)
                end
              else chunk_step evt i
          | None => chunk_step evt i
          end
      else (i, None)
  end.

(** [try { ... } catch (e) { }]: whatever the block throws is dropped,
    the explicit stream error included. *)
Definition catch_ignore (r : Inner S * option Thrown) : Inner S := fst r.

Definition process_line (i : Inner S) (line : jsstring) : Inner S :=
  if startsWith (u "data: ") line
  then catch_ignore (try_body line i)
  else i.

Definition process_part (i : Inner S) (part : jsstring) : Inner S :=
  fold_left process_line (split nl part) i.

(** One iteration of the read loop that delivers [value]: the buffer
    grows, is split at blank lines, and keeps its last part. *)
Definition process_value (value : jsstring) (st : jsstring * Inner S) : jsstring * Inner S :=
  let parts := split (nl ++ nl) (fst st ++ value) in
  (last parts [], fold_left process_part (removelast parts) (snd st)).

Definition read_loop (reads : list jsstring) (st : jsstring * Inner S) : jsstring * Inner S :=
  fold_left (fun st value => process_value value st) reads st.

(** After the loop: finalize when no chunk carried the done flag. *)
Definition finish (i : Inner S) : Inner S :=
  let i1 :=
    if hadChunks i && negb (sawDone i)
    then mkInner (hadChunks i) (sawDone i) (state_of (call_onChunk [] true (user i)))
    else i in
  if negb (hadChunks i1)
  then mkInner (hadChunks i1) (sawDone i1) (state_of (call_onChunk [] true (user i1)))
  else i1.

Definition initial (s : S) : jsstring * Inner S := ([], mkInner false false s).

(** The state the callbacks leave and the error [streamCopilotChat]
    rejects with, if any. *)
Definition streamCopilotChat (resp : Response) (s : S) : S * option Error :=
  match resp with
  | FetchRejected e => (s, Some e)
  | NotOk status => (s, Some (mkError (u "Error") (u "Stream failed: " ++ status)))
  | Streaming reads ending =>
      let st := read_loop reads (initial s) in
      match ending with
      | ReadRejected e => (user (snd st), Some e)
      | EndOfStream => (user (finish (snd st)), None)
      end
  end.

End Decoder.

(** *** The calls the decoder makes *)

Inductive Call : Type :=
| CallChunk (chunk : jsstring) (done : bool)
| CallProgress (evt : JSON).

Definition is_done_call (c : Call) : bool :=
  match c with
  | CallChunk _ done => done
  | CallProgress _ => false
  end.

Definition is_chunk_call (c : Call) : bool :=
  match c with
  | CallChunk _ _ => true
  | CallProgress _ => false
  end.

Definition record_call {S : Type} (c : Call) (l : list Call) (r : completion S)
  : completion (S * list Call) :=
  match r with
  | Normal s => Normal (s, l ++ [c])
  | Abrupt s => Abrupt (s, l ++ [c])
  end.

(** A chunk callback that also records each call it receives. *)
Definition logChunk {S : Type} (f : jsstring -> bool -> S -> completion S)
  : jsstring -> bool -> S * list Call -> completion (S * list Call) :=
  fun chunk done st => record_call (CallChunk chunk done) (snd st) (f chunk done (fst st)).

Definition logProgress {S : Type} (f : JSON -> S -> completion S)
  : JSON -> S * list Call -> completion (S * list Call) :=
  fun evt st => record_call (CallProgress evt) (snd st) (f evt (fst st)).

(** The decoder run with recording callbacks, from an empty record. *)
Definition decode {S : Type} (JSON_parse : jsstring -> option JSON)
    (onChunk : jsstring -> bool -> S -> completion S)
    (onProgress : JSON -> S -> completion S)
    (resp : Response) (s : S) : (S * list Call) * option Error :=
  streamCopilotChat JSON_parse (Some (logChunk onChunk)) (Some (logProgress onProgress))
    resp (s, []).

Definition calls_of {S : Type} (r : (S * list Call) * option Error) : list Call :=
  snd (fst r).

(** The calls made during the read loop, before [streamCopilotChat]
    ends. *)
Definition loop_calls {S : Type} (JSON_parse : jsstring -> option JSON)
    (onChunk : jsstring -> bool -> S -> completion S)
    (onProgress : JSON -> S -> completion S)
    (reads : list jsstring) (s : S) : list Call :=
  snd (user (snd (read_loop JSON_parse (Some (logChunk onChunk)) (Some (logProgress onProgress))
                    reads (initial (s, []))))).

(** The flags of the read loop say what the record of calls holds. *)
Definition flags_agree {S : Type} (i : Inner (S * list Call)) : Prop :=
  hadChunks i = existsb is_chunk_call (snd (user i)) /\
  sawDone i = existsb is_done_call (snd (user i)).

(* ================================================================== *)
(** ** A JSON reader and writer for concrete frames

    [JSON.parse] belongs to the platform; the decoder above takes it as
    a parameter.  [parse_json] is the fragment the examples of this file
    run on: literals, integers, strings with their escapes, arrays and
    objects.  [stringify] writes a value the way [JSON.stringify] does
    for such values. *)

Module Json.

Definition ch (a : ascii) : char := N_of_ascii a.

Definition is_ws (c : char) : bool :=
  N.eqb c 32 || N.eqb c 9 || N.eqb c 10 || N.eqb c 13.

Fixpoint skip_ws (s : jsstring) : jsstring :=
  match s with
  | c :: t => if is_ws c then skip_ws t else s
  | [] => []
  end.

Definition is_digit (c : char) : bool := N.leb 48 c && N.leb c 57.

Definition hex_val (c : char) : option N :=
  if is_digit c then Some (c - 48)%N
  else if N.leb 97 c && N.leb c 102 then Some (c - 87)%N
  else if N.leb 65 c && N.leb c 70 then Some (c - 55)%N
  else None.

Definition hex4 (s : jsstring) : option (char * jsstring) :=
  match s with
  | a :: b :: c :: d :: t =>
      match hex_val a, hex_val b, hex_val c, hex_val d with
      | Some x, Some y, Some z, Some w => Some (((x * 16 + y) * 16 + z) * 16 + w, t)%N
      | _, _, _, _ => None
      end
  | _ => None
  end.

Definition escape_char (c : char) : option char :=
  if N.eqb c 34 then Some 34%N
  else if N.eqb c (ch "\") then Some 92%N
  else if N.eqb c (ch "/") then Some 47%N
  else if N.eqb c (ch "b") then Some 8%N
  else if N.eqb c (ch "f") then Some 12%N
  else if N.eqb c (ch "n") then Some 10%N
  else if N.eqb c (ch "r") then Some 13%N
  else if N.eqb c (ch "t") then Some 9%N
  else None.

(** The characters of a string literal after its opening quote. *)
Fixpoint parse_chars (fuel : nat) (acc s : jsstring) : option (jsstring * jsstring) :=
  match fuel with
  | O => None
  | S f =>
      match s with
      | [] => None
      | c :: t =>
          if N.eqb c 34 then Some (rev acc, t)
          else if N.eqb c 92 then
            match t with
            | e :: t' =>
                if N.eqb e (ch "u") then
                  match hex4 t' with
                  | Some (x, t'') => parse_chars f (x :: acc) t''
                  | None => None
                  end
                else
                  match escape_char e with
                  | Some x => parse_chars f (x :: acc) t'
                  | None => None
                  end
            | [] => None
            end
          else if N.ltb c 32 then None
          else parse_chars f (c :: acc) t
      end
  end.

Fixpoint parse_digits (acc : Z) (s : jsstring) : Z * jsstring :=
  match s with
  | c :: t =>
      if is_digit c then parse_digits (acc * 10 + Z.of_N (c - 48)) t else (acc, s)
  | [] => (acc, [])
  end.

(** An integer literal: no leading zero, no fraction, no exponent. *)
Definition parse_int (s : jsstring) : option (Z * jsstring) :=
  match s with
  | c :: t =>
      if N.eqb c 48 then
        match t with
        | d :: _ => if is_digit d || N.eqb d (ch ".") || N.eqb d (ch "e") || N.eqb d (ch "E")
                    then None else Some (0%Z, t)
        | [] => Some (0%Z, t)
        end
      else if is_digit c then
        let r := parse_digits 0 s in
        match snd r with
        | d :: _ => if N.eqb d (ch ".") || N.eqb d (ch "e") || N.eqb d (ch "E")
                    then None else Some r
        | [] => Some r
        end
      else None
  | [] => None
  end.

Section Containers.

Variable parse_value : jsstring -> option (JSON * jsstring).

(** The elements of an array after the first, up to the bracket. *)
Fixpoint parse_elems (fuel : nat) (acc : list JSON) (s : jsstring)
  : option (list JSON * jsstring) :=
  match fuel with
  | O => None
  | S f =>
      match skip_ws s with
      | c :: t =>
          if N.eqb c (ch "]") then Some (rev acc, t)
          else if N.eqb c (ch ",") then
            match parse_value t with
            | Some (v, r) => parse_elems f (v :: acc) r
            | None => None
            end
          else None
      | [] => None
      end
  end.

Definition parse_member (s : jsstring) : option ((jsstring * JSON) * jsstring) :=
  match skip_ws s with
  | c :: t =>
      if N.eqb c 34 then
        match parse_chars (S (List.length t)) [] t with
        | Some (k, r) =>
            match skip_ws r with
            | d :: r' =>
                if N.eqb d (ch ":") then
                  match parse_value r' with
                  | Some (v, r'') => Some ((k, v), r'')
                  | None => None
                  end
                else None
            | [] => None
            end
        | None => None
        end
      else None
  | [] => None
  end.

(** The members of an object after the first, up to the brace. *)
Fixpoint parse_members (fuel : nat) (acc : list (jsstring * JSON)) (s : jsstring)
  : option (list (jsstring * JSON) * jsstring) :=
  match fuel with
  | O => None
  | S f =>
      match skip_ws s with
      | c :: t =>
          if N.eqb c (ch "}") then Some (rev acc, t)
          else if N.eqb c (ch ",") then
            match parse_member t with
            | Some (m, r) => parse_members f (m :: acc) r
            | None => None
            end
          else None
      | [] => None
      end
  end.

End Containers.

Fixpoint parse_value (fuel : nat) (s : jsstring) : option (JSON * jsstring) :=
  match fuel with
  | O => None
  | S f =>
      match skip_ws s with
      | [] => None
      | c :: t =>
          if startsWith (u "null") (c :: t) then Some (JNull, skipn 4 (c :: t))
          else if startsWith (u "true") (c :: t) then Some (JBool true, skipn 4 (c :: t))
          else if startsWith (u "false") (c :: t) then Some (JBool false, skipn 5 (c :: t))
          else if N.eqb c 34 then
            match parse_chars (S (List.length t)) [] t with
            | Some (x, r) => Some (JStr x, r)
            | None => None
            end
          else if N.eqb c (ch "-") then
            match parse_int t with
            | Some (n, r) => Some (JNum (- n), r)
            | None => None
            end
          else if is_digit c then
            match parse_int (c :: t) with
            | Some (n, r) => Some (JNum n, r)
            | None => None
            end
          else if N.eqb c (ch "[") then
            match skip_ws t with
            | d :: r =>
                if N.eqb d (ch "]") then Some (JArr [], r)
                else
                  match parse_value f t with
                  | Some (v, r') =>
                      match parse_elems (parse_value f) (S (List.length r')) [v] r' with
                      | Some (l, r'') => Some (JArr l, r'')
                      | None => None
                      end
                  | None => None
                  end
            | [] => None
            end
          else if N.eqb c (ch "{") then
            match skip_ws t with
            | d :: r =>
                if N.eqb d (ch "}") then Some (JObj [], r)
                else
                  match parse_member (parse_value f) t with
                  | Some (m, r') =>
                      match parse_members (parse_value f) (S (List.length r')) [m] r' with
                      | Some (l, r'') => Some (JObj l, r'')
                      | None => None
                      end
                  | None => None
                  end
            | [] => None
            end
          else None
      end
  end.

(** The whole text is one value, white space around it allowed. *)
Definition parse_json (s : jsstring) : option JSON :=
  match parse_value (S (List.length s)) s with
  | Some (v, r) =>
      match skip_ws r with
      | [] => Some v
      | _ :: _ => None
      end
  | None => None
  end.

Definition hex_digit (n : N) : char :=
  if N.ltb n 10 then (48 + n)%N else (87 + n)%N.

(** A character inside a string literal, escaped as [JSON.stringify]
    escapes it. *)
Definition quote_char (c : char) : jsstring :=
  if N.eqb c 34 then [92; 34]%N
  else if N.eqb c 92 then [92; 92]%N
  else if N.eqb c 8 then [92; 98]%N
  else if N.eqb c 12 then [92; 102]%N
  else if N.eqb c 10 then [92; 110]%N
  else if N.eqb c 13 then [92; 114]%N
  else if N.eqb c 9 then [92; 116]%N
  else if N.ltb c 32 then [92; 117; 48; 48; hex_digit (c / 16); hex_digit (c mod 16)]%N
  else [c].

Definition quote (s : jsstring) : jsstring :=
  dq ++ flat_map quote_char s ++ dq.

Definition dec_of_Z (n : Z) : jsstring :=
  u (NilZero.string_of_int (Z.to_int n)).

Fixpoint stringify (v : JSON) : jsstring :=
  match v with
  | JNull => u "null"
  | JBool true => u "true"
  | JBool false => u "false"
  | JNum n => dec_of_Z n
  | JStr s => quote s
  | JArr l => u "[" ++ join (u ",") (map stringify l) ++ u "]"
  | JObj fs =>
      u "{" ++
      join (u ",") (map (fun kv => quote (fst kv) ++ u ":" ++ stringify (snd kv)) fs) ++
      u "}"
  end.

(** One frame of the event stream: a data line and a blank line. *)
Definition frame (v : JSON) : jsstring :=
  u "data: " ++ stringify v ++ nl ++ nl.

End Json.

(* ================================================================== *)
(** ** The content renderer: [renderContentToHtml] *)

Module Render.

Import Regex.

(** [s.trim()] *)
Fixpoint trim_start (s : jsstring) : jsstring :=
  match s with
  | c :: t => if is_space c then trim_start t else s
  | [] => []
  end.

Definition trim (s : jsstring) : jsstring :=
  rev (trim_start (rev (trim_start s))).

(** [s.replace(/c/g, rep)] for a single character [c]. *)
Definition replace_char (c : ascii) (rep : jsstring) (s : jsstring) : jsstring :=
  flat_map (fun x => if is_char c x then rep else [x]) s.

(** The first three replacements: ampersand, then the angle brackets. *)
Definition escape_html (text : jsstring) : jsstring :=
  replace_char ">" (u "&gt;")
    (replace_char "<" (u "&lt;")
       (replace_char "&" (u "&amp;") text)).

(** [/```([\s\S]*?)```/g] *)
Definition re_fence : re :=
  Seq (lit "```") (Seq (Grp 1 (lazy_star (Chr any_char))) (lit "```")).

(** The replacement of a fenced block: the entities of its text are
    turned back into the characters they stand for. *)
Definition restore_code (code : jsstring) : jsstring :=
  replace_all (lit "&gt;") (fun _ _ => u ">")
    (replace_all (lit "&lt;") (fun _ _ => u "<")
       (replace_all (lit "&amp;") (fun _ _ => u "&") code)).

Definition fence_block (m : jsstring) (cs : list (nat * jsstring)) : jsstring :=
  u "<pre><code>" ++ restore_code (cap 1 cs) ++ u "</code></pre>".

(** [/`([^`]+)`/g] *)
Definition re_inline_code : re :=
  Seq (lit "`") (Seq (Grp 1 (plus (Chr (not_char "`")))) (lit "`")).

(** [/\*\*([^*]+)\*\*/g] and [/\*([^*]+)\*/g] *)
Definition re_bold : re :=
  Seq (lit "**") (Seq (Grp 1 (plus (Chr (not_char "*")))) (lit "**")).

Definition re_em : re :=
  Seq (lit "*") (Seq (Grp 1 (plus (Chr (not_char "*")))) (lit "*")).

Definition wrap (tag : string) (m : jsstring) (cs : list (nat * jsstring)) : jsstring :=
  u "<" ++ u tag ++ u ">" ++ cap 1 cs ++ u "</" ++ u tag ++ u ">".

(** Bold first, then italics. *)
Definition emphasis (s : jsstring) : jsstring :=
  replace_all re_em (wrap "em") (replace_all re_bold (wrap "strong") s).

(** [/^\|.*\|$/] *)
Definition re_table_row : re :=
  Seq Bol (Seq (lit "|") (Seq (star (Chr is_dot)) (Seq (lit "|") Eol))).

Definition isMdTableRow (line : jsstring) : bool := test re_table_row line.

(** [/^:?-{2,}:?$/] *)
Definition re_align : re :=
  Seq Bol (Seq (opt (lit ":")) (Seq (Rep true 2 None (lit "-")) (Seq (opt (lit ":")) Eol))).

Definition isAlignRow (cells : list jsstring) : bool := forallb (test re_align) cells.

(** The bullet characters: hyphen, asterisk, and U+2022. *)
Definition is_bullet (c : char) : bool :=
  is_char "-" c || is_char "*" c || N.eqb c 8226.

Definition is_dash_star (c : char) : bool := is_char "-" c || is_char "*" c.

(** [/^(?:[-*\u2022])\s+/] and [/^(?:[-*])\s+/] *)
Definition re_ul_test : re := Seq Bol (Seq (Chr is_bullet) (plus (Chr is_space))).
Definition re_ul_strip : re := Seq Bol (Seq (Chr is_dash_star) (plus (Chr is_space))).

(** [/^\d+[.)]\s+/] *)
Definition re_ol : re :=
  Seq Bol (Seq (plus (Chr is_digit))
    (Seq (Chr (fun c => is_char "." c || is_char ")" c)) (plus (Chr is_space)))).

(** The heading expression: from the start of the line one to six [#]
    (group 1), white space, then the rest of the line up to the end of
    the input (group 2, any characters but line terminators). *)
Definition re_heading : re :=
  Seq Bol (Seq (Grp 1 (Rep true 1 (Some 6) (lit "#")))
    (Seq (plus (Chr is_space)) (Seq (Grp 2 (star (Chr is_dot))) Eol))).

(** [l.slice(1, -1)] *)
Definition slice_1_m1 (l : jsstring) : jsstring := removelast (tl l).

Definition table_open : jsstring := u "<table class=" ++ dq ++ u "md-table" ++ dq ++ u ">".

Definition cells_of (l : jsstring) : list jsstring :=
  map trim (split (u "|") (slice_1_m1 l)).

Definition tr_of (tag : string) (cells : list jsstring) : jsstring :=
  u "<tr>" ++ List.concat (map (fun c => u "<" ++ u tag ++ u ">" ++ c ++ u "</" ++ u tag ++ u ">") cells)
  ++ u "</tr>".

(** The markup [flushTable] appends for a non-empty buffer of rows. *)
Definition table_html (tableBuffer : list jsstring) : jsstring :=
  let rows := map cells_of tableBuffer in
  match rows with
  | header :: align :: body =>
      if isAlignRow align
      then table_open ++ u "<thead>" ++ tr_of "th" header ++ u "</thead>" ++
           u "<tbody>" ++ List.concat (map (tr_of "td") body) ++ u "</tbody></table>"
      else table_open ++ u "<tbody>" ++ List.concat (map (tr_of "td") rows) ++ u "</tbody></table>"
  | _ => table_open ++ u "<tbody>" ++ List.concat (map (tr_of "td") rows) ++ u "</tbody></table>"
  end.

(** The variables of the line loop. *)
Record Loop : Type := mkLoop {
  out : jsstring;
  inUl : bool;
  inOl : bool;
  tableBuffer : list jsstring;
  inPre : bool
}.

Definition emit (s : jsstring) (st : Loop) : Loop :=
  mkLoop (out st ++ s) (inUl st) (inOl st) (tableBuffer st) (inPre st).

Definition closeLists (st : Loop) : Loop :=
  let st1 := if inUl st
             then mkLoop (out st ++ u "</ul>") false (inOl st) (tableBuffer st) (inPre st)
             else st in
  if inOl st1
  then mkLoop (out st1 ++ u "</ol>") (inUl st1) false (tableBuffer st1) (inPre st1)
  else st1.

Definition flushTable (st : Loop) : Loop :=
  match tableBuffer st with
  | [] => st
  | _ :: _ =>
      mkLoop (out st ++ table_html (tableBuffer st)) (inUl st) (inOl st) [] (inPre st)
  end.

Definition heading_html (cs : list (nat * jsstring)) : jsstring :=
  let level := [(48 + N.of_nat (List.length (cap 1 cs)))%N] in
  u "<h" ++ level ++ u ">" ++ emphasis (cap 2 cs) ++ u "</h" ++ level ++ u ">".

(** One turn of the loop over the lines of the marked-up text. *)
Definition render_line (st : Loop) (raw : jsstring) : Loop :=
  let line := trim raw in
  match line with
  | [] => st
  | _ :: _ =>
      if includes (u "<pre><code") line
      then mkLoop (out st ++ line) (inUl st) (inOl st) (tableBuffer st) true
      else if inPre st
      then mkLoop (out st ++ line) (inUl st) (inOl st) (tableBuffer st)
                  (negb (includes (u "</code></pre>") line))
      else if isMdTableRow line
      then mkLoop (out st) (inUl st) (inOl st) (tableBuffer st ++ [line]) (inPre st)
      else
        let st := flushTable st in
        if test re_ul_test line then
          let st := if inUl st then st
                    else let c := closeLists st in
                         mkLoop (out c ++ u "<ul>") true (inOl c) (tableBuffer c) (inPre c) in
          emit (u "<li>" ++ emphasis (replace_first re_ul_strip (fun _ _ => []) line) ++ u "</li>") st
        else if test re_ol line then
          let st := if inOl st then st
                    else let c := closeLists st in
                         mkLoop (out c ++ u "<ol>") (inUl c) true (tableBuffer c) (inPre c) in
          emit (u "<li>" ++ emphasis (replace_first re_ol (fun _ _ => []) line) ++ u "</li>") st
        else
          match exec re_heading line with
          | Some m => emit (heading_html (f_caps m)) (closeLists st)
          | None => emit (u "<p>" ++ emphasis line ++ u "</p>") (closeLists st)
          end
  end.

(** The hexadecimal colour of the two palette expressions: three digits
    is the first alternative, six the second. *)
Definition re_hex (i : nat) : re :=
  Grp i (Seq (lit "#") (Alt (times 3 (Chr is_hex)) (times 6 (Chr is_hex)))).

(** The separator class: colon, hyphen, and U+2013. *)
Definition is_palette_sep (c : char) : bool :=
  is_char ":" c || is_char "-" c || N.eqb c 8211.

(** The first palette expression: from the start of the line, white
    space, an optional hyphen or asterisk with white space after it, a
    lazy name (group 1, any characters but line terminators), white
    space, one separator, white space, the colour (group 2).  Nothing
    follows the colour in the expression. *)
Definition re_palette : re :=
  Seq Bol (Seq (star (Chr is_space))
    (Seq (opt (Seq (Chr is_dash_star) (star (Chr is_space))))
      (Seq (Grp 1 (lazy_star (Chr is_dot)))
        (Seq (star (Chr is_space))
          (Seq (Chr is_palette_sep)
            (Seq (star (Chr is_space)) (re_hex 2))))))).

(** [/\b(#(?:[0-9a-fA-F]{3}|[0-9a-fA-F]{6}))\b/] *)
Definition re_bare_hex : re := Seq WordB (Seq (re_hex 1) WordB).

(** [hex.toUpperCase()], on the characters a colour is made of. *)
Definition toUpperCase (s : jsstring) : jsstring := map upper_ascii s.

(** The row a raw line contributes to the palette, if any. *)
Definition palette_row (l : jsstring) : option (jsstring * jsstring) :=
  match exec re_palette l with
  | Some m =>
      let name := match cap 1 (f_caps m) with
                  | [] => u "Color"
                  | n => trim n
                  end in
      Some (name, toUpperCase (cap 2 (f_caps m)))
  | None =>
      match exec re_bare_hex l with
      | Some m2 => Some (u "Color", toUpperCase (cap 1 (f_caps m2)))
      | None => None
      end
  end.

Fixpoint paletteRows (rawLines : list jsstring) : list (jsstring * jsstring) :=
  match rawLines with
  | [] => []
  | l :: ls =>
      match palette_row l with
      | Some r => r :: paletteRows ls
      | None => paletteRows ls
      end
  end.

Definition row_key (r : jsstring * jsstring) : jsstring := fst r ++ u "|" ++ snd r.

(** The rows whose key was not seen before, in order. *)
Fixpoint uniqueRows (seen : list jsstring) (rows : list (jsstring * jsstring))
  : list (jsstring * jsstring) :=
  match rows with
  | [] => []
  | r :: rs =>
      if existsb (str_eqb (row_key r)) seen
      then uniqueRows seen rs
      else r :: uniqueRows (row_key r :: seen) rs
  end.

Definition swatch_row (r : jsstring * jsstring) : jsstring :=
  u "<tr><td>" ++ fst r ++ u "</td><td>" ++ snd r ++
  u "</td><td><span class=" ++ dq ++ u "swatch" ++ dq ++
  u " style=" ++ dq ++ u "background:" ++ snd r ++ dq ++ u "></span></td></tr>".

Definition swatch_table (rows : list (jsstring * jsstring)) : jsstring :=
  table_open ++ u "<thead><tr><th>Color</th><th>HEX</th><th>Preview</th></tr></thead><tbody>" ++
  List.concat (map swatch_row rows) ++ u "</tbody></table>".

(** The markup of the line loop, before the palette pass. *)
Definition render_lines (text : jsstring) : jsstring :=
  let escaped := escape_html text in
  let html := replace_all re_inline_code (wrap "code") (replace_all re_fence fence_block escaped) in
  let st := fold_left render_line (split nl html) (mkLoop [] false false [] false) in
  out (closeLists (flushTable st)).

(** The rows of the palette pass, from the raw text. *)
Definition palette_of (text : jsstring) : list (jsstring * jsstring) :=
  uniqueRows [] (paletteRows (split nl text)).

Definition renderContentToHtml (text : jsstring) : jsstring :=
  match text with
  | [] => []
  | _ :: _ =>
      let out := render_lines text in
      let rows := palette_of text in
      if Nat.leb 2 (List.length rows) && negb (includes (u "<table") out)
      then out ++ swatch_table rows
      else out
  end.

End Render.

(* ================================================================== *)
(** ** The conversation store *)

Inductive Role : Type := User | Assistant.

(** A message of a history.  [elapsedMs] is [None] when it is missing
    or [null]; [pending] is [None] when the property is missing. *)
Record Message : Type := mkMessage {
  role : Role;
  content : jsstring;
  elapsedMs : option Z;
  createdAt : Z;
  pending : option bool
}.

Record Conversation : Type := mkConversation {
  id : jsstring;
  title : jsstring;
  avatarUrl : jsstring;
  history : list Message;
  conv_createdAt : Z
}.

(** The two keys of [localStorage] that [saveConversations] writes:
    the serialized conversation list and the active id. *)
Record Storage : Type := mkStorage {
  stored_conversations : option (list Conversation);
  stored_active : option jsstring
}.

(** What the program does that others can observe, in order; kept for
    the statements about the order of effects. *)
Inductive Effect : Type :=
| SetGenerating (b : bool)
| Saved (snapshot : list Conversation)
| Requested (messages : list (Role * jsstring)).

(** The variables of the script that the operations below read and
    write. *)
Record App : Type := mkApp {
  conversations : list Conversation;
  activeConversationId : option jsstring;
  chatHistory : list Message;
  isGenerating : bool;
  userInput : jsstring;
  lastUserMessage : jsstring;
  storage : Storage;
  trace : list Effect
}.

Definition opt_str_eqb (a : option jsstring) (b : jsstring) : bool :=
  match a with
  | Some x => str_eqb x b
  | None => false
  end.

(** [conversations.find(c => c.id === i)] *)
Fixpoint find_conv (i : jsstring) (cs : list Conversation) : option Conversation :=
  match cs with
  | [] => None
  | c :: cs' => if str_eqb (id c) i then Some c else find_conv i cs'
  end.

(** [conversations.findIndex(c => c.id === i)], [None] for [-1]. *)
Fixpoint findIndex (i : jsstring) (cs : list Conversation) : option nat :=
  match cs with
  | [] => None
  | c :: cs' =>
      if str_eqb (id c) i then Some 0
      else match findIndex i cs' with
           | Some n => Some (S n)
           | None => None
           end
  end.

(** An assignment to a property of the conversation that [find]
    returns: the first one with that id changes. *)
Fixpoint update_conv (i : jsstring) (f : Conversation -> Conversation)
    (cs : list Conversation) : list Conversation :=
  match cs with
  | [] => []
  | c :: cs' => if str_eqb (id c) i then f c :: cs' else c :: update_conv i f cs'
  end.

Definition getActiveConv (st : App) : option Conversation :=
  match activeConversationId st with
  | Some i => find_conv i (conversations st)
  | None => None
  end.

Definition set_history (h : list Message) (c : Conversation) : Conversation :=
  mkConversation (id c) (title c) (avatarUrl c) h (conv_createdAt c).

Definition set_title (t : jsstring) (c : Conversation) : Conversation :=
  mkConversation (id c) t (avatarUrl c) (history c) (conv_createdAt c).

(** [saveConversations]: both keys are written.  A write that fails is
    caught and dropped by the source; writes succeed here. *)
Definition saveConversations (st : App) : App :=
  mkApp (conversations st) (activeConversationId st) (chatHistory st)
        (isGenerating st) (userInput st) (lastUserMessage st)
        (mkStorage (Some (conversations st))
                   (Some (match activeConversationId st with Some i => i | None => [] end)))
        (trace st ++ [Saved (conversations st)]).

Definition with_conversations (cs : list Conversation) (st : App) : App :=
  mkApp cs (activeConversationId st) (chatHistory st) (isGenerating st)
        (userInput st) (lastUserMessage st) (storage st) (trace st).

(** [persistConversationHistory(i, h)] *)
Definition persistConversationHistory (i : option jsstring) (h : list Message) (st : App) : App :=
  match i with
  | Some i' =>
      match find_conv i' (conversations st) with
      | Some _ =>
          saveConversations (with_conversations (update_conv i' (set_history h) (conversations st)) st)
      | None => st
      end
  | None => st
  end.

(** [conversations.splice(idx, 1)] *)
Definition splice1 (idx : nat) (cs : list Conversation) : list Conversation :=
  firstn idx cs ++ skipn (S idx) cs.

Section Store.

(** What [genId()] returns, the clock, and the default avatar. *)
Variable genId : jsstring.
Variable now : Z.
Variable defaultAvatar : jsstring.

Definition fresh_conversation (t : jsstring) : Conversation :=
  mkConversation genId t defaultAvatar [] now.

(** [createNewConversation(title)]; [None] is a missing title. *)
Definition createNewConversation (t : option jsstring) (st : App) : App :=
  let t' := match t with
            | Some (x :: xs) => x :: xs
            | _ => u "New Conversation"
            end in
  let st1 := mkApp (conversations st ++ [fresh_conversation t']) (Some genId)
                   (chatHistory st) (isGenerating st) (userInput st)
                   (lastUserMessage st) (storage st) (trace st) in
  let st2 := saveConversations st1 in
  mkApp (conversations st2) (activeConversationId st2) [] (isGenerating st2)
        [] (lastUserMessage st2) (storage st2) (trace st2).

(** [deleteConversation(i)] *)
Definition deleteConversation (i : jsstring) (st : App) : App :=
  match findIndex i (conversations st) with
  | None => st
  | Some idx =>
      let wasActive := opt_str_eqb (activeConversationId st) i in
      let cs := splice1 idx (conversations st) in
      match cs with
      | [] =>
          createNewConversation None
            (saveConversations
               (mkApp [] None (chatHistory st) (isGenerating st) (userInput st)
                      (lastUserMessage st) (storage st) (trace st)))
      | c0 :: _ =>
          if wasActive then
            let nextIdx := Nat.min idx (List.length cs - 1) in
            let next := nth nextIdx cs c0 in
            let h := match find_conv (id next) cs with
                     | Some conv => history conv
                     | None => []
                     end in
            saveConversations
              (mkApp cs (Some (id next)) h (isGenerating st) []
                     (lastUserMessage st) (storage st) (trace st))
          else
            saveConversations
              (mkApp cs (activeConversationId st) (chatHistory st) (isGenerating st)
                     (userInput st) (lastUserMessage st) (storage st) (trace st))
      end
  end.

End Store.

(* ================================================================== *)
(** ** The generation session: [sendMessage] *)

(** The assistant message element: its [loading] class and what it
    shows, as text or as markup. *)
Inductive DivBody : Type :=
| TextContent (s : jsstring)
| InnerHtml (h : jsstring).

Record Div : Type := mkDiv { loading : bool; body : DivBody }.

(** The variables of one call of [sendMessage], with the variables of
    the script.  [P] is the state of the progress card.

    A history is copied with [slice()], so its message objects are
    shared with the copies; each assignment to the pending entry below
    is followed, in the same block, by [persistConversationHistory],
    after which the conversation holds a copy with the new values.  The
    histories are values here.  [assistantPendingIndex] is the length of
    [generatingHistory] just before the pending entry is pushed and is
    never [null]. *)
Record Session (P : Type) : Type := mkSession {
  app : App;
  generatingConvId : option jsstring;
  generatingHistory : list Message;
  assistantPendingIndex : nat;
  streamedContent : jsstring;
  div : Div;
  progress : P
}.

Module Send.

Import Regex Render.

(** [/^New Conversation$/i] and [/^Conversation$/i] *)
Definition re_new_conversation : re := Seq Bol (Seq (lit_i "New Conversation") Eol).
Definition re_conversation : re := Seq Bol (Seq (lit_i "Conversation") Eol).

Definition isDefault (t : jsstring) : bool :=
  match t with
  | [] => true
  | _ :: _ => test re_new_conversation t || test re_conversation t
  end.

Definition nonempty (s : jsstring) : bool :=
  match s with
  | [] => false
  | _ :: _ => true
  end.

(** The title made of the first four words of the first line. *)
Definition title_of (message : jsstring) : jsstring :=
  let firstLine := trim (hd [] (split nl message)) in
  let words := filter nonempty (split_re (plus (Chr is_space)) firstLine) in
  join (u " ") (firstn 4 words).

(** The renaming of a conversation that still has a default title. *)
Definition rename_default (message : jsstring) (st : App) : App :=
  match getActiveConv st with
  | Some conv =>
      if isDefault (title conv) then
        match title_of message with
        | [] => st
        | t =>
            saveConversations
              (with_conversations (update_conv (id conv) (set_title t) (conversations st)) st)
        end
      else st
  | None => st
  end.

Definition set_generating (b : bool) (st : App) : App :=
  mkApp (conversations st) (activeConversationId st) (chatHistory st) b
        (userInput st) (lastUserMessage st) (storage st)
        (trace st ++ [SetGenerating b]).

(** [/abort/i] *)
Definition re_abort : re := lit_i "abort".

Definition wasAborted (e : Error) : bool :=
  str_eqb (err_name e) (u "AbortError") || test re_abort (err_message e).

Definition stop_marker : jsstring := nl ++ nl ++ u "[Generation stopped]".

(** ['Error: ' + (error.message ? error.message : 'Unknown error')] *)
Definition errorMsg (e : Error) : jsstring :=
  u "Error: " ++ match err_message e with
                 | [] => u "Unknown error"
                 | m => m
                 end.

(** The final text on the error path. *)
Definition finalContent (e : Error) (streamed : jsstring) : jsstring :=
  if wasAborted e then streamed ++ stop_marker
  else streamed ++ nl ++ nl ++ errorMsg e.

(** An assignment to the entry at an index of a history.  The index of
    the pending entry stays within the history during a session, so the
    object the source falls back on for a missing entry is never used;
    outside the history nothing is written here. *)
Fixpoint set_entry (n : nat) (f : Message -> Message) (h : list Message) : list Message :=
  match h, n with
  | [], _ => []
  | m :: h', O => f m :: h'
  | m :: h', S n' => m :: set_entry n' f h'
  end.

(** [entry.content = c; entry.pending = p] *)
Definition write_pending (c : jsstring) (p : bool) (m : Message) : Message :=
  mkMessage (role m) c (elapsedMs m) (createdAt m) (Some p).

(** [entry.content = c; delete entry.pending] *)
Definition write_final (c : jsstring) (m : Message) : Message :=
  mkMessage (role m) c (elapsedMs m) (createdAt m) None.

Section Session.

Variable P : Type.

(** What the progress callback does to the progress card, and whether
    it throws doing it. *)
Variable progress_card : JSON -> P -> completion P.

Variable JSON_parse : jsstring -> option JSON.

(** The clock; the readings within one call are taken equal. *)
Variable now : Z.

Definition with_app (a : App) (s : Session P) : Session P :=
  mkSession a (generatingConvId s) (generatingHistory s) (assistantPendingIndex s)
            (streamedContent s) (div s) (progress s).

(** Writes the pending entry and persists the history. *)
Definition persist_entry (f : Message -> Message) (s : Session P) : Session P :=
  let h := set_entry (assistantPendingIndex s) f (generatingHistory s) in
  mkSession (persistConversationHistory (generatingConvId s) h (app s))
            (generatingConvId s) h (assistantPendingIndex s)
            (streamedContent s) (div s) (progress s).

(** The final write of the pending entry, done when the entry is there:
    [generatingHistory[assistantPendingIndex]] is truthy. *)
Definition finalize_entry (c : jsstring) (s : Session P) : Session P :=
  match nth_error (generatingHistory s) (assistantPendingIndex s) with
  | Some _ => persist_entry (write_final c) s
  | None => s
  end.

(** The chunk callback. *)
Definition onChunk (chunk : jsstring) (done : bool) (s : Session P) : completion (Session P) :=
  let streamed := streamedContent s ++ chunk in
  let s1 := mkSession (app s) (generatingConvId s) (generatingHistory s)
                      (assistantPendingIndex s) streamed
                      (mkDiv false (TextContent streamed)) (progress s) in
  let s2 := persist_entry (write_pending streamed (negb done)) s1 in
  if done then
    let s3 := mkSession (app s2) (generatingConvId s2) (generatingHistory s2)
                        (assistantPendingIndex s2) streamed
                        (mkDiv false (InnerHtml (renderContentToHtml streamed)))
                        (progress s2) in
    let s4 := finalize_entry streamed s3 in
    Normal (with_app (set_generating false (app s4)) s4)
  else Normal s2.

(** The progress callback: it touches the progress card only. *)
Definition onProgress (evt : JSON) (s : Session P) : completion (Session P) :=
  match progress_card evt (progress s) with
  | Normal p => Normal (mkSession (app s) (generatingConvId s) (generatingHistory s)
                                  (assistantPendingIndex s) (streamedContent s) (div s) p)
  | Abrupt p => Abrupt (mkSession (app s) (generatingConvId s) (generatingHistory s)
                                  (assistantPendingIndex s) (streamedContent s) (div s) p)
  end.

(** [addMessageToChat('user', message)], its part on the histories. *)
Definition addUserMessageToChat (message : jsstring) (st : App) : App :=
  let ch := chatHistory st ++ [mkMessage User message None now None] in
  let st1 := mkApp (conversations st) (activeConversationId st) ch (isGenerating st)
                   (userInput st) (lastUserMessage st) (storage st) (trace st) in
  match getActiveConv st1 with
  | Some conv =>
      saveConversations
        (with_conversations (update_conv (id conv) (set_history ch) (conversations st1)) st1)
  | None => st1
  end.

Definition set_lastUserMessage (m : jsstring) (st : App) : App :=
  mkApp (conversations st) (activeConversationId st) (chatHistory st) (isGenerating st)
        (userInput st) m (storage st) (trace st).

Definition clear_input (st : App) : App :=
  mkApp (conversations st) (activeConversationId st) (chatHistory st) (isGenerating st)
        [] (lastUserMessage st) (storage st) (trace st).

(** [buildCopilotMessages()] and the message pushed after it. *)
Definition request_messages (message : jsstring) (st : App) : list (Role * jsstring) :=
  map (fun m => (role m, content m)) (chatHistory st) ++ [(User, message)].

Definition record_request (message : jsstring) (st : App) : App :=
  mkApp (conversations st) (activeConversationId st) (chatHistory st) (isGenerating st)
        (userInput st) (lastUserMessage st) (storage st)
        (trace st ++ [Requested (request_messages message st)]).

(** The part of [sendMessage] before the request, for a message that is
    sent: everything up to and including the pending entry. *)
Definition prologue (p0 : P) (message : jsstring) (st : App) : Session P :=
  let st1 := set_generating true st in
  let generatingConvId := activeConversationId st1 in
  let generatingHistory0 :=
    match generatingConvId with
    | Some i => match find_conv i (conversations st1) with
                | Some conv0 => history conv0
                | None => []
                end
    | None => []
    end in
  let st2 := rename_default message st1 in
  let st3 := addUserMessageToChat message (set_lastUserMessage message st2) in
  let generatingHistory1 := generatingHistory0 ++ [mkMessage User message None now None] in
  let st4 := clear_input (persistConversationHistory generatingConvId generatingHistory1 st3) in
  let assistantPendingIndex := List.length generatingHistory1 in
  let generatingHistory2 :=
    generatingHistory1 ++ [mkMessage Assistant (u "Generating...") None now (Some true)] in
  let st5 := persistConversationHistory generatingConvId generatingHistory2 st4 in
  mkSession st5 generatingConvId generatingHistory2 assistantPendingIndex []
            (mkDiv true (TextContent (u "Generating..."))) p0.

(** The request and the stream, with the two callbacks. *)
Definition run_stream (message : jsstring) (resp : Response) (s : Session P)
  : Session P * option Error :=
  streamCopilotChat JSON_parse (Some onChunk) (Some onProgress) resp
    (with_app (record_request message (app s)) s).

(** The [catch] block. *)
Definition catch_path (e : Error) (s : Session P) : Session P :=
  let s1 := mkSession (app s) (generatingConvId s) (generatingHistory s)
                      (assistantPendingIndex s) (streamedContent s)
                      (mkDiv false
                         (InnerHtml (renderContentToHtml (finalContent e (streamedContent s)))))
                      (progress s) in
  let s2 := match streamedContent s with
            | [] => s1
            | _ :: _ => finalize_entry (finalContent e (streamedContent s)) s1
            end in
  with_app (set_generating false (app s2)) s2.

(** [sendMessage()] with the session it ends in; [None] when it returns
    at once. *)
Definition sendMessage_session (p0 : P) (resp : Response) (st : App) : option (Session P) :=
  if isGenerating st then None
  else
    match trim (userInput st) with
    | [] => None
    | message =>
        let r := run_stream message resp (prologue p0 message st) in
        match snd r with
        | None => Some (fst r)
        | Some e => Some (catch_path e (fst r))
        end
    end.

(** [sendMessage()]: the variables of the script after the call. *)
Definition sendMessage (p0 : P) (resp : Response) (st : App) : App :=
  match sendMessage_session p0 resp st with
  | Some s => app s
  | None => st
  end.

End Session.

End Send.

(* ================================================================== *)
(** ** Concrete frames and states for the examples *)

Module Examples.

Import Json.

(** [{"chunk": text, "done": done}] *)
Definition ev_chunk (text : jsstring) (done : bool) : JSON :=
  JObj [(u "chunk", JStr text); (u "done", JBool done)].

(** [{"type": "error", "message": message}] *)
Definition ev_error (message : jsstring) : JSON :=
  JObj [(u "type", JStr (u "error")); (u "message", JStr message)].

(** A data line whose payload is not JSON. *)
Definition malformed_frame : jsstring := u "data: {oops" ++ nl ++ nl.

(** Callbacks that do nothing, on a state without content. *)
Definition idle_chunk : jsstring -> bool -> unit -> completion unit :=
  fun _ _ s => Normal s.

Definition idle_progress : JSON -> unit -> completion unit :=
  fun _ s => Normal s.

(** A stream with a malformed data line, an explicit error frame, and
    then a last chunk. *)
Definition error_stream : list jsstring :=
  [malformed_frame; frame (ev_error (u "boom")); frame (ev_chunk (u "Hi") true)].

(** A progress card that never throws. *)
Definition no_card : JSON -> unit -> completion unit :=
  fun _ p => Normal p.

Definition conv_a : Conversation :=
  mkConversation (u "a1b2c3d4") (u "New Conversation") (u "assets/female-2.webp") [] 0.

(** One conversation, active, with a message typed in. *)
Definition app0 : App :=
  mkApp [conv_a] (Some (u "a1b2c3d4")) [] false (u " hello there ") []
        (mkStorage None None) [].

(** The same while a response is being generated. *)
Definition busy_app : App :=
  mkApp [conv_a] (Some (u "a1b2c3d4")) [] true (u " hello there ") []
        (mkStorage None None) [].

(** The rejection of an aborted request and of a failed one. *)
Definition abort_error : Error :=
  mkError (u "AbortError") (u "The user aborted a request.").

Definition network_error : Error :=
  mkError (u "TypeError") (u "Failed to fetch").

(** Two frames that carry the text [Hello wor]. *)
Definition hello_reads : list jsstring :=
  [frame (ev_chunk (u "Hello ") false); frame (ev_chunk (u "wor") false)].

End Examples.

(* ================================================================== *)
(** ** Predicates of the statements about sessions *)

(** The conversation [gid] is in the list. *)
Definition has_conv (gid : jsstring) (st : App) : Prop :=
  exists c, find_conv gid (conversations st) = Some c.

(** The conversation [gid] holds the history [h], in the list and in the
    stored copy of the list. *)
Definition persisted (gid : jsstring) (h : list Message) (st : App) : Prop :=
  (exists c, find_conv gid (conversations st) = Some c /\ history c = h) /\
  stored_conversations (storage st) = Some (conversations st).

(** An assistant entry made at [now]. *)
Definition entry_meta (now : Z) (m : Message) : Prop :=
  role m = Assistant /\ elapsedMs m = None /\ createdAt m = now.

(** A session of conversation [gid] whose history is [base] followed by
    the pending entry [entry], all of it persisted. *)
Definition session_at {P : Type} (gid : jsstring) (base : list Message) (entry : Message)
    (s : Session P) : Prop :=
  generatingConvId s = Some gid /\
  assistantPendingIndex s = List.length base /\
  generatingHistory s = base ++ [entry] /\
  persisted gid (base ++ [entry]) (app s).

(** The entry pushed when the session starts. *)
Definition placeholder (now : Z) : Message :=
  mkMessage Assistant (u "Generating...") None now (Some true).

(** The calls the decoder makes during [sendMessage], for a message that
    is sent. *)
Definition session_calls {P : Type} (progress_card : JSON -> P -> completion P)
    (JSON_parse : jsstring -> option JSON) (now : Z) (p0 : P)
    (resp : Response) (st : App) : list Call :=
  let message := Render.trim (userInput st) in
  let s0 := Send.prologue now p0 message st in
  calls_of (decode JSON_parse (@Send.onChunk P) (Send.onProgress progress_card) resp
              (Send.with_app (Send.record_request message (app s0)) s0)).

(** The calls the decoder makes during the read loop of [sendMessage],
    over the given reads. *)
Definition session_loop_calls {P : Type} (progress_card : JSON -> P -> completion P)
    (JSON_parse : jsstring -> option JSON) (now : Z) (p0 : P)
    (reads : list jsstring) (st : App) : list Call :=
  let message := Render.trim (userInput st) in
  let s0 := Send.prologue now p0 message st in
  loop_calls JSON_parse (@Send.onChunk P) (Send.onProgress progress_card) reads
    (Send.with_app (Send.record_request message (app s0)) s0).

(** A finalized session: the element no longer loads and shows the
    markup of the accumulated text, and no generation is under way. *)
Definition finalized {P : Type} (s : Session P) : Prop :=
  loading (div s) = false /\
  body (div s) = InnerHtml (Render.renderContentToHtml (streamedContent s)) /\
  isGenerating (app s) = false.

(** The effects of a call: what it added to the trace. *)
Definition new_effects (before after : App) : list Effect :=
  skipn (List.length (trace before)) (trace after).

Definition is_set_generating (e : Effect) : bool :=
  match e with
  | SetGenerating true => true
  | _ => false
  end.

Definition is_requested (e : Effect) : bool :=
  match e with
  | Requested _ => true
  | _ => false
  end.

Definition is_user_message (message : jsstring) (m : Message) : bool :=
  match role m with
  | User => str_eqb (content m) message
  | Assistant => false
  end.

(** A save of the list in which the history of [gid] ends with the user
    message. *)
Definition saves_user_message (gid message : jsstring) (e : Effect) : bool :=
  match e with
  | Saved snapshot =>
      match find_conv gid snapshot with
      | Some c =>
          match rev (history c) with
          | m :: _ => is_user_message message m
          | [] => false
          end
      | None => false
      end
  | _ => false
  end.

(** An effect [p] comes before the first effect [q], which does come. *)
Fixpoint before_b (p q : Effect -> bool) (l : list Effect) : bool :=
  match l with
  | [] => false
  | x :: l' =>
      if q x then false
      else if p x then existsb q l'
      else before_b p q l'
  end.

(* ================================================================== *)
(** ** More of the conversation store: switching, renaming, loading *)

(** [switchConversation(i)] *)
Definition switchConversation (i : jsstring) (st : App) : App :=
  if isGenerating st && negb (opt_str_eqb (activeConversationId st) i) then st
  else
    match find_conv i (conversations st) with
    | None => st
    | Some conv =>
        let st1 :=
          saveConversations
            (mkApp (conversations st) (Some i) (chatHistory st) (isGenerating st)
                   (userInput st) (lastUserMessage st) (storage st) (trace st)) in
        mkApp (conversations st1) (activeConversationId st1) (history conv)
              (isGenerating st1) [] (lastUserMessage st1) (storage st1) (trace st1)
    end.

Module Rename.

Import Regex Render.

(** The title made of the first four words of a text. *)
Definition first_words (text : jsstring) : jsstring :=
  join (u " ") (firstn 4 (filter Send.nonempty (split_re (plus (Chr is_space)) text))).

(** The end of an inline rename of conversation [i] that commits the
    value [input] of the text field: [cleanup(true)]. *)
Definition commitRename (i : jsstring) (input : jsstring) (st : App) : App :=
  match find_conv i (conversations st) with
  | None => st
  | Some _ =>
      match first_words (trim input) with
      | [] => st
      | t =>
          saveConversations
            (with_conversations (update_conv i (set_title t) (conversations st)) st)
      end
  end.

End Rename.

Module Load.

Import Regex.

(** The expression of a numbered default title, under the [i] flag:
    [New], white space, [Conversation], or [Conversation] alone; then
    white space and digits up to the end. *)
Definition re_numbered_default : re :=
  Seq Bol
    (Seq (Alt (Seq (lit_i "New") (Seq (plus (Chr is_space)) (lit_i "Conversation")))
              (lit_i "Conversation"))
       (Seq (plus (Chr is_space)) (Seq (plus (Chr is_digit)) Eol))).

(** The title a stored conversation gets when the list is loaded. *)
Definition normalize_title (t : jsstring) : jsstring :=
  if test re_numbered_default t then u "New Conversation"
  else match t with
       | [] => u "New Conversation"
       | _ :: _ => t
       end.

Definition title_changes (t : jsstring) : bool :=
  test re_numbered_default t ||
  match t with
  | [] => true
  | _ :: _ => false
  end.

Section Load.

Variable genId : jsstring.
Variable now : Z.
Variable defaultAvatar : jsstring.

(** [initConversations()], on the two keys of the store: the list and
    the active id are read back, default titles lose their number, and
    an empty list gets one fresh conversation.  The variable read from
    the third key is never used afterwards and is left out; a stored
    list is one that [saveConversations] wrote. *)
Definition initConversations (sto : Storage) : App :=
  let saved := match stored_conversations sto with
               | Some cs => cs
               | None => []
               end in
  let active := match stored_active sto with
                | Some (x :: xs) => Some (x :: xs)
                | _ => None
                end in
  let cs := map (fun c => set_title (normalize_title (title c)) c) saved in
  let st0 := mkApp cs active [] false [] [] sto [] in
  let st1 := if existsb (fun c => title_changes (title c)) saved
             then saveConversations st0 else st0 in
  match conversations st1 with
  | [] =>
      saveConversations
        (mkApp [mkConversation genId (u "New Conversation") defaultAvatar [] now]
               (Some genId) (chatHistory st1) (isGenerating st1) (userInput st1)
               (lastUserMessage st1) (storage st1) (trace st1))
  | _ :: _ => st1
  end.

End Load.

(** The last user message of a history, if any. *)
Fixpoint last_user (h : list Message) : option Message :=
  match h with
  | [] => None
  | m :: h' =>
      match last_user h' with
      | Some x => Some x
      | None => match role m with
                | User => Some m
                | Assistant => None
                end
      end
  end.

(** The block that loads the history of the active conversation into
    the chat when the page starts. *)
Definition initActiveConversationUI (st : App) : App :=
  let h := match getActiveConv st with
           | Some conv0 => history conv0
           | None => []
           end in
  mkApp (conversations st) (activeConversationId st) h (isGenerating st)
        (userInput st)
        (match last_user h with
         | Some m => content m
         | None => []
         end)
        (storage st) (trace st).

End Load.

(* ================================================================== *)
(** ** Relative times: [formatTimeAgo] *)

Module TimeAgo.

(** A count in decimal digits. *)
Definition dec (n : Z) : jsstring := Json.dec_of_Z n.

(** [unit] with an [s] unless the count is one. *)
Definition plural (n : Z) (unit : string) : jsstring :=
  dec n ++ u " " ++ u unit ++ (if Z.eqb n 1 then [] else u "s") ++ u " ago".

(** [formatTimeAgo(ts)] at the clock reading [now]; times are whole
    milliseconds. *)
Definition formatTimeAgo (now ts : Z) : jsstring :=
  let diff := Z.max 0 (now - ts) in
  let sec := (diff / 1000)%Z in
  if (sec <? 5)%Z then u "just now"
  else if (sec <? 60)%Z then dec sec ++ u " seconds ago"
  else
    let min := (sec / 60)%Z in
    if (min <? 60)%Z then plural min "minute"
    else
      let hrs := (min / 60)%Z in
      if (hrs <? 24)%Z then plural hrs "hour"
      else plural (hrs / 24)%Z "day".

End TimeAgo.

(* ================================================================== *)
(** ** Predicates of the further statements *)

(** The stored copy agrees with the list and the active id. *)
Definition synced (st : App) : Prop :=
  stored_conversations (storage st) = Some (conversations st) /\
  stored_active (storage st) =
    Some (match activeConversationId st with Some i => i | None => [] end).

(** The text of a chunk call. *)
Definition chunk_text (c : Call) : jsstring :=
  match c with
  | CallChunk t _ => t
  | CallProgress _ => []
  end.

(** The texts of the chunk calls, in order, put together. *)
Definition chunks_text (l : list Call) : jsstring :=
  List.concat (map chunk_text l).


(** Whether the last chunk call of a record of calls has done set. *)
Definition last_chunk_done (l : list Call) : bool :=
  match rev (filter is_chunk_call l) with
  | CallChunk _ done :: _ => done
  | _ => false
  end.

(** The messages sent with the request of a call of [sendMessage]. *)
Definition request_of {P : Type} (now : Z) (p0 : P) (st : App) : list (Role * jsstring) :=
  let message := Render.trim (userInput st) in
  Send.request_messages message (app (Send.prologue now p0 message st)).

(** With respect to the active id [a0] and the list [cs0] before a call:
    the active id is the same, the ids of the list are the same in the
    same order, and every conversation but the active one is found as
    it was. *)
Definition untouched (a0 : option jsstring) (cs0 : list Conversation) (st : App) : Prop :=
  activeConversationId st = a0
  /\ map id (conversations st) = map id cs0
  /\ forall j, a0 <> Some j -> find_conv j (conversations st) = find_conv j cs0.

(** A session of the conversation [a0] that has left the others alone. *)
Definition kept_session {P : Type} (a0 : option jsstring) (cs0 : list Conversation)
    (s : Session P) : Prop :=
  generatingConvId s = a0 /\ untouched a0 cs0 (app s).

(** The trace of [st] starts with [t]. *)
Definition extends_trace (t : list Effect) (st : App) : Prop :=
  exists r, trace st = t ++ r.

(* ================================================================== *)
(** ** The regenerate button *)

Module Regen.

Section Regen.

Variable P : Type.
Variable progress_card : JSON -> P -> completion P.
Variable JSON_parse : jsstring -> option JSON.
Variable now : Z.



End Regen.

End Regen.

(* ================================================================== *)
(** * Properties *)

(** ** Splitting and joining *)

Section SplitFacts.

Variable sep : jsstring.
Hypothesis sep_nonempty : sep <> [].

Lemma startsWith_app (p s t : jsstring) :
  startsWith p s = true -> startsWith p (s ++ t) = true.
Proof.
  revert s; induction p as [|x p IH]; intros [|y s]; simpl; try easy.
  intros H; apply andb_true_iff in H as [-> H]; simpl; auto.
Qed.

Lemma startsWith_prefix (p s : jsstring) :
  startsWith p s = true -> s = p ++ skipn (List.length p) s.
Proof.
  revert s; induction p as [|x p IH]; intros [|y s]; simpl; try easy.
  intros H; apply andb_true_iff in H as [E H].
  apply N.eqb_eq in E; subst; f_equal; auto.
Qed.

Lemma startsWith_length (p s : jsstring) :
  startsWith p s = true -> List.length p <= List.length s.
Proof.
  revert s; induction p as [|x p IH]; intros [|y s]; simpl; try easy; try lia.
  intros H; apply andb_true_iff in H as [_ H]; apply IH in H; lia.
Qed.

(** A prefix found in [s ++ t] lies in [s] already when [s] is long
    enough. *)
Lemma startsWith_app_inv (p s t : jsstring) :
  List.length p <= List.length s ->
  startsWith p (s ++ t) = startsWith p s.
Proof.
  revert s; induction p as [|x p IH]; intros [|y s]; simpl; try easy; try lia.
  intros H; f_equal; apply IH; lia.
Qed.

Lemma split_from_skipn (k : nat) (s : jsstring) :
  split_from sep k s = split_from sep 0 (skipn k s).
Proof.
  revert k; induction s as [|c t IH]; intros [|k]; simpl; try reflexivity.
  apply IH.
Qed.

Lemma split_nil : split sep [] = [[]].
Proof. destruct sep; [contradiction|reflexivity]. Qed.

Lemma split_unfold (s : jsstring) : split sep s = split_from sep 0 s.
Proof. unfold split; destruct sep; [contradiction|reflexivity]. Qed.

(** The two equations of [split] on a non-empty string. *)
Lemma split_cons_sep (c : char) (t : jsstring) :
  startsWith sep (c :: t) = true ->
  split sep (c :: t) = [] :: split sep (skipn (List.length sep) (c :: t)).
Proof.
  intros H; rewrite !split_unfold.
  cbn [split_from]; rewrite H, split_from_skipn.
  destruct sep as [|x p]; [contradiction|].
  simpl; now rewrite Nat.sub_0_r.
Qed.

Lemma split_cons_other (c : char) (t : jsstring) :
  startsWith sep (c :: t) = false ->
  split sep (c :: t) = cons_head c (split sep t).
Proof.
  intros H; rewrite !split_unfold.
  cbn [split_from]; now rewrite H.
Qed.

Lemma split_not_nil (s : jsstring) : split sep s <> [].
Proof.
  destruct s as [|c t]; [now rewrite split_nil|].
  destruct (startsWith sep (c :: t)) eqn:H.
  - now rewrite split_cons_sep.
  - rewrite split_cons_other by assumption.
    now destruct (split sep t).
Qed.

(** A string shorter than the separator is one part. *)
Lemma split_short (s : jsstring) :
  List.length s < List.length sep -> split sep s = [s].
Proof.
  induction s as [|c t IH]; intros H; [apply split_nil|].
  rewrite split_cons_other.
  - rewrite IH by (simpl in H; lia); reflexivity.
  - destruct (startsWith sep (c :: t)) eqn:E; [|reflexivity].
    apply startsWith_length in E; lia.
Qed.

Lemma join_cons_head (c : char) (ps : list jsstring) :
  ps <> [] -> join sep (cons_head c ps) = c :: join sep ps.
Proof. destruct ps as [|p [|q ps]]; simpl; congruence. Qed.

(** Joining the parts gives the string back. *)
Lemma join_split (s : jsstring) : join sep (split sep s) = s.
Proof.
  remember (List.length s) as n eqn:Hn.
  revert s Hn; induction n as [n IH] using lt_wf_ind; intros s Hn.
  destruct s as [|c t]; [now rewrite split_nil|].
  destruct (startsWith sep (c :: t)) eqn:H.
  - rewrite split_cons_sep by assumption.
    pose proof (startsWith_prefix _ _ H) as E.
    pose proof (startsWith_length _ _ H) as L.
    assert (Hs : 0 < List.length sep) by (destruct sep; [contradiction|simpl; lia]).
    set (r := skipn (List.length sep) (c :: t)) in *.
    assert (Hr : List.length r < n).
    { subst r n; rewrite length_skipn; lia. }
    pose proof (split_not_nil r) as NN.
    cbn [join]; destruct (split sep r) as [|q qs] eqn:Q; [contradiction|].
    rewrite <- Q, (IH _ Hr r eq_refl); simpl; now rewrite <- E.
  - rewrite split_cons_other by assumption.
    rewrite join_cons_head by apply split_not_nil.
    f_equal; apply (IH (List.length t)); [subst; simpl; lia|reflexivity].
Qed.

Lemma split_single (s p : jsstring) : split sep s = [p] -> p = s.
Proof. intros H; rewrite <- (join_split s), H; reflexivity. Qed.

Lemma removelast_cons_head (c : char) (p q : jsstring) (ps : list jsstring) :
  removelast (cons_head c (p :: q :: ps)) = cons_head c (removelast (p :: q :: ps)).
Proof. reflexivity. Qed.

(** Splitting a concatenation: the complete parts of the first string,
    then the parts of its last, incomplete part followed by the second
    string. *)
Lemma split_app (s1 s2 : jsstring) :
  split sep (s1 ++ s2) =
  removelast (split sep s1) ++ split sep (last (split sep s1) [] ++ s2).
Proof.
  remember (List.length s1) as n eqn:Hn.
  revert s1 Hn; induction n as [n IH] using lt_wf_ind; intros s1 Hn.
  destruct s1 as [|c t]; [now rewrite split_nil|].
  destruct (startsWith sep (c :: t)) eqn:H.
  - pose proof (startsWith_length _ _ H) as L.
    assert (Hs : 0 < List.length sep) by (destruct sep; [contradiction|simpl; lia]).
    rewrite split_cons_sep by assumption.
    change ((c :: t) ++ s2) with (c :: (t ++ s2)).
    rewrite split_cons_sep by (apply (startsWith_app _ (c :: t) s2 H)).
    change (c :: (t ++ s2)) with ((c :: t) ++ s2).
    rewrite skipn_app.
    replace (List.length sep - List.length (c :: t)) with 0 by lia.
    rewrite skipn_O.
    set (r := skipn (List.length sep) (c :: t)).
    assert (Hr : List.length r < n) by (subst r n; rewrite length_skipn; lia).
    rewrite (IH _ Hr r eq_refl).
    pose proof (split_not_nil r) as NN.
    destruct (split sep r) as [|q qs]; [contradiction|reflexivity].
  - rewrite split_cons_other by assumption.
    destruct (split sep t) as [|p [|q ps]] eqn:E.
    + now apply split_not_nil in E.
    + apply split_single in E; subst p; reflexivity.
    + assert (L : List.length sep <= List.length (c :: t)).
      { destruct (Nat.le_gt_cases (List.length sep) (List.length (c :: t))) as [L|L]; [exact L|].
        assert (L' : List.length t < List.length sep) by (simpl in L; lia).
        rewrite split_short in E by assumption; discriminate. }
      change ((c :: t) ++ s2) with (c :: (t ++ s2)).
      rewrite split_cons_other
        by (change (c :: (t ++ s2)) with ((c :: t) ++ s2);
            rewrite startsWith_app_inv; assumption).
      assert (Ht : List.length t < n) by (subst n; simpl; lia).
      rewrite (IH _ Ht t eq_refl), E.
      rewrite removelast_cons_head.
      reflexivity.
Qed.

End SplitFacts.

(** ** The frame decoder *)

Lemma last_app_nonempty (A : Type) (l l' : list A) (d : A) :
  l' <> [] -> last (l ++ l') d = last l' d.
Proof.
  intros N; induction l as [|x l IH]; [reflexivity|].
  rewrite <- IH.
  change ((x :: l) ++ l') with (x :: (l ++ l')).
  destruct (l ++ l') eqn:E; [|reflexivity].
  apply app_eq_nil in E as [_ E]; contradiction.
Qed.

Section DecoderFacts.

Variable S : Type.
Variable JSON_parse : jsstring -> option JSON.
Variable onChunk : option (jsstring -> bool -> S -> completion S).
Variable onProgress : option (JSON -> S -> completion S).

Let blank : jsstring := nl ++ nl.

Lemma blank_nonempty : blank <> [].
Proof. discriminate. Qed.

(** Two reads in a row do what one read of both texts does. *)
Lemma process_value_app (v1 v2 : jsstring) (st : jsstring * Inner S) :
  process_value JSON_parse onChunk onProgress v2
    (process_value JSON_parse onChunk onProgress v1 st) =
  process_value JSON_parse onChunk onProgress (v1 ++ v2) st.
Proof.
  unfold process_value; cbn [fst snd]; fold blank.
  rewrite (app_assoc (fst st) v1 v2), (split_app blank_nonempty (fst st ++ v1) v2).
  set (P1 := split blank (fst st ++ v1)).
  set (P2 := split blank (last P1 [] ++ v2)).
  assert (N2 : P2 <> []) by apply (split_not_nil blank_nonempty).
  rewrite removelast_app by assumption.
  rewrite fold_left_app, last_app_nonempty by assumption.
  reflexivity.
Qed.

Lemma read_loop_after (ds : list jsstring) (v : jsstring) (st : jsstring * Inner S) :
  read_loop JSON_parse onChunk onProgress ds
    (process_value JSON_parse onChunk onProgress v st) =
  process_value JSON_parse onChunk onProgress (v ++ List.concat ds) st.
Proof.
  revert v; induction ds as [|d ds IH]; intros v; cbn [List.concat read_loop fold_left].
  - now rewrite app_nil_r.
  - rewrite process_value_app.
    unfold read_loop in IH; rewrite IH, app_assoc; reflexivity.
Qed.

(** The read loop over any deltas is the read loop over their
    concatenation in one read. *)
Lemma read_loop_concat (ds : list jsstring) (s : S) :
  read_loop JSON_parse onChunk onProgress ds (initial s) =
  read_loop JSON_parse onChunk onProgress [List.concat ds] (initial s).
Proof.
  assert (E : initial s = process_value JSON_parse onChunk onProgress [] (initial s))
    by reflexivity.
  rewrite E at 1; rewrite read_loop_after; reflexivity.
Qed.

Lemma streamCopilotChat_concat (ds : list jsstring) (ending : ReadEnd) (s : S) :
  streamCopilotChat JSON_parse onChunk onProgress (Streaming ds ending) s =
  streamCopilotChat JSON_parse onChunk onProgress (Streaming [List.concat ds] ending) s.
Proof. unfold streamCopilotChat; now rewrite read_loop_concat. Qed.

End DecoderFacts.

(** C3. Boundary insensitivity: however the text of the stream is split
    into deltas, the decoder makes the same calls of the chunk and
    progress callbacks, in the same order, as when the whole text comes
    in a single read; the state the callbacks leave and the way the call
    ends are the same too. *)
Theorem boundary_insensitivity :
  forall (S : Type) (JSON_parse : jsstring -> option JSON)
         (onChunk : jsstring -> bool -> S -> completion S)
         (onProgress : JSON -> S -> completion S)
         (deltas : list jsstring) (ending : ReadEnd) (s : S),
    decode JSON_parse onChunk onProgress (Streaming deltas ending) s =
    decode JSON_parse onChunk onProgress (Streaming [List.concat deltas] ending) s
    /\ calls_of (decode JSON_parse onChunk onProgress (Streaming deltas ending) s) =
       calls_of (decode JSON_parse onChunk onProgress (Streaming [List.concat deltas] ending) s).
Proof.
  intros; unfold decode, calls_of.
  rewrite streamCopilotChat_concat; split; reflexivity.
Qed.

Lemma fold_left_invariant (A B : Type) (Q : A -> Prop) (step : A -> B -> A) (l : list B) :
  (forall a x, Q a -> Q (step a x)) -> forall a, Q a -> Q (fold_left step l a).
Proof. intros H; induction l as [|x l IH]; intros a Ha; simpl; auto. Qed.

(** *** The decoder with recording callbacks *)

Section RecordedFacts.

Variable S : Type.
Variable JSON_parse : jsstring -> option JSON.
Variable f : jsstring -> bool -> S -> completion S.
Variable g : JSON -> S -> completion S.

Let F := Some (logChunk f).
Let G := Some (logProgress g).

(** A property of the state and of the record of calls that each call
    keeps. *)
Variable I : S * list Call -> Prop.
Hypothesis chunk_keeps :
  forall c d s l, I (s, l) -> I (state_of (f c d s), l ++ [CallChunk c d]).
Hypothesis progress_keeps :
  forall e s l, I (s, l) -> I (state_of (g e s), l ++ [CallProgress e]).

Let kept (i : Inner (S * list Call)) : Prop := I (user i) /\ flags_agree i.

Lemma state_of_record (c : Call) (l : list Call) (r : completion S) :
  state_of (record_call c l r) = (state_of r, l ++ [c]).
Proof. destruct r; reflexivity. Qed.

Lemma chunk_step_kept (evt : JSON) (i : Inner (S * list Call)) :
  kept i -> kept (fst (chunk_step F evt i)).
Proof.
  intros [HI [Hh Hs]]; unfold chunk_step.
  destruct (prop evt (u "chunk")) as [[| | |chunk| |]|]; try (now split).
  set (done := truthy_opt (prop evt (u "done"))).
  unfold call_onChunk, F, logChunk.
  pose proof (state_of_record (CallChunk chunk done) (snd (user i))
                (f chunk done (fst (user i)))) as E.
  assert (K : kept (mkInner true (if done then true else sawDone i)
                      (state_of (record_call (CallChunk chunk done) (snd (user i))
                                   (f chunk done (fst (user i))))))).
  { rewrite E; split; [|split]; cbn [user hadChunks sawDone snd].
    - apply chunk_keeps; now destruct (user i).
    - rewrite existsb_app; simpl; now rewrite orb_true_r.
    - rewrite existsb_app, <- Hs; simpl; destruct done, (sawDone i); reflexivity. }
  destruct (record_call _ _ _); exact K.
Qed.

Lemma try_body_kept (line : jsstring) (i : Inner (S * list Call)) :
  kept i -> kept (fst (try_body JSON_parse F G line i)).
Proof.
  intros K; unfold try_body.
  destruct (JSON_parse _) as [evt|]; [|exact K].
  destruct (truthy evt); [|exact K].
  destruct (is_str _ _); [exact K|].
  unfold G; destruct (truthy_opt (prop evt (u "type"))); [|now apply chunk_step_kept].
  unfold logProgress.
  pose proof (state_of_record (CallProgress evt) (snd (user i)) (g evt (fst (user i)))) as E.
  assert (K' : kept (mkInner (hadChunks i) (sawDone i)
                       (state_of (record_call (CallProgress evt) (snd (user i))
                                    (g evt (fst (user i))))))).
  { destruct K as [HI [Hh Hs]].
    rewrite E; split; [|split]; cbn [user hadChunks sawDone snd].
    - apply progress_keeps; now destruct (user i).
    - rewrite existsb_app; simpl; now rewrite orb_false_r.
    - rewrite existsb_app; simpl; now rewrite orb_false_r. }
  destruct (record_call _ _ _); [now apply chunk_step_kept|exact K'].
Qed.

Lemma process_line_kept (i : Inner (S * list Call)) (line : jsstring) :
  kept i -> kept (process_line JSON_parse F G i line).
Proof.
  intros K; unfold process_line, catch_ignore.
  destruct (startsWith _ _); [now apply try_body_kept|exact K].
Qed.

Lemma process_part_kept (i : Inner (S * list Call)) (part : jsstring) :
  kept i -> kept (process_part JSON_parse F G i part).
Proof. apply fold_left_invariant; intros; now apply process_line_kept. Qed.

Lemma read_loop_kept (reads : list jsstring) (st : jsstring * Inner (S * list Call)) :
  kept (snd st) -> kept (snd (read_loop JSON_parse F G reads st)).
Proof.
  unfold read_loop; revert st.
  apply (fold_left_invariant (fun st => kept (snd st))).
  intros st v K; unfold process_value; cbn [snd].
  revert K; apply fold_left_invariant; intros; now apply process_part_kept.
Qed.

(** What the end of the stream adds to the calls: one last chunk call,
    empty and done, exactly when no call was done before. *)
Lemma finish_calls (i : Inner (S * list Call)) :
  flags_agree i ->
  snd (user (finish F i)) =
  snd (user i) ++
  (if existsb is_done_call (snd (user i)) then [] else [CallChunk [] true]).
Proof.
  intros [Hh Hs]; unfold finish, call_onChunk, F, logChunk.
  rewrite <- Hs; cbn [hadChunks sawDone user].
  assert (D : sawDone i = true -> hadChunks i = true).
  { rewrite Hh, Hs; clear; induction (snd (user i)) as [|[c d|e] l IH]; simpl; auto. }
  destruct (hadChunks i) eqn:H1, (sawDone i) eqn:H2; cbn [andb negb hadChunks sawDone user];
    rewrite ?H1, ?H2; cbn [negb hadChunks user];
    rewrite ?state_of_record; cbn [snd fst]; rewrite ?app_nil_r; try reflexivity.
  discriminate (D eq_refl).
Qed.

Lemma finish_kept (i : Inner (S * list Call)) :
  I (user i) -> I (user (finish F i)).
Proof.
  intros HI; unfold finish.
  assert (A : forall j : Inner (S * list Call), I (user j) ->
            I (state_of (call_onChunk F [] true (user j)))).
  { intros j Hj; unfold call_onChunk, F, logChunk.
    rewrite state_of_record; apply chunk_keeps; now destruct (user j). }
  set (i1 := if hadChunks i && negb (sawDone i) then _ else i).
  assert (H1 : I (user i1)).
  { subst i1; destruct (hadChunks i && negb (sawDone i)); cbn [user]; auto. }
  destruct (negb (hadChunks i1)); cbn [user]; auto.
Qed.

(** The rule of the recorded decoder: what every call keeps holds when
    [streamCopilotChat] ends, however it ends. *)
Lemma decode_kept (resp : Response) (s : S) :
  I (s, []) -> I (fst (decode JSON_parse f g resp s)).
Proof.
  intros H0; unfold decode, streamCopilotChat; fold F G.
  destruct resp as [e|status|reads ending]; [exact H0|exact H0|].
  assert (K : kept (snd (read_loop JSON_parse F G reads (initial (s, []))))).
  { apply read_loop_kept; split; [exact H0|split; reflexivity]. }
  destruct ending; cbn [fst]; [apply finish_kept|]; apply K.
Qed.

End RecordedFacts.

Section StreamEnd.

Variable S : Type.
Variable JSON_parse : jsstring -> option JSON.
Variable f : jsstring -> bool -> S -> completion S.
Variable g : JSON -> S -> completion S.

Lemma loop_flags_agree (reads : list jsstring) (s : S) :
  flags_agree (snd (read_loop JSON_parse (Some (logChunk f)) (Some (logProgress g))
                      reads (initial (s, [])))).
Proof.
  apply (read_loop_kept JSON_parse f g (fun _ => True)); try (intros; exact Logic.I).
  split; [exact Logic.I|split; reflexivity].
Qed.

(** The calls of a stream that ends: those of the read loop, and one
    last chunk call, empty and done, exactly when none was done. *)
Lemma calls_at_end (reads : list jsstring) (s : S) :
  calls_of (decode JSON_parse f g (Streaming reads EndOfStream) s) =
  loop_calls JSON_parse f g reads s ++
  (if existsb is_done_call (loop_calls JSON_parse f g reads s)
   then [] else [CallChunk [] true]).
Proof.
  unfold calls_of, decode, streamCopilotChat, loop_calls; cbn [fst].
  apply finish_calls, loop_flags_agree.
Qed.

Lemma filter_none (A : Type) (p : A -> bool) (l : list A) :
  existsb p l = false -> filter p l = [].
Proof.
  induction l as [|x l IH]; simpl; [reflexivity|].
  destruct (p x); simpl; [discriminate|exact IH].
Qed.

End StreamEnd.

(** *** Recording the calls changes nothing else *)

Section Transparency.

Variable S : Type.
Variable JSON_parse : jsstring -> option JSON.
Variable f : jsstring -> bool -> S -> completion S.
Variable g : JSON -> S -> completion S.

Let F := Some (logChunk f).
Let G := Some (logProgress g).

Let forget (i : Inner (S * list Call)) : Inner S :=
  mkInner (hadChunks i) (sawDone i) (fst (user i)).

Lemma chunk_step_forget (evt : JSON) (i : Inner (S * list Call)) :
  forget (fst (chunk_step F evt i)) = fst (chunk_step (Some f) evt (forget i)).
Proof.
  unfold chunk_step.
  destruct (prop evt (u "chunk")) as [[| | |chunk| |]|]; try reflexivity.
  unfold call_onChunk, F, logChunk, forget; cbn [user hadChunks sawDone].
  destruct (f chunk _ (fst (user i))); reflexivity.
Qed.

Lemma try_body_forget (line : jsstring) (i : Inner (S * list Call)) :
  forget (fst (try_body JSON_parse F G line i)) =
  fst (try_body JSON_parse (Some f) (Some g) line (forget i)).
Proof.
  unfold try_body.
  destruct (JSON_parse _) as [evt|]; [|reflexivity].
  destruct (truthy evt); [|reflexivity].
  destruct (is_str _ _); [reflexivity|].
  unfold G; destruct (truthy_opt (prop evt (u "type"))); [|apply chunk_step_forget].
  unfold logProgress; cbn [forget user hadChunks sawDone].
  change (fst (user i)) with (user (forget i)).
  destruct (g evt (user (forget i))) eqn:E; cbn [record_call]; [|reflexivity].
  apply chunk_step_forget.
Qed.

Lemma fold_left_forget (A B C : Type) (h : A -> B) (step' : A -> C -> A) (step : B -> C -> B)
    (l : list C) :
  (forall a x, h (step' a x) = step (h a) x) ->
  forall a, h (fold_left step' l a) = fold_left step l (h a).
Proof.
  intros H; induction l as [|x l IH]; intros a; simpl; [reflexivity|].
  now rewrite IH, H.
Qed.

Lemma process_part_forget (i : Inner (S * list Call)) (part : jsstring) :
  forget (process_part JSON_parse F G i part) =
  process_part JSON_parse (Some f) (Some g) (forget i) part.
Proof.
  unfold process_part; apply fold_left_forget; intros a line.
  unfold process_line, catch_ignore.
  destruct (startsWith _ _); [apply try_body_forget|reflexivity].
Qed.

Let forget_st (st : jsstring * Inner (S * list Call)) : jsstring * Inner S :=
  (fst st, forget (snd st)).

Lemma read_loop_forget (reads : list jsstring) (st : jsstring * Inner (S * list Call)) :
  forget_st (read_loop JSON_parse F G reads st) =
  read_loop JSON_parse (Some f) (Some g) reads (forget_st st).
Proof.
  unfold read_loop; apply fold_left_forget; intros a v.
  unfold process_value, forget_st; cbn [fst snd]; f_equal.
  apply fold_left_forget; intros; apply process_part_forget.
Qed.

Lemma last_call_forget (h d : bool) (x : S * list Call) :
  forget (mkInner h d (state_of (call_onChunk F [] true x))) =
  mkInner h d (state_of (call_onChunk (Some f) [] true (fst x))).
Proof.
  unfold call_onChunk, F, logChunk, forget; cbn [hadChunks sawDone user].
  destruct (f [] true (fst x)); reflexivity.
Qed.

Lemma finish_forget (i : Inner (S * list Call)) :
  forget (finish F i) = finish (Some f) (forget i).
Proof.
  unfold finish.
  change (hadChunks (forget i)) with (hadChunks i).
  change (sawDone (forget i)) with (sawDone i).
  change (user (forget i)) with (fst (user i)).
  set (i1 := if hadChunks i && negb (sawDone i) then _ else i).
  set (j1 := if hadChunks i && negb (sawDone i) then _ else forget i).
  assert (E : forget i1 = j1).
  { subst i1 j1; destruct (hadChunks i && negb (sawDone i));
      [apply last_call_forget|reflexivity]. }
  rewrite <- E.
  change (hadChunks (forget i1)) with (hadChunks i1).
  change (sawDone (forget i1)) with (sawDone i1).
  change (user (forget i1)) with (fst (user i1)).
  destruct (negb (hadChunks i1)); [apply last_call_forget|reflexivity].
Qed.

(** The decoder with recording callbacks leaves the state and ends the
    way the decoder with the callbacks themselves does. *)
Lemma decode_forget (resp : Response) (s : S) :
  (fst (fst (decode JSON_parse f g resp s)), snd (decode JSON_parse f g resp s)) =
  streamCopilotChat JSON_parse (Some f) (Some g) resp s.
Proof.
  unfold decode, streamCopilotChat; fold F G.
  destruct resp as [e|status|reads ending]; try reflexivity.
  pose proof (read_loop_forget reads (initial (s, []))) as R.
  change (forget_st (initial (s, []))) with (initial s) in R.
  rewrite <- R.
  destruct ending; cbn [fst snd forget_st]; [|reflexivity].
  now rewrite <- finish_forget.
Qed.

(** The rule of the decoder: what every call keeps holds when
    [streamCopilotChat] ends, however it ends. *)
Lemma stream_kept (Q : S -> Prop) (resp : Response) (s : S) :
  (forall c d s, Q s -> Q (state_of (f c d s))) ->
  (forall e s, Q s -> Q (state_of (g e s))) ->
  Q s -> Q (fst (streamCopilotChat JSON_parse (Some f) (Some g) resp s)).
Proof.
  intros Hf Hg H0.
  rewrite <- decode_forget; cbn [fst].
  apply (decode_kept JSON_parse f g (fun x => Q (fst x))); intros; cbn [fst] in *; auto.
Qed.

End Transparency.

(** ** The conversation store *)

Lemma str_eqb_refl (a : jsstring) : str_eqb a a = true.
Proof. induction a as [|x a IH]; simpl; [reflexivity|now rewrite N.eqb_refl]. Qed.

Lemma str_eqb_eq (a b : jsstring) : str_eqb a b = true -> a = b.
Proof.
  revert b; induction a as [|x a IH]; intros [|y b]; simpl; try easy.
  intros H; apply andb_true_iff in H as [E H].
  apply N.eqb_eq in E; subst; f_equal; auto.
Qed.

Lemma findIndex_lt (i : jsstring) (cs : list Conversation) (idx : nat) :
  findIndex i cs = Some idx -> idx < List.length cs.
Proof.
  revert idx; induction cs as [|c cs IH]; intros idx; simpl; [discriminate|].
  destruct (str_eqb (id c) i).
  - intros [= <-]; lia.
  - destruct (findIndex i cs) as [n|]; [|discriminate].
    intros [= <-]; specialize (IH n eq_refl); lia.
Qed.

Lemma splice1_length (idx : nat) (cs : list Conversation) :
  idx < List.length cs -> List.length (splice1 idx cs) = List.length cs - 1.
Proof.
  intros H; unfold splice1.
  rewrite length_app, length_firstn, length_skipn; lia.
Qed.

(** C5. After [deleteConversation(i)] for an id found at index [idx],
    the list is not empty; if the deleted conversation was the active
    one, the active id is that of the conversation of the new list at
    index [min idx (length - 1)]; deleting the only conversation leaves
    exactly one, the fresh default one, which is active; and when others
    remain the list is the old one without the element at [idx]. *)
Theorem delete_leaves_a_conversation :
  forall (genId : jsstring) (now : Z) (defaultAvatar : jsstring)
         (i : jsstring) (st : App) (idx : nat),
    findIndex i (conversations st) = Some idx ->
    let st' := deleteConversation genId now defaultAvatar i st in
    conversations st' <> []
    /\ (activeConversationId st = Some i ->
        exists c,
          nth_error (conversations st')
                    (Nat.min idx (List.length (conversations st') - 1)) = Some c
          /\ activeConversationId st' = Some (id c))
    /\ (List.length (conversations st) = 1 ->
        conversations st' =
          [fresh_conversation genId now defaultAvatar (u "New Conversation")]
        /\ activeConversationId st' = Some genId)
    /\ (1 < List.length (conversations st) ->
        conversations st' = splice1 idx (conversations st)).
Proof.
  intros genId now avatar i st idx H st'.
  pose proof (findIndex_lt _ _ H) as Hlt.
  pose proof (splice1_length _ Hlt) as Hlen.
  subst st'; unfold deleteConversation; rewrite H.
  destruct (splice1 idx (conversations st)) as [|c0 cs'] eqn:E.
  - simpl in Hlen.
    split; [|split; [|split]].
    + discriminate.
    + intros _; exists (fresh_conversation genId now avatar (u "New Conversation")).
      cbn; rewrite Nat.min_0_r; split; reflexivity.
    + intros _; split; reflexivity.
    + lia.
  - assert (Hc : forall b : bool,
              conversations
                (if b
                 then saveConversations
                        (mkApp (c0 :: cs')
                           (Some (id (nth (Nat.min idx (List.length (c0 :: cs') - 1)) (c0 :: cs') c0)))
                           match find_conv (id (nth (Nat.min idx (List.length (c0 :: cs') - 1))
                                                  (c0 :: cs') c0)) (c0 :: cs') with
                           | Some conv => history conv
                           | None => []
                           end (isGenerating st) [] (lastUserMessage st) (storage st) (trace st))
                 else saveConversations
                        (mkApp (c0 :: cs') (activeConversationId st) (chatHistory st)
                           (isGenerating st) (userInput st) (lastUserMessage st)
                           (storage st) (trace st))) = c0 :: cs')
      by (intros []; reflexivity).
    cbv zeta; rewrite Hc.
    split; [|split; [|split]].
    + discriminate.
    + intros Ha; rewrite Ha; cbn [opt_str_eqb]; rewrite str_eqb_refl.
      exists (nth (Nat.min idx (List.length (c0 :: cs') - 1)) (c0 :: cs') c0).
      split; [|reflexivity].
      apply nth_error_nth'; simpl; lia.
    + simpl in Hlen; lia.
    + reflexivity.
Qed.

Lemma delete_leaves_a_conversation_witness :
  findIndex (u "a")
    (conversations
       (mkApp [mkConversation (u "a") (u "New Conversation") (u "avatar.webp") [] 0]
              (Some (u "a")) [] false [] [] (mkStorage None None) [])) = Some 0
  /\ conversations
       (deleteConversation (u "b") 1 (u "avatar.webp") (u "a")
          (mkApp [mkConversation (u "a") (u "New Conversation") (u "avatar.webp") [] 0]
                 (Some (u "a")) [] false [] [] (mkStorage None None) [])) <> [].
Proof.
  split; [reflexivity|].
  apply (delete_leaves_a_conversation (u "b") 1 (u "avatar.webp") (u "a")
           (mkApp [mkConversation (u "a") (u "New Conversation") (u "avatar.webp") [] 0]
                  (Some (u "a")) [] false [] [] (mkStorage None None) []) (idx := 0)).
  reflexivity.
Defined.

(** ** The generation session *)

Lemma find_conv_id (i : jsstring) (cs : list Conversation) (c : Conversation) :
  find_conv i cs = Some c -> id c = i.
Proof.
  induction cs as [|x cs IH]; simpl; [discriminate|].
  destruct (str_eqb (id x) i) eqn:E; [|exact IH].
  intros [= <-]; now apply str_eqb_eq.
Qed.

Lemma find_conv_update_same (i : jsstring) (f : Conversation -> Conversation)
    (cs : list Conversation) :
  (forall c, id (f c) = id c) ->
  find_conv i (update_conv i f cs) = option_map f (find_conv i cs).
Proof.
  intros Hf; induction cs as [|x cs IH]; simpl; [reflexivity|].
  destruct (str_eqb (id x) i) eqn:E; simpl.
  - now rewrite Hf, E.
  - now rewrite E.
Qed.

Lemma find_conv_update_some (i j : jsstring) (f : Conversation -> Conversation)
    (cs : list Conversation) (c : Conversation) :
  (forall c, id (f c) = id c) ->
  find_conv i cs = Some c ->
  exists c', find_conv i (update_conv j f cs) = Some c'.
Proof.
  intros Hf; induction cs as [|x cs IH]; simpl; [discriminate|].
  destruct (str_eqb (id x) j) eqn:Ej; simpl.
  - rewrite Hf; destruct (str_eqb (id x) i); eauto.
  - destruct (str_eqb (id x) i); eauto.
Qed.

Lemma persisted_has_conv (gid : jsstring) (h : list Message) (st : App) :
  persisted gid h st -> has_conv gid st.
Proof. intros [[c [Hc _]] _]; now exists c. Qed.

(** After [persistConversationHistory] the conversation, when it is in
    the list, holds the history, and so does the stored copy. *)
Lemma persist_persisted (gid : jsstring) (h : list Message) (st : App) :
  has_conv gid st -> persisted gid h (persistConversationHistory (Some gid) h st).
Proof.
  intros [c Hc]; unfold persistConversationHistory; rewrite Hc.
  split; [|reflexivity].
  exists (set_history h c); cbn [conversations saveConversations with_conversations].
  now rewrite find_conv_update_same, Hc by reflexivity.
Qed.

Lemma set_entry_last (base : list Message) (entry : Message) (f : Message -> Message) :
  Send.set_entry (List.length base) f (base ++ [entry]) = base ++ [f entry].
Proof. induction base as [|m base IH]; simpl; [reflexivity|now rewrite IH]. Qed.

Lemma nth_error_last (base : list Message) (entry : Message) :
  nth_error (base ++ [entry]) (List.length base) = Some entry.
Proof. induction base as [|m base IH]; simpl; [reflexivity|exact IH]. Qed.

Section SessionFacts.

Variable P : Type.
Variable progress_card : JSON -> P -> completion P.
Variable JSON_parse : jsstring -> option JSON.
Variable now : Z.
Variable gid : jsstring.
Variable base : list Message.

Lemma persist_entry_at (f : Message -> Message) (entry : Message) (s : Session P) :
  session_at gid base entry s ->
  session_at gid base (f entry) (Send.persist_entry f s).
Proof.
  intros (Hg & Hi & Hh & Hp); unfold Send.persist_entry, session_at.
  cbn [generatingConvId assistantPendingIndex generatingHistory app].
  rewrite Hi, Hh, Hg, set_entry_last.
  repeat split; try reflexivity.
  - destruct (persist_persisted (base ++ [f entry]) (persisted_has_conv Hp)) as [H _]; exact H.
  - destruct (persist_persisted (base ++ [f entry]) (persisted_has_conv Hp)) as [_ H]; exact H.
Qed.

Lemma finalize_entry_at (c : jsstring) (entry : Message) (s : Session P) :
  session_at gid base entry s ->
  session_at gid base (Send.write_final c entry) (Send.finalize_entry c s).
Proof.
  intros H; unfold Send.finalize_entry.
  destruct H as (Hg & Hi & Hh & Hp).
  rewrite Hi, Hh, nth_error_last.
  apply persist_entry_at; repeat split; assumption || apply Hp.
Qed.

(** The same session with other values of the variables that are not
    persisted. *)
Lemma session_at_ext (entry : Message) (s s' : Session P) :
  generatingConvId s' = generatingConvId s ->
  assistantPendingIndex s' = assistantPendingIndex s ->
  generatingHistory s' = generatingHistory s ->
  conversations (app s') = conversations (app s) ->
  storage (app s') = storage (app s) ->
  session_at gid base entry s -> session_at gid base entry s'.
Proof.
  intros E1 E2 E3 E4 E5 (Hg & Hi & Hh & Hp).
  unfold session_at, persisted; rewrite E1, E2, E3, E4, E5.
  repeat split; assumption || apply Hp.
Qed.

(** What a chunk call does to a session: the text grows and the entry
    holds it, pending unless the chunk is the last. *)
Lemma onChunk_at (chunk : jsstring) (done : bool) (entry : Message) (s : Session P) :
  session_at gid base entry s ->
  let s' := state_of (Send.onChunk chunk done s) in
  streamedContent s' = streamedContent s ++ chunk
  /\ session_at gid base
       (if done
        then Send.write_final (streamedContent s ++ chunk)
               (Send.write_pending (streamedContent s ++ chunk) (negb done) entry)
        else Send.write_pending (streamedContent s ++ chunk) (negb done) entry) s'.
Proof.
  intros H s'; subst s'; unfold Send.onChunk.
  set (streamed := streamedContent s ++ chunk).
  set (s1 := mkSession (app s) _ _ _ streamed _ _).
  assert (H1 : session_at gid base entry s1)
    by (apply (session_at_ext (s := s)); auto).
  pose proof (persist_entry_at (Send.write_pending streamed (negb done)) H1) as H2.
  destruct done; cbn [state_of]; [|split; [reflexivity|exact H2]].
  set (s3 := mkSession _ _ _ _ streamed (mkDiv false (InnerHtml _)) _).
  assert (H3 : session_at gid base (Send.write_pending streamed (negb true) entry) s3)
    by (apply (session_at_ext (s := Send.persist_entry (Send.write_pending streamed (negb true)) s1));
        auto).
  pose proof (finalize_entry_at streamed H3) as H4.
  split.
  - unfold Send.with_app, Send.finalize_entry; cbn [streamedContent].
    destruct (nth_error _ _); reflexivity.
  - revert H4; apply session_at_ext; reflexivity.
Qed.

Lemma onProgress_at (evt : JSON) (entry : Message) (s : Session P) :
  session_at gid base entry s ->
  let s' := state_of (Send.onProgress progress_card evt s) in
  streamedContent s' = streamedContent s /\ session_at gid base entry s'.
Proof.
  intros H s'; subst s'; unfold Send.onProgress.
  destruct (progress_card evt (progress s)); cbn [state_of]; (split; [reflexivity|]);
    revert H; apply session_at_ext; reflexivity.
Qed.

End SessionFacts.

Lemma has_conv_ext (gid : jsstring) (st st' : App) :
  conversations st' = conversations st -> has_conv gid st -> has_conv gid st'.
Proof. unfold has_conv; now intros ->. Qed.

Lemma has_conv_update (gid j : jsstring) (f : Conversation -> Conversation) (st : App) :
  (forall c, id (f c) = id c) ->
  has_conv gid st ->
  has_conv gid (saveConversations (with_conversations (update_conv j f (conversations st)) st)).
Proof.
  intros Hf [c Hc]; unfold has_conv; cbn [conversations saveConversations with_conversations].
  exact (find_conv_update_some gid j f _ Hf Hc).
Qed.

Lemma has_conv_rename (gid message : jsstring) (st : App) :
  has_conv gid st -> has_conv gid (Send.rename_default message st).
Proof.
  intros H; unfold Send.rename_default.
  destruct (getActiveConv st) as [conv|]; [|exact H].
  destruct (Send.isDefault (title conv)); [|exact H].
  destruct (Send.title_of message); [exact H|].
  now apply has_conv_update.
Qed.

Section PrologueFacts.

Variable P : Type.
Variable now : Z.

Lemma has_conv_addUser (gid message : jsstring) (st : App) :
  has_conv gid st -> has_conv gid (Send.addUserMessageToChat now message st).
Proof.
  intros H; unfold Send.addUserMessageToChat.
  destruct (getActiveConv _) as [conv|].
  - apply has_conv_update; [reflexivity|exact H].
  - exact H.
Qed.

(** The session as [sendMessage] has set it up when the request starts:
    the history of the conversation is the old one, the user message and
    the pending entry, and it is persisted. *)
Lemma prologue_at (p0 : P) (message gid : jsstring) (conv0 : Conversation) (st : App) :
  activeConversationId st = Some gid ->
  find_conv gid (conversations st) = Some conv0 ->
  session_at gid (history conv0 ++ [mkMessage User message None now None])
             (placeholder now) (Send.prologue now p0 message st)
  /\ streamedContent (Send.prologue now p0 message st) = [].
Proof.
  intros Ha Hc; split; [|reflexivity].
  unfold Send.prologue; cbv zeta.
  change (activeConversationId (Send.set_generating true st)) with (activeConversationId st).
  change (conversations (Send.set_generating true st)) with (conversations st).
  rewrite Ha, Hc.
  unfold session_at; cbn [generatingConvId assistantPendingIndex generatingHistory app].
  repeat split; try reflexivity.
  - apply persist_persisted.
    apply (has_conv_ext (st := persistConversationHistory (Some gid)
                                 (history conv0 ++ [mkMessage User message None now None])
                                 (Send.addUserMessageToChat now message
                                    (Send.set_lastUserMessage message
                                       (Send.rename_default message
                                          (Send.set_generating true st)))))); [reflexivity|].
    apply (persisted_has_conv (h := history conv0 ++ [mkMessage User message None now None])).
    apply persist_persisted, has_conv_addUser.
    apply (has_conv_ext (st := Send.rename_default message (Send.set_generating true st)));
      [reflexivity|].
    apply has_conv_rename; now exists conv0.
  - apply persist_persisted.
    apply (has_conv_ext (st := persistConversationHistory (Some gid)
                                 (history conv0 ++ [mkMessage User message None now None])
                                 (Send.addUserMessageToChat now message
                                    (Send.set_lastUserMessage message
                                       (Send.rename_default message
                                          (Send.set_generating true st)))))); [reflexivity|].
    apply (persisted_has_conv (h := history conv0 ++ [mkMessage User message None now None])).
    apply persist_persisted, has_conv_addUser.
    apply (has_conv_ext (st := Send.rename_default message (Send.set_generating true st)));
      [reflexivity|].
    apply has_conv_rename; now exists conv0.
Qed.

End PrologueFacts.

Lemma entry_meta_write_pending (now : Z) (c : jsstring) (p : bool) (m : Message) :
  entry_meta now m -> entry_meta now (Send.write_pending c p m).
Proof. intros H; exact H. Qed.

Lemma entry_meta_write_final (now : Z) (c : jsstring) (m : Message) :
  entry_meta now m -> entry_meta now (Send.write_final c m).
Proof. intros H; exact H. Qed.

Lemma write_final_meta (now : Z) (c : jsstring) (m : Message) :
  entry_meta now m -> Send.write_final c m = mkMessage Assistant c None now None.
Proof. intros (H1 & H2 & H3); unfold Send.write_final; now rewrite H1, H2, H3. Qed.

Lemma set_entry_length (n : nat) (f : Message -> Message) (h : list Message) :
  List.length (Send.set_entry n f h) = List.length h.
Proof.
  revert n; induction h as [|m h IH]; intros [|n]; simpl; try reflexivity.
  now rewrite IH.
Qed.

(** The pending entry is in the history all along the stream. *)
Lemma pending_index_in_range (P : Type) (progress_card : JSON -> P -> completion P)
    (JSON_parse : jsstring -> option JSON) (now : Z) (p0 : P)
    (message : jsstring) (resp : Response) (st : App) :
  let s := fst (Send.run_stream progress_card JSON_parse message resp
                  (Send.prologue now p0 message st)) in
  assistantPendingIndex s < List.length (generatingHistory s).
Proof.
  unfold Send.run_stream.
  apply (stream_kept JSON_parse (@Send.onChunk P) (Send.onProgress progress_card)
           (fun s => assistantPendingIndex s < List.length (generatingHistory s))).
  - intros c d s H; unfold Send.onChunk.
    assert (K : forall (f : Message -> Message) (x : Session P),
              assistantPendingIndex x < List.length (generatingHistory x) ->
              assistantPendingIndex (Send.persist_entry f x)
              < List.length (generatingHistory (Send.persist_entry f x))).
    { intros f x Hx; unfold Send.persist_entry.
      cbn [assistantPendingIndex generatingHistory]; now rewrite set_entry_length. }
    set (s1 := mkSession (app s) _ _ _ (streamedContent s ++ c) _ _).
    pose proof (K (Send.write_pending (streamedContent s ++ c) (negb d)) s1 H) as H2.
    destruct d; cbn [state_of]; [|exact H2].
    set (s3 := mkSession _ _ _ _ (streamedContent s ++ c) (mkDiv false (InnerHtml _)) _).
    assert (H3 : assistantPendingIndex s3 < List.length (generatingHistory s3)) by exact H2.
    unfold Send.with_app; cbn [assistantPendingIndex generatingHistory].
    unfold Send.finalize_entry; destruct (nth_error _ _); [now apply K|exact H3].
  - intros e s H; unfold Send.onProgress.
    destruct (progress_card e (progress s)); exact H.
  - unfold Send.prologue; cbv zeta; cbn [assistantPendingIndex generatingHistory Send.with_app].
    rewrite !length_app; simpl; lia.
Qed.

(** A call that sends: it goes through the prologue and the stream, and
    through the [catch] block when the stream rejects. *)
Lemma sendMessage_session_sent (P : Type) (progress_card : JSON -> P -> completion P)
    (JSON_parse : jsstring -> option JSON) (now : Z) (p0 : P) (resp : Response) (st : App) :
  isGenerating st = false ->
  Render.trim (userInput st) <> [] ->
  Send.sendMessage_session progress_card JSON_parse now p0 resp st =
  Some (let r := Send.run_stream progress_card JSON_parse (Render.trim (userInput st)) resp
                   (Send.prologue now p0 (Render.trim (userInput st)) st) in
        match snd r with
        | Some e => Send.catch_path e (fst r)
        | None => fst r
        end).
Proof.
  intros Hg Hm; unfold Send.sendMessage_session; rewrite Hg.
  destruct (Render.trim (userInput st)) as [|c0 t0]; [contradiction|].
  cbv zeta; destruct (snd _); reflexivity.
Qed.

Section StreamFacts.

Variable P : Type.
Variable progress_card : JSON -> P -> completion P.
Variable JSON_parse : jsstring -> option JSON.
Variable now : Z.
Variable gid : jsstring.
Variable base : list Message.

Let tracked (s : Session P) : Prop :=
  exists entry, session_at gid base entry s /\ entry_meta now entry.

Lemma onChunk_tracked (chunk : jsstring) (done : bool) (s : Session P) :
  tracked s -> tracked (state_of (Send.onChunk chunk done s)).
Proof.
  intros [entry [H M]].
  destruct (onChunk_at chunk done H) as [_ H'].
  eexists; split; [exact H'|].
  destruct done; [apply entry_meta_write_final|]; apply entry_meta_write_pending, M.
Qed.

Lemma onProgress_tracked (evt : JSON) (s : Session P) :
  tracked s -> tracked (state_of (Send.onProgress progress_card evt s)).
Proof.
  intros [entry [H M]].
  destruct (onProgress_at progress_card evt H) as [_ H'].
  exists entry; split; assumption.
Qed.

Lemma request_at (message : jsstring) (entry : Message) (s : Session P) :
  session_at gid base entry s ->
  session_at gid base entry (Send.with_app (Send.record_request message (app s)) s).
Proof. apply session_at_ext; reflexivity. Qed.

(** Whatever the network does, the session stays one of the
    conversation, with its history persisted. *)
Lemma run_stream_tracked (message : jsstring) (resp : Response) (s : Session P) :
  tracked s ->
  tracked (fst (Send.run_stream progress_card JSON_parse message resp s)).
Proof.
  intros [entry [H M]]; unfold Send.run_stream.
  apply (stream_kept JSON_parse (@Send.onChunk P) (Send.onProgress progress_card) tracked).
  - intros; now apply onChunk_tracked.
  - intros; now apply onProgress_tracked.
  - exists entry; split; [now apply request_at|exact M].
Qed.

(** Before the first chunk call the entry is the one the session started
    with and no text is accumulated. *)
Lemma decode_untouched (message : jsstring) (resp : Response) (s : Session P) :
  session_at gid base (placeholder now) s ->
  streamedContent s = [] ->
  let r := decode JSON_parse (@Send.onChunk P) (Send.onProgress progress_card) resp
             (Send.with_app (Send.record_request message (app s)) s) in
  existsb is_chunk_call (calls_of r) = false ->
  session_at gid base (placeholder now) (fst (fst r)) /\ streamedContent (fst (fst r)) = [].
Proof.
  intros H E r; subst r; unfold calls_of.
  apply (decode_kept JSON_parse (@Send.onChunk P) (Send.onProgress progress_card)
           (fun x => existsb is_chunk_call (snd x) = false ->
                     session_at gid base (placeholder now) (fst x) /\ streamedContent (fst x) = [])).
  - intros c d s' l _; cbn [snd]; rewrite existsb_app; simpl.
    rewrite orb_true_r; discriminate.
  - intros e s' l IH; cbn [snd fst] in *; rewrite existsb_app; simpl.
    rewrite orb_false_r; intros Hl; destruct (IH Hl) as [H1 H2].
    destruct (onProgress_at progress_card e H1) as [E' H'].
    split; [exact H'|now rewrite E'].
  - intros _; cbn [fst]; split; [now apply request_at|exact E].
Qed.

(** The [catch] block when some text was accumulated: the entry gets the
    final text and is no longer pending. *)
Lemma catch_path_at (e : Error) (entry : Message) (s : Session P) :
  session_at gid base entry s ->
  streamedContent s <> [] ->
  session_at gid base (Send.write_final (Send.finalContent e (streamedContent s)) entry)
             (Send.catch_path e s)
  /\ isGenerating (app (Send.catch_path e s)) = false.
Proof.
  intros H N; unfold Send.catch_path.
  destruct (streamedContent s) as [|c t] eqn:E; [contradiction|].
  split; [|reflexivity].
  set (s1 := mkSession (app s) _ _ _ _ (mkDiv false _) _).
  assert (H1 : session_at gid base entry s1) by (revert H; apply session_at_ext; reflexivity).
  pose proof (finalize_entry_at (Send.finalContent e (c :: t)) H1) as H2.
  revert H2; apply session_at_ext; reflexivity.
Qed.

(** The [catch] block when no text was accumulated: the entry is left as
    it is. *)
Lemma catch_path_empty (e : Error) (entry : Message) (s : Session P) :
  session_at gid base entry s ->
  streamedContent s = [] ->
  session_at gid base entry (Send.catch_path e s)
  /\ isGenerating (app (Send.catch_path e s)) = false.
Proof.
  intros H E; unfold Send.catch_path; rewrite E.
  split; [|reflexivity].
  revert H; apply session_at_ext; reflexivity.
Qed.

End StreamFacts.

(** C2. Cancelling after exactly the text [Hello wor] has been
    accumulated: the session ends with the history of the owning
    conversation equal to the old history, the user message, and the
    assistant message [Hello wor], two line feeds, [[Generation stopped]]
    with no pending flag, in the list and in its stored copy, and
    [isGenerating] is false. *)
Theorem cancel_after_partial_text :
  forall (P : Type) (progress_card : JSON -> P -> completion P)
         (JSON_parse : jsstring -> option JSON) (now : Z) (p0 : P)
         (reads : list jsstring) (e : Error) (st : App)
         (gid : jsstring) (conv0 : Conversation),
    isGenerating st = false ->
    activeConversationId st = Some gid ->
    find_conv gid (conversations st) = Some conv0 ->
    Render.trim (userInput st) <> [] ->
    Send.wasAborted e = true ->
    streamedContent
      (fst (Send.run_stream progress_card JSON_parse (Render.trim (userInput st))
              (Streaming reads (ReadRejected e))
              (Send.prologue now p0 (Render.trim (userInput st)) st))) = u "Hello wor" ->
    exists s' conv,
      Send.sendMessage_session progress_card JSON_parse now p0
        (Streaming reads (ReadRejected e)) st = Some s'
      /\ find_conv gid (conversations (app s')) = Some conv
      /\ history conv =
           history conv0 ++
           [mkMessage User (Render.trim (userInput st)) None now None;
            mkMessage Assistant (u "Hello wor" ++ nl ++ nl ++ u "[Generation stopped]")
                      None now None]
      /\ stored_conversations (storage (app s')) = Some (conversations (app s'))
      /\ isGenerating (app s') = false.
Proof.
  intros P card parse now p0 reads e st gid conv0 Hg Ha Hc Hm Hab Hs.
  rewrite sendMessage_session_sent by assumption; cbv zeta.
  set (message := Render.trim (userInput st)) in *.
  set (s0 := Send.prologue now p0 message st) in *.
  destruct (prologue_at now p0 message st Ha Hc) as [H0 _]; fold s0 in H0.
  set (base := history conv0 ++ [mkMessage User message None now None]) in *.
  set (r := Send.run_stream card parse message (Streaming reads (ReadRejected e)) s0) in *.
  change (snd r) with (Some e).
  destruct (run_stream_tracked card parse message (Streaming reads (ReadRejected e))
              (gid := gid) (base := base) (now := now) (s := s0))
    as [entry [H1 M1]].
  { exists (placeholder now); split; [exact H0|repeat split]. }
  fold r in H1.
  assert (N : streamedContent (fst r) <> []) by (rewrite Hs; discriminate).
  destruct (catch_path_at e H1 N) as [H2 G2].
  rewrite Hs in H2.
  unfold Send.finalContent in H2; rewrite Hab in H2.
  rewrite (write_final_meta _ M1) in H2.
  destruct H2 as (_ & _ & _ & [[conv [Hf Hh]] Hst]).
  exists (Send.catch_path e (fst r)), conv.
  repeat split; try assumption.
  rewrite Hh; unfold base; rewrite <- app_assoc; reflexivity.
Qed.

(** C10. A session that ends in a rejection (cancellation or failure)
    before any chunk call: the entry pushed at the start is left as it
    was, with the content [Generating...] and the pending flag set, as
    the last message of the history of the owning conversation, in the
    list and in its stored copy; [isGenerating] is false. *)
Theorem pending_entry_left_when_nothing_streamed :
  forall (P : Type) (progress_card : JSON -> P -> completion P)
         (JSON_parse : jsstring -> option JSON) (now : Z) (p0 : P)
         (resp : Response) (e : Error) (st : App)
         (gid : jsstring) (conv0 : Conversation),
    isGenerating st = false ->
    activeConversationId st = Some gid ->
    find_conv gid (conversations st) = Some conv0 ->
    Render.trim (userInput st) <> [] ->
    snd (Send.run_stream progress_card JSON_parse (Render.trim (userInput st)) resp
           (Send.prologue now p0 (Render.trim (userInput st)) st)) = Some e ->
    existsb is_chunk_call (session_calls progress_card JSON_parse now p0 resp st) = false ->
    exists s' conv,
      Send.sendMessage_session progress_card JSON_parse now p0 resp st = Some s'
      /\ find_conv gid (conversations (app s')) = Some conv
      /\ history conv =
           history conv0 ++
           [mkMessage User (Render.trim (userInput st)) None now None;
            mkMessage Assistant (u "Generating...") None now (Some true)]
      /\ stored_conversations (storage (app s')) = Some (conversations (app s'))
      /\ isGenerating (app s') = false.
Proof.
  intros P card parse now p0 resp e st gid conv0 Hg Ha Hc Hm He Hn.
  rewrite sendMessage_session_sent by assumption; cbv zeta.
  unfold session_calls in Hn; cbv zeta in Hn.
  set (message := Render.trim (userInput st)) in *.
  set (s0 := Send.prologue now p0 message st) in *.
  destruct (prologue_at now p0 message st Ha Hc) as [H0 E0]; fold s0 in H0, E0.
  set (base := history conv0 ++ [mkMessage User message None now None]) in *.
  destruct (decode_untouched card parse message resp H0 E0 Hn) as [H1 E1].
  pose proof (decode_forget parse (@Send.onChunk P) (Send.onProgress card) resp
                (Send.with_app (Send.record_request message (app s0)) s0)) as T.
  fold (Send.run_stream card parse message resp s0) in T.
  set (r := Send.run_stream card parse message resp s0) in *.
  assert (T1 : fst r = fst (fst (decode parse (@Send.onChunk P) (Send.onProgress card) resp
                                   (Send.with_app (Send.record_request message (app s0)) s0))))
    by (rewrite <- T; reflexivity).
  rewrite He.
  rewrite <- T1 in H1, E1.
  destruct (catch_path_empty e H1 E1) as [H2 G2].
  destruct H2 as (_ & _ & _ & [[conv [Hf Hh]] Hst]).
  exists (Send.catch_path e (fst r)), conv.
  repeat split; try assumption.
  rewrite Hh; unfold base; rewrite <- app_assoc; reflexivity.
Qed.

Lemma cancel_after_partial_text_witness :
  exists s' conv,
    Send.sendMessage_session Examples.no_card Json.parse_json 1 tt
      (Streaming Examples.hello_reads (ReadRejected Examples.abort_error)) Examples.app0 = Some s'
    /\ find_conv (u "a1b2c3d4") (conversations (app s')) = Some conv
    /\ history conv =
         history Examples.conv_a ++
         [mkMessage User (Render.trim (userInput Examples.app0)) None 1 None;
          mkMessage Assistant (u "Hello wor" ++ nl ++ nl ++ u "[Generation stopped]")
                    None 1 None]
    /\ stored_conversations (storage (app s')) = Some (conversations (app s'))
    /\ isGenerating (app s') = false.
Proof.
  apply (cancel_after_partial_text Examples.no_card Json.parse_json 1 tt
           Examples.hello_reads Examples.abort_error Examples.app0
           (gid := u "a1b2c3d4") (conv0 := Examples.conv_a)).
  - reflexivity.
  - reflexivity.
  - reflexivity.
  - vm_compute; discriminate.
  - vm_compute; reflexivity.
  - vm_compute; reflexivity.
Defined.

Lemma pending_entry_left_when_nothing_streamed_witness :
  exists s' conv,
    Send.sendMessage_session Examples.no_card Json.parse_json 1 tt
      (FetchRejected Examples.network_error) Examples.app0 = Some s'
    /\ find_conv (u "a1b2c3d4") (conversations (app s')) = Some conv
    /\ history conv =
         history Examples.conv_a ++
         [mkMessage User (Render.trim (userInput Examples.app0)) None 1 None;
          mkMessage Assistant (u "Generating...") None 1 (Some true)]
    /\ stored_conversations (storage (app s')) = Some (conversations (app s'))
    /\ isGenerating (app s') = false.
Proof.
  apply (pending_entry_left_when_nothing_streamed Examples.no_card Json.parse_json 1 tt
           (FetchRejected Examples.network_error) (e := Examples.network_error)
           Examples.app0 (gid := u "a1b2c3d4") (conv0 := Examples.conv_a)).
  - reflexivity.
  - reflexivity.
  - reflexivity.
  - vm_compute; discriminate.
  - vm_compute; reflexivity.
  - vm_compute; reflexivity.
Defined.

(** *** The order of the effects of [sendMessage] *)

Lemma skipn_length_app (A : Type) (l l' : list A) : skipn (List.length l) (l ++ l') = l'.
Proof. induction l as [|x l IH]; simpl; [reflexivity|exact IH]. Qed.

Lemma persist_trace_found (gid : jsstring) (h : list Message) (st : App) :
  has_conv gid st ->
  exists snap, trace (persistConversationHistory (Some gid) h st) = trace st ++ [Saved snap].
Proof.
  intros [c Hc]; unfold persistConversationHistory; rewrite Hc.
  eexists; reflexivity.
Qed.

Lemma rename_active (message : jsstring) (st : App) :
  activeConversationId (Send.rename_default message st) = activeConversationId st.
Proof.
  unfold Send.rename_default.
  destruct (getActiveConv st) as [conv|]; [|reflexivity].
  destruct (Send.isDefault (title conv)); [|reflexivity].
  destruct (Send.title_of message); reflexivity.
Qed.

Lemma rename_trace (message : jsstring) (st : App) :
  exists R, trace (Send.rename_default message st) = trace st ++ R
            /\ (R = [] \/ exists r, R = [Saved r]).
Proof.
  unfold Send.rename_default.
  destruct (getActiveConv st) as [conv|];
    [|exists []; rewrite app_nil_r; auto].
  destruct (Send.isDefault (title conv));
    [|exists []; rewrite app_nil_r; auto].
  destruct (Send.title_of message);
    [exists []; rewrite app_nil_r; auto|].
  eexists; split; [reflexivity|right; eexists; reflexivity].
Qed.

Section EffectFacts.

Variable P : Type.
Variable progress_card : JSON -> P -> completion P.
Variable JSON_parse : jsstring -> option JSON.
Variable now : Z.

(** [addMessageToChat] saves the list with the user message at the end
    of the history of the active conversation. *)
Lemma addUser_saves (gid message : jsstring) (st : App) :
  activeConversationId st = Some gid ->
  has_conv gid st ->
  exists snap,
    trace (Send.addUserMessageToChat now message st) = trace st ++ [Saved snap]
    /\ saves_user_message gid message (Saved snap) = true.
Proof.
  intros Ha [c Hc]; unfold Send.addUserMessageToChat, getActiveConv.
  cbn [activeConversationId conversations]; rewrite Ha, Hc.
  eexists; split; [reflexivity|].
  unfold saves_user_message; cbn [conversations with_conversations].
  rewrite (find_conv_id _ _ Hc), find_conv_update_same, Hc by reflexivity.
  cbn [option_map set_history history]; rewrite rev_unit.
  unfold is_user_message; cbn [role content]; apply str_eqb_refl.
Qed.

(** The variables of the script when the request starts. *)
Lemma prologue_app (p0 : P) (message gid : jsstring) (conv0 : Conversation) (st : App) :
  activeConversationId st = Some gid ->
  find_conv gid (conversations st) = Some conv0 ->
  app (Send.prologue now p0 message st) =
  persistConversationHistory (Some gid)
    ((history conv0 ++ [mkMessage User message None now None]) ++ [placeholder now])
    (Send.clear_input
       (persistConversationHistory (Some gid)
          (history conv0 ++ [mkMessage User message None now None])
          (Send.addUserMessageToChat now message
             (Send.set_lastUserMessage message
                (Send.rename_default message (Send.set_generating true st)))))).
Proof.
  intros Ha Hc; unfold Send.prologue; cbv zeta; cbn [app].
  change (activeConversationId (Send.set_generating true st)) with (activeConversationId st).
  change (conversations (Send.set_generating true st)) with (conversations st).
  rewrite Ha, Hc; reflexivity.
Qed.

(** The effects up to the request: the flag is set, the title may be
    saved, then the list is saved three times, first of all with the
    user message. *)
Lemma prologue_trace (p0 : P) (message gid : jsstring) (conv0 : Conversation) (st : App) :
  activeConversationId st = Some gid ->
  find_conv gid (conversations st) = Some conv0 ->
  exists R a b c,
    trace (app (Send.prologue now p0 message st)) =
      trace st ++ SetGenerating true :: R ++ [Saved a; Saved b; Saved c]
    /\ (R = [] \/ exists r, R = [Saved r])
    /\ saves_user_message gid message (Saved a) = true.
Proof.
  intros Ha Hc; rewrite (prologue_app p0 message st Ha Hc).
  set (st1 := Send.set_generating true st).
  assert (H1 : has_conv gid st1) by (now exists conv0).
  destruct (rename_trace message st1) as [R [TR HR]].
  pose proof (has_conv_rename message H1) as H2.
  set (st2 := Send.set_lastUserMessage message (Send.rename_default message st1)) in *.
  assert (A2 : activeConversationId st2 = Some gid)
    by (unfold st2; cbn [activeConversationId Send.set_lastUserMessage];
        rewrite rename_active; exact Ha).
  assert (H2' : has_conv gid st2) by exact H2.
  destruct (addUser_saves message A2 H2') as [a [Ta Sa]].
  pose proof (has_conv_addUser now message H2') as H3.
  set (st3 := Send.addUserMessageToChat now message st2) in *.
  set (gh1 := history conv0 ++ [mkMessage User message None now None]).
  destruct (persist_trace_found gh1 H3) as [b Tb].
  pose proof (persisted_has_conv (persist_persisted gh1 H3)) as H4.
  set (st4 := Send.clear_input (persistConversationHistory (Some gid) gh1 st3)) in *.
  assert (H4' : has_conv gid st4) by exact H4.
  destruct (persist_trace_found (gh1 ++ [placeholder now]) H4') as [c Tc].
  exists R, a, b, c; split; [|split; assumption].
  rewrite Tc.
  change (trace st4) with (trace (persistConversationHistory (Some gid) gh1 st3)).
  rewrite Tb, Ta.
  change (trace st2) with (trace (Send.rename_default message st1)).
  rewrite TR.
  change (trace st1) with (trace st ++ [SetGenerating true]).
  rewrite <- !app_assoc; reflexivity.
Qed.

Let grows (t : list Effect) (st : App) : Prop := exists r, trace st = t ++ r.

Lemma grows_more (t : list Effect) (st st' : App) (r : list Effect) :
  trace st' = trace st ++ r -> grows t st -> grows t st'.
Proof. intros E [r0 H]; exists (r0 ++ r); now rewrite E, H, app_assoc. Qed.

Lemma grows_persist (t : list Effect) (i : option jsstring) (h : list Message) (st : App) :
  grows t st -> grows t (persistConversationHistory i h st).
Proof.
  unfold persistConversationHistory.
  destruct i as [i|]; [|auto].
  destruct (find_conv i (conversations st)); [|auto].
  apply grows_more with (r := [Saved (update_conv i (set_history h) (conversations st))]).
  reflexivity.
Qed.

Lemma grows_set_generating (t : list Effect) (b : bool) (st : App) :
  grows t st -> grows t (Send.set_generating b st).
Proof. apply grows_more with (r := [SetGenerating b]); reflexivity. Qed.

Lemma grows_persist_entry (t : list Effect) (f : Message -> Message) (s : Session P) :
  grows t (app s) -> grows t (app (Send.persist_entry f s)).
Proof. unfold Send.persist_entry; cbn [app]; apply grows_persist. Qed.

Lemma grows_finalize_entry (t : list Effect) (c : jsstring) (s : Session P) :
  grows t (app s) -> grows t (app (Send.finalize_entry c s)).
Proof.
  unfold Send.finalize_entry; destruct (nth_error _ _); [apply grows_persist_entry|auto].
Qed.

Lemma grows_onChunk (t : list Effect) (chunk : jsstring) (done : bool) (s : Session P) :
  grows t (app s) -> grows t (app (state_of (Send.onChunk chunk done s))).
Proof.
  intros H; unfold Send.onChunk.
  set (s1 := mkSession (app s) _ _ _ (streamedContent s ++ chunk) _ _).
  assert (H2 : grows t (app (Send.persist_entry
                              (Send.write_pending (streamedContent s ++ chunk) (negb done)) s1)))
    by (apply grows_persist_entry; exact H).
  destruct done; cbn [state_of]; [|exact H2].
  unfold Send.with_app; cbn [app].
  apply grows_set_generating, grows_finalize_entry; exact H2.
Qed.

Lemma grows_onProgress (t : list Effect) (evt : JSON) (s : Session P) :
  grows t (app s) -> grows t (app (state_of (Send.onProgress progress_card evt s))).
Proof.
  intros H; unfold Send.onProgress; destruct (progress_card evt (progress s)); exact H.
Qed.

Lemma grows_catch_path (t : list Effect) (e : Error) (s : Session P) :
  grows t (app s) -> grows t (app (Send.catch_path e s)).
Proof.
  intros H; unfold Send.catch_path, Send.with_app; cbn [app].
  apply grows_set_generating.
  destruct (streamedContent s); [exact H|].
  apply grows_finalize_entry; exact H.
Qed.

(** The effects of a call that sends a message: the flag, the saves of
    the prologue, the request, and what follows. *)
Lemma sendMessage_effects (p0 : P) (resp : Response) (gid : jsstring)
    (conv0 : Conversation) (st : App) :
  isGenerating st = false ->
  activeConversationId st = Some gid ->
  find_conv gid (conversations st) = Some conv0 ->
  Render.trim (userInput st) <> [] ->
  exists R a b c m rest,
    new_effects st (Send.sendMessage progress_card JSON_parse now p0 resp st) =
      SetGenerating true :: R ++ [Saved a; Saved b; Saved c; Requested m] ++ rest
    /\ (R = [] \/ exists r, R = [Saved r])
    /\ saves_user_message gid (Render.trim (userInput st)) (Saved a) = true.
Proof.
  intros Hg Ha Hc Hm.
  unfold Send.sendMessage; rewrite sendMessage_session_sent by assumption; cbv zeta.
  set (message := Render.trim (userInput st)) in *.
  destruct (prologue_trace p0 message st Ha Hc) as (R & a & b & c & T & HR & Sa).
  set (s0 := Send.prologue now p0 message st) in *.
  set (m := Send.request_messages message (app s0)).
  set (T0 := trace st ++ SetGenerating true :: R ++ [Saved a; Saved b; Saved c; Requested m]).
  set (r := Send.run_stream progress_card JSON_parse message resp s0).
  assert (G0 : grows T0 (app (Send.with_app (Send.record_request message (app s0)) s0))).
  { exists []; cbn [app Send.with_app Send.record_request trace].
    rewrite T; unfold T0; fold m.
    rewrite app_nil_r, <- !app_assoc; cbn [List.app].
    rewrite <- !app_assoc; reflexivity. }
  assert (G1 : grows T0 (app (fst r))).
  { unfold r, Send.run_stream.
    apply (stream_kept JSON_parse (@Send.onChunk P) (Send.onProgress progress_card)
             (fun s => grows T0 (app s))); [| |exact G0].
    - intros; now apply grows_onChunk.
    - intros; now apply grows_onProgress. }
  assert (G2 : forall s' : Session P, grows T0 (app s') ->
            exists rest,
              new_effects st (app s') =
              SetGenerating true :: R ++ [Saved a; Saved b; Saved c; Requested m] ++ rest).
  { intros s' [rest E]; exists rest; unfold new_effects; rewrite E; unfold T0.
    rewrite <- !app_assoc; cbn [List.app]; rewrite <- !app_assoc.
    exact (skipn_length_app (trace st) _). }
  destruct (snd r) as [e|].
  - destruct (G2 _ (@grows_catch_path T0 e (fst r) G1)) as [rest E].
    exists R, a, b, c, m, rest; split; [exact E|split; assumption].
  - destruct (G2 _ G1) as [rest E].
    exists R, a, b, c, m, rest; split; [exact E|split; assumption].
Qed.

End EffectFacts.

(** However the request ends, the history of the owning conversation is
    the old one, the user message, and one assistant entry. *)
Lemma sendMessage_history (P : Type) (progress_card : JSON -> P -> completion P)
    (JSON_parse : jsstring -> option JSON) (now : Z) (p0 : P) (resp : Response)
    (gid : jsstring) (conv0 : Conversation) (st : App) :
  isGenerating st = false ->
  activeConversationId st = Some gid ->
  find_conv gid (conversations st) = Some conv0 ->
  Render.trim (userInput st) <> [] ->
  exists conv entry,
    find_conv gid
      (conversations (Send.sendMessage progress_card JSON_parse now p0 resp st)) = Some conv
    /\ history conv =
         history conv0 ++ [mkMessage User (Render.trim (userInput st)) None now None; entry].
Proof.
  intros Hg Ha Hc Hm.
  unfold Send.sendMessage; rewrite sendMessage_session_sent by assumption; cbv zeta.
  set (message := Render.trim (userInput st)) in *.
  set (s0 := Send.prologue now p0 message st) in *.
  destruct (prologue_at now p0 message st Ha Hc) as [H0 _]; fold s0 in H0.
  set (base := history conv0 ++ [mkMessage User message None now None]) in *.
  set (r := Send.run_stream progress_card JSON_parse message resp s0) in *.
  destruct (run_stream_tracked progress_card JSON_parse message resp
              (gid := gid) (base := base) (now := now) (s := s0))
    as [entry [H1 M1]].
  { exists (placeholder now); split; [exact H0|repeat split]. }
  fold r in H1.
  assert (F : forall (s' : Session P) (en : Message), session_at gid base en s' ->
            exists conv entry,
              find_conv gid (conversations (app s')) = Some conv
              /\ history conv = history conv0 ++ [mkMessage User message None now None; entry]).
  { intros s' en (_ & _ & _ & [[conv [Hf Hh]] _]).
    exists conv, en; split; [exact Hf|].
    rewrite Hh; unfold base; rewrite <- app_assoc; reflexivity. }
  destruct (snd r) as [e|]; [|exact (F _ _ H1)].
  destruct (streamedContent (fst r)) as [|c1 t1] eqn:Es.
  - destruct (catch_path_empty e H1 Es) as [H2 _]; exact (F _ _ H2).
  - assert (N : streamedContent (fst r) <> []) by (rewrite Es; discriminate).
    destruct (catch_path_at e H1 N) as [H2 _]; exact (F _ _ H2).
Qed.

(** C4, as the code has it.  In a call of [sendMessage] that sends a
    message (no generation under way, an input that is not blank, the
    active conversation in the list) the flag [isGenerating] is set
    first; the list is then saved with the user message at the end of
    the history of that conversation, before the request is made; and
    however the request ends the history of the conversation is the old
    one, the user message, and one assistant entry. *)
Theorem user_message_saved_before_request :
  forall (P : Type) (progress_card : JSON -> P -> completion P)
         (JSON_parse : jsstring -> option JSON) (now : Z) (p0 : P)
         (resp : Response) (st : App) (gid : jsstring) (conv0 : Conversation),
    isGenerating st = false ->
    activeConversationId st = Some gid ->
    find_conv gid (conversations st) = Some conv0 ->
    Render.trim (userInput st) <> [] ->
    let message := Render.trim (userInput st) in
    let st' := Send.sendMessage progress_card JSON_parse now p0 resp st in
    before_b is_set_generating (saves_user_message gid message) (new_effects st st') = true
    /\ before_b (saves_user_message gid message) is_requested (new_effects st st') = true
    /\ exists conv entry,
         find_conv gid (conversations st') = Some conv
         /\ history conv = history conv0 ++ [mkMessage User message None now None; entry].
Proof.
  intros P card parse now p0 resp st gid conv0 Hg Ha Hc Hm message st'.
  destruct (sendMessage_effects card parse now p0 resp st Hg Ha Hc Hm)
    as (R & a & b & c & m & rest & E & HR & Sa).
  fold message in Sa; fold st' in E.
  split; [|split].
  - rewrite E; cbn [before_b is_set_generating].
    change (saves_user_message gid message (SetGenerating true)) with false.
    cbn match; rewrite existsb_app; cbn [List.app existsb]; rewrite Sa.
    now rewrite orb_true_r.
  - rewrite E; cbn [before_b is_requested].
    change (saves_user_message gid message (SetGenerating true)) with false.
    cbn match.
    assert (A : before_b (saves_user_message gid message) is_requested
                  ([Saved a; Saved b; Saved c; Requested m] ++ rest) = true).
    { cbn [List.app before_b is_requested]; rewrite Sa; reflexivity. }
    destruct HR as [->|[r0 ->]]; [exact A|].
    cbn [List.app before_b is_requested].
    destruct (saves_user_message gid message (Saved r0)); [reflexivity|exact A].
  - exact (sendMessage_history card parse now p0 resp st Hg Ha Hc Hm).
Qed.

Lemma user_message_saved_before_request_witness :
  before_b is_set_generating
    (saves_user_message (u "a1b2c3d4") (Render.trim (userInput Examples.app0)))
    (new_effects Examples.app0
       (Send.sendMessage Examples.no_card Json.parse_json 1 tt
          (FetchRejected Examples.network_error) Examples.app0)) = true.
Proof.
  apply (user_message_saved_before_request Examples.no_card Json.parse_json 1 tt
           (FetchRejected Examples.network_error) Examples.app0
           (gid := u "a1b2c3d4") (conv0 := Examples.conv_a)).
  - reflexivity.
  - reflexivity.
  - reflexivity.
  - vm_compute; discriminate.
Defined.

(** C4, as the description has it, fails: in the call below the flag is
    set before the list is first saved with the user message, not
    after. *)
Lemma user_message_saved_before_flag_fails :
  before_b
    (saves_user_message (u "a1b2c3d4") (Render.trim (userInput Examples.app0)))
    is_set_generating
    (new_effects Examples.app0
       (Send.sendMessage Examples.no_card Json.parse_json 1 tt
          (FetchRejected Examples.network_error) Examples.app0)) <> true.
Proof. vm_compute; discriminate. Qed.

(** *** The end of a stream, for the session *)

Section FinalCall.

Variable P : Type.
Variable progress_card : JSON -> P -> completion P.
Variable JSON_parse : jsstring -> option JSON.

(** A chunk call with done set finalizes the session. *)
Lemma onChunk_done_finalized (chunk : jsstring) (s : Session P) :
  finalized (state_of (Send.onChunk chunk true s)).
Proof.
  unfold Send.onChunk, finalized, Send.with_app, Send.finalize_entry; cbn [state_of].
  destruct (nth_error _ _); repeat split.
Qed.

(** When the last call of a run is a chunk call with done set, the
    session is finalized. *)
Lemma last_done_finalized (resp : Response) (s : Session P) :
  let r := decode JSON_parse (@Send.onChunk P) (Send.onProgress progress_card) resp s in
  (exists l c, calls_of r = l ++ [CallChunk c true]) ->
  finalized (fst (fst r)).
Proof.
  intros r; subst r; unfold calls_of.
  apply (decode_kept JSON_parse (@Send.onChunk P) (Send.onProgress progress_card)
           (fun x => (exists l c, snd x = l ++ [CallChunk c true]) -> finalized (fst x))).
  - intros c d s' l _ [l' [c' E]]; cbn [fst snd] in *.
    apply app_inj_tail in E as [_ E]; injection E as _ ->.
    apply onChunk_done_finalized.
  - intros e s' l _ [l' [c' E]]; cbn [snd] in E.
    apply app_inj_tail in E as [_ E]; discriminate.
  - intros [l [c E]]; cbn [snd] in E; now destruct l.
Qed.

(** The session of a stream that ends with no chunk call done during
    the read loop. *)
Lemma session_finalized_at_end (now : Z) (p0 : P) (reads : list jsstring) (st : App) :
  isGenerating st = false ->
  Render.trim (userInput st) <> [] ->
  existsb is_done_call (session_loop_calls progress_card JSON_parse now p0 reads st) = false ->
  exists s',
    Send.sendMessage_session progress_card JSON_parse now p0 (Streaming reads EndOfStream) st
      = Some s'
    /\ finalized s'.
Proof.
  intros Hg Hm Hn.
  rewrite sendMessage_session_sent by assumption; cbv zeta.
  unfold session_loop_calls in Hn; cbv zeta in Hn.
  set (message := Render.trim (userInput st)) in *.
  set (s0 := Send.prologue now p0 message st) in *.
  set (si := Send.with_app (Send.record_request message (app s0)) s0) in *.
  pose proof (decode_forget JSON_parse (@Send.onChunk P) (Send.onProgress progress_card)
                (Streaming reads EndOfStream) si) as T.
  set (r := Send.run_stream progress_card JSON_parse message (Streaming reads EndOfStream) s0).
  change (snd r) with (@None Error).
  eexists; split; [reflexivity|].
  replace (fst r)
    with (fst (fst (decode JSON_parse (@Send.onChunk P) (Send.onProgress progress_card)
                      (Streaming reads EndOfStream) si)))
    by (unfold r, Send.run_stream; fold si; rewrite <- T; reflexivity).
  apply last_done_finalized.
  exists (loop_calls JSON_parse (@Send.onChunk P) (Send.onProgress progress_card) reads si), [].
  now rewrite calls_at_end, Hn.
Qed.

End FinalCall.

(** C9. When the stream ends and no chunk call of the read loop carried
    the done flag (no chunk call at all included), the decoder makes
    exactly one more call of the chunk callback, with the empty string
    and done set: the calls of the run are those of the loop followed by
    that one, it is the only call with done set, and the run ends
    without an error.  In [sendMessage] that call finalizes the session:
    the message element no longer loads and shows the markup of the
    accumulated text, and [isGenerating] is false. *)
Theorem end_of_stream_without_done :
  (forall (S : Type) (JSON_parse : jsstring -> option JSON)
          (onChunk : jsstring -> bool -> S -> completion S)
          (onProgress : JSON -> S -> completion S)
          (reads : list jsstring) (s : S),
     existsb is_done_call (loop_calls JSON_parse onChunk onProgress reads s) = false ->
     calls_of (decode JSON_parse onChunk onProgress (Streaming reads EndOfStream) s) =
       loop_calls JSON_parse onChunk onProgress reads s ++ [CallChunk [] true]
     /\ filter is_done_call
          (calls_of (decode JSON_parse onChunk onProgress (Streaming reads EndOfStream) s)) =
        [CallChunk [] true]
     /\ snd (decode JSON_parse onChunk onProgress (Streaming reads EndOfStream) s) = None)
  /\ (forall (P : Type) (progress_card : JSON -> P -> completion P)
             (JSON_parse : jsstring -> option JSON) (now : Z) (p0 : P)
             (reads : list jsstring) (st : App),
        isGenerating st = false ->
        Render.trim (userInput st) <> [] ->
        existsb is_done_call
          (session_loop_calls progress_card JSON_parse now p0 reads st) = false ->
        exists s',
          Send.sendMessage_session progress_card JSON_parse now p0
            (Streaming reads EndOfStream) st = Some s'
          /\ finalized s').
Proof.
  split.
  - intros S JSON_parse f g reads s H.
    rewrite calls_at_end, H.
    split; [reflexivity|split; [|reflexivity]].
    rewrite filter_app, filter_none by assumption; reflexivity.
  - intros; now apply session_finalized_at_end.
Qed.

Lemma end_of_stream_without_done_witness :
  (existsb is_done_call
     (loop_calls Json.parse_json Examples.idle_chunk Examples.idle_progress
        [Json.frame (Examples.ev_chunk (u "Hi") false)] tt) = false
   /\ calls_of (decode Json.parse_json Examples.idle_chunk Examples.idle_progress
                  (Streaming [Json.frame (Examples.ev_chunk (u "Hi") false)] EndOfStream) tt) =
      loop_calls Json.parse_json Examples.idle_chunk Examples.idle_progress
        [Json.frame (Examples.ev_chunk (u "Hi") false)] tt ++ [CallChunk [] true])
  /\ exists s',
       Send.sendMessage_session Examples.no_card Json.parse_json 1 tt
         (Streaming [] EndOfStream) Examples.app0 = Some s'
       /\ finalized s'.
Proof.
  split; [split; [vm_compute; reflexivity|]|].
  - apply (proj1 end_of_stream_without_done unit Json.parse_json Examples.idle_chunk
             Examples.idle_progress [Json.frame (Examples.ev_chunk (u "Hi") false)] tt).
    vm_compute; reflexivity.
  - apply (proj2 end_of_stream_without_done unit Examples.no_card Json.parse_json 1%Z tt
             [] Examples.app0).
    + reflexivity.
    + vm_compute; discriminate.
    + vm_compute; reflexivity.
Defined.

(** C1, what the code does: an explicit error frame is thrown and caught
    by the [catch] block of its own data line, like the syntax error of a
    malformed line.  The [try] block does throw the stream error with
    the message of the frame; but on a stream with a malformed line, an
    error frame and a last chunk the read loop goes on to the chunk and
    [streamCopilotChat] ends without an error; no stream that ends makes
    it reject; and [sendMessage] ends such a session as a completed one,
    showing [Hi] and nothing of the error. *)
Theorem error_frame_is_swallowed :
  snd (try_body Json.parse_json (Some Examples.idle_chunk) (Some Examples.idle_progress)
         (u "data: " ++ Json.stringify (Examples.ev_error (u "boom")))
         (mkInner false false tt)) = Some (StreamError (JStr (u "boom")))
  /\ decode Json.parse_json Examples.idle_chunk Examples.idle_progress
       (Streaming Examples.error_stream EndOfStream) tt =
     ((tt, [CallChunk (u "Hi") true]), None)
  /\ (forall (S : Type) (JSON_parse : jsstring -> option JSON)
             (onChunk : option (jsstring -> bool -> S -> completion S))
             (onProgress : option (JSON -> S -> completion S))
             (reads : list jsstring) (s : S),
        snd (streamCopilotChat JSON_parse onChunk onProgress (Streaming reads EndOfStream) s)
        = None)
  /\ option_map (fun s => (streamedContent s, div s))
       (Send.sendMessage_session Examples.no_card Json.parse_json 1 tt
          (Streaming Examples.error_stream EndOfStream) Examples.app0) =
     Some (u "Hi", mkDiv false (InnerHtml (u "<p>Hi</p>"))).
Proof.
  split; [vm_compute; reflexivity|].
  split; [vm_compute; reflexivity|].
  split; [reflexivity|vm_compute; reflexivity].
Qed.

(** C6. While [isGenerating] is set, [sendMessage] returns at once: no
    session is started and the variables of the script (conversation
    list and histories, stored list, active id, flag, input, effects) are
    what they were. *)
Theorem send_while_generating_is_noop :
  forall (P : Type) (progress_card : JSON -> P -> completion P)
         (JSON_parse : jsstring -> option JSON) (now : Z)
         (p0 : P) (resp : Response) (st : App),
    isGenerating st = true ->
    Send.sendMessage progress_card JSON_parse now p0 resp st = st
    /\ Send.sendMessage_session progress_card JSON_parse now p0 resp st = None.
Proof.
  intros P card parse now p0 resp st H.
  unfold Send.sendMessage, Send.sendMessage_session; rewrite H; split; reflexivity.
Qed.

Lemma send_while_generating_is_noop_witness :
  isGenerating Examples.busy_app = true
  /\ Send.sendMessage Examples.no_card Json.parse_json 1 tt
       (Streaming Examples.hello_reads EndOfStream) Examples.busy_app = Examples.busy_app.
Proof.
  split; [reflexivity|].
  apply (send_while_generating_is_noop Examples.no_card Json.parse_json 1 tt
           (Streaming Examples.hello_reads EndOfStream) Examples.busy_app).
  reflexivity.
Defined.

(** ** The content renderer *)

Lemma replace_char_other (c : ascii) (rep : jsstring) (p : char -> bool) (s : jsstring) :
  forallb p rep = true ->
  forallb (fun x => Regex.is_char c x || p x) s = true ->
  forallb p (Render.replace_char c rep s) = true.
Proof.
  intros Hrep H; unfold Render.replace_char.
  induction s as [|x s IH]; [reflexivity|].
  cbn [flat_map forallb] in *; apply andb_true_iff in H as [Hx Hs].
  rewrite forallb_app, (IH Hs), andb_true_r.
  destruct (Regex.is_char c x); [exact Hrep|].
  cbn [forallb]; now rewrite andb_true_r.
Qed.

(** C7, what the code does.  The first step escapes: its result holds no
    raw angle bracket.  But the text of a fenced block is turned back
    before it is emitted, so a [<b>] inside a fence reaches the markup as
    it was typed; and the name of a palette row is taken from the raw
    text, so it reaches the swatch table unescaped too. *)
Theorem fenced_text_is_not_escaped :
  (forall text : jsstring,
     forallb (fun c => negb (Regex.is_char "<" c || Regex.is_char ">" c))
             (Render.escape_html text) = true)
  /\ Render.renderContentToHtml (u "```<b>```") = u "<pre><code><b></code></pre>"
  /\ includes (u "<td><b></td>")
       (Render.renderContentToHtml (u "<b>: #1A2B3C" ++ nl ++ u "Accent: #FF00AA")) = true.
Proof.
  split; [|split; vm_compute; reflexivity].
  intros text; unfold Render.escape_html.
  set (ok := fun c : char => negb (Regex.is_char "<" c || Regex.is_char ">" c)).
  apply (replace_char_other ">" (u "&gt;") ok); [reflexivity|].
  generalize (Render.replace_char "&" (u "&amp;") text); intros t1.
  unfold Render.replace_char; induction t1 as [|x t IH]; [reflexivity|].
  cbn [flat_map]; rewrite forallb_app, IH, andb_true_r.
  destruct (Regex.is_char "<" x) eqn:E; [reflexivity|].
  cbn [forallb]; rewrite andb_true_r; unfold ok; rewrite E.
  now destruct (Regex.is_char ">" x).
Qed.

(** C8, what the code does.  The colour of the first palette
    expression tries three digits before six and nothing follows it, so
    a six-digit colour is cut after its third digit: two lines with the
    colours [#1A2B3C] and [#FF00AA] give the rows [#1A2] and [#FF0], and
    the swatch table appended to the markup holds these. *)
Theorem six_digit_colour_is_cut :
  Render.palette_of (u "Primary: #1A2B3C" ++ nl ++ u "Accent: #FF00AA") =
    [(u "Primary", u "#1A2"); (u "Accent", u "#FF0")]
  /\ Render.renderContentToHtml (u "Primary: #1A2B3C" ++ nl ++ u "Accent: #FF00AA") =
     u "<p>Primary: #1A2B3C</p><p>Accent: #FF00AA</p>" ++
     Render.swatch_table [(u "Primary", u "#1A2"); (u "Accent", u "#FF0")].
Proof. split; vm_compute; reflexivity. Qed.

(* ================================================================== *)
(** * Further properties *)

(** ** The stored copy follows the list *)

Lemma synced_save (st : App) : synced (saveConversations st).
Proof. split; reflexivity. Qed.

Lemma synced_ext (st st' : App) :
  conversations st' = conversations st ->
  activeConversationId st' = activeConversationId st ->
  storage st' = storage st ->
  synced st -> synced st'.
Proof. unfold synced; intros -> -> ->; auto. Qed.

Lemma synced_persist (i : option jsstring) (h : list Message) (st : App) :
  synced st -> synced (persistConversationHistory i h st).
Proof.
  intros H; unfold persistConversationHistory.
  destruct i as [i|]; [|exact H].
  destruct (find_conv i (conversations st)); [apply synced_save|exact H].
Qed.






Section SyncedSession.

Variable P : Type.
Variable progress_card : JSON -> P -> completion P.
Variable JSON_parse : jsstring -> option JSON.
Variable now : Z.

Lemma synced_persist_entry (f : Message -> Message) (s : Session P) :
  synced (app s) -> synced (app (Send.persist_entry f s)).
Proof. unfold Send.persist_entry; cbn [app]; apply synced_persist. Qed.

Lemma synced_finalize_entry (c : jsstring) (s : Session P) :
  synced (app s) -> synced (app (Send.finalize_entry c s)).
Proof.
  unfold Send.finalize_entry; destruct (nth_error _ _); [apply synced_persist_entry|auto].
Qed.

Lemma synced_onChunk (chunk : jsstring) (done : bool) (s : Session P) :
  synced (app s) -> synced (app (state_of (Send.onChunk chunk done s))).
Proof.
  intros H; unfold Send.onChunk.
  set (s1 := mkSession (app s) _ _ _ (streamedContent s ++ chunk) _ _).
  assert (H2 : synced (app (Send.persist_entry
                              (Send.write_pending (streamedContent s ++ chunk) (negb done)) s1)))
    by (apply synced_persist_entry; exact H).
  destruct done; cbn [state_of]; [|exact H2].
  unfold Send.with_app; cbn [app].
  set (s3 := mkSession _ _ _ _ (streamedContent s ++ chunk) (mkDiv false (InnerHtml _)) _).
  assert (H3 : synced (app (Send.finalize_entry (streamedContent s ++ chunk) s3)))
    by (apply synced_finalize_entry; exact H2).
  revert H3; apply synced_ext; reflexivity.
Qed.

Lemma synced_onProgress (evt : JSON) (s : Session P) :
  synced (app s) -> synced (app (state_of (Send.onProgress progress_card evt s))).
Proof.
  intros H; unfold Send.onProgress; destruct (progress_card evt (progress s)); exact H.
Qed.

Lemma synced_catch_path (e : Error) (s : Session P) :
  synced (app s) -> synced (app (Send.catch_path e s)).
Proof.
  intros H; unfold Send.catch_path, Send.with_app; cbn [app].
  set (s1 := mkSession (app s) _ _ _ _ (mkDiv false _) _).
  assert (H2 : synced (app match streamedContent s with
                           | [] => s1
                           | _ :: _ =>
                               Send.finalize_entry
                                 (Send.finalContent e (streamedContent s)) s1
                           end)).
  { destruct (streamedContent s); [exact H|apply synced_finalize_entry; exact H]. }
  revert H2; apply synced_ext; reflexivity.
Qed.



End SyncedSession.



(** ** Loading the stored list *)









(** ** More on the generation session *)

Section RunFacts.

Variable P : Type.
Variable progress_card : JSON -> P -> completion P.
Variable JSON_parse : jsstring -> option JSON.

(** The rule of the session: what every call keeps, of the session and
    the record of calls together, holds of the session the stream leaves
    and the calls that were made. *)
Lemma run_stream_kept (I : Session P * list Call -> Prop)
    (message : jsstring) (resp : Response) (s0 : Session P) :
  (forall c d s l, I (s, l) -> I (state_of (Send.onChunk c d s), l ++ [CallChunk c d])) ->
  (forall e s l, I (s, l) ->
     I (state_of (Send.onProgress progress_card e s), l ++ [CallProgress e])) ->
  I (Send.with_app (Send.record_request message (app s0)) s0, []) ->
  I (fst (Send.run_stream progress_card JSON_parse message resp s0),
     calls_of (decode JSON_parse (@Send.onChunk P) (Send.onProgress progress_card) resp
                 (Send.with_app (Send.record_request message (app s0)) s0))).
Proof.
  intros Hc Hp H0.
  assert (K : I (fst (decode JSON_parse (@Send.onChunk P) (Send.onProgress progress_card) resp
                        (Send.with_app (Send.record_request message (app s0)) s0))))
    by (apply (decode_kept JSON_parse (@Send.onChunk P) (Send.onProgress progress_card) I);
        assumption).
  pose proof (decode_forget JSON_parse (@Send.onChunk P) (Send.onProgress progress_card) resp
                (Send.with_app (Send.record_request message (app s0)) s0)) as T.
  unfold Send.run_stream; rewrite <- T; cbn [fst]; unfold calls_of.
  now destruct (fst (decode _ _ _ _ _)).
Qed.

Lemma onChunk_streamed (chunk : jsstring) (done : bool) (s : Session P) :
  streamedContent (state_of (Send.onChunk chunk done s)) = streamedContent s ++ chunk.
Proof.
  unfold Send.onChunk, Send.with_app, Send.finalize_entry.
  destruct done; cbn [state_of streamedContent]; [|reflexivity].
  destruct (nth_error _ _); reflexivity.
Qed.

Lemma onProgress_streamed (evt : JSON) (s : Session P) :
  streamedContent (state_of (Send.onProgress progress_card evt s)) = streamedContent s.
Proof. unfold Send.onProgress; destruct (progress_card evt (progress s)); reflexivity. Qed.

Lemma chunks_text_snoc (l : list Call) (c : Call) :
  chunks_text (l ++ [c]) = chunks_text l ++ chunk_text c.
Proof.
  unfold chunks_text; rewrite map_app, concat_app; cbn [map List.concat].
  now rewrite app_nil_r.
Qed.

Lemma catch_path_streamed (e : Error) (s : Session P) :
  streamedContent (Send.catch_path e s) = streamedContent s.
Proof.
  unfold Send.catch_path, Send.with_app, Send.finalize_entry; cbn [streamedContent].
  destruct (streamedContent s); [reflexivity|].
  destruct (nth_error _ _); reflexivity.
Qed.

End RunFacts.

(** X4. The text accumulated by a call of [sendMessage] that sends a
    message is the texts of the chunk calls the decoder made, in the
    order of the calls, put together: nothing is reordered, merged or
    dropped, whether the stream ends, fails or is cancelled. *)
Theorem accumulated_text_is_the_chunks :
  forall (P : Type) (progress_card : JSON -> P -> completion P)
         (JSON_parse : jsstring -> option JSON) (now : Z) (p0 : P)
         (resp : Response) (st : App),
    isGenerating st = false ->
    Render.trim (userInput st) <> [] ->
    exists s',
      Send.sendMessage_session progress_card JSON_parse now p0 resp st = Some s'
      /\ streamedContent s' = chunks_text (session_calls progress_card JSON_parse now p0 resp st).
Proof.
  intros P card parse now p0 resp st Hg Hm.
  rewrite sendMessage_session_sent by assumption; cbv zeta.
  unfold session_calls; cbv zeta.
  set (message := Render.trim (userInput st)).
  set (s0 := Send.prologue now p0 message st).
  pose proof (run_stream_kept card parse
                (fun x => streamedContent (fst x) = chunks_text (snd x))
                message resp s0) as K.
  cbn [fst snd] in K.
  set (r := Send.run_stream card parse message resp s0) in *.
  assert (E : streamedContent (fst r) =
              chunks_text (calls_of (decode parse (@Send.onChunk P) (Send.onProgress card) resp
                                       (Send.with_app (Send.record_request message (app s0)) s0)))).
  { apply K.
    - intros c d s l H; now rewrite onChunk_streamed, chunks_text_snoc, H.
    - intros e s l H; rewrite onProgress_streamed, chunks_text_snoc, H.
      cbn [chunk_text]; now rewrite app_nil_r.
    - reflexivity. }
  eexists; split; [reflexivity|].
  destruct (snd r); [rewrite catch_path_streamed|]; exact E.
Qed.

Lemma accumulated_text_is_the_chunks_witness :
  exists s',
    Send.sendMessage_session Examples.no_card Json.parse_json 1 tt
      (Streaming Examples.hello_reads (ReadRejected Examples.abort_error)) Examples.app0
      = Some s'
    /\ streamedContent s' =
       chunks_text (session_calls Examples.no_card Json.parse_json 1 tt
                      (Streaming Examples.hello_reads (ReadRejected Examples.abort_error))
                      Examples.app0).
Proof.
  apply (accumulated_text_is_the_chunks Examples.no_card Json.parse_json 1 tt
           (Streaming Examples.hello_reads (ReadRejected Examples.abort_error)) Examples.app0).
  - reflexivity.
  - vm_compute; discriminate.
Defined.

Lemma isGenerating_persist (i : option jsstring) (h : list Message) (st : App) :
  isGenerating (persistConversationHistory i h st) = isGenerating st.
Proof.
  unfold persistConversationHistory; destruct i as [i|]; [|reflexivity].
  destruct (find_conv i (conversations st)); reflexivity.
Qed.

Lemma onChunk_flag (P : Type) (chunk : jsstring) (done : bool) (s : Session P) :
  isGenerating (app (state_of (Send.onChunk chunk done s))) =
  if done then false else isGenerating (app s).
Proof.
  unfold Send.onChunk, Send.with_app, Send.persist_entry.
  destruct done; cbn [state_of app]; [reflexivity|apply isGenerating_persist].
Qed.

Lemma onProgress_app (P : Type) (progress_card : JSON -> P -> completion P)
    (evt : JSON) (s : Session P) :
  app (state_of (Send.onProgress progress_card evt s)) = app s.
Proof. unfold Send.onProgress; destruct (progress_card evt (progress s)); reflexivity. Qed.

Lemma existsb_snoc (A : Type) (p : A -> bool) (l : list A) (x : A) :
  existsb p (l ++ [x]) = existsb p l || p x.
Proof. rewrite existsb_app; simpl; now rewrite orb_false_r. Qed.

Lemma idle_after_sendMessage (P : Type) (progress_card : JSON -> P -> completion P)
    (JSON_parse : jsstring -> option JSON) (now : Z) (p0 : P) (resp : Response) (st : App) :
  isGenerating st = false ->
  isGenerating (Send.sendMessage progress_card JSON_parse now p0 resp st) = false.
Proof.
  revert P progress_card JSON_parse now p0 resp st.
  intros P card parse now p0 resp st Hg.
  unfold Send.sendMessage.
  destruct (Render.trim (userInput st)) as [|c0 t0] eqn:Em.
  { unfold Send.sendMessage_session; now rewrite Hg, Em. }
  assert (Hm : Render.trim (userInput st) <> []) by (rewrite Em; discriminate).
  rewrite sendMessage_session_sent by assumption; cbv zeta; rewrite Em.
  set (message := c0 :: t0).
  set (s0 := Send.prologue now p0 message st).
  destruct resp as [e|status|reads [|e]]; try reflexivity.
  set (r := Send.run_stream card parse message (Streaming reads EndOfStream) s0).
  change (snd r) with (@None Error).
  pose proof (run_stream_kept card parse
                (fun x => existsb is_done_call (snd x) = true ->
                          isGenerating (app (fst x)) = false)
                message (Streaming reads EndOfStream) s0) as K.
  cbn [fst snd] in K; fold r in K; apply K.
  - intros c d s l IH; rewrite existsb_snoc, onChunk_flag; cbn [is_done_call].
    destruct d; [reflexivity|]; now rewrite orb_false_r.
  - intros e s l IH; rewrite existsb_snoc, onProgress_app; cbn [is_done_call].
    now rewrite orb_false_r.
  - discriminate.
  - rewrite calls_at_end.
    destruct (existsb is_done_call (loop_calls _ _ _ _ _)) eqn:Ed.
    + now rewrite app_nil_r.
    + rewrite existsb_snoc; cbn [is_done_call]; apply orb_true_r.
Qed.

(** X5. A call of [sendMessage] never leaves [isGenerating] set: when
    no generation is under way before the call, none is after it,
    whether the call returns at a guard, the stream ends, the request
    fails or the user cancels. *)
Theorem generating_flag_is_released :
  forall (P : Type) (progress_card : JSON -> P -> completion P)
         (JSON_parse : jsstring -> option JSON) (now : Z) (p0 : P)
         (resp : Response) (st : App),
    isGenerating st = false ->
    isGenerating (Send.sendMessage progress_card JSON_parse now p0 resp st) = false.
Proof. intros; now apply idle_after_sendMessage. Qed.

Lemma generating_flag_is_released_witness :
  isGenerating
    (Send.sendMessage Examples.no_card Json.parse_json 1 tt
       (Streaming Examples.error_stream EndOfStream) Examples.app0) = false.
Proof.
  apply (generating_flag_is_released Examples.no_card Json.parse_json 1 tt
           (Streaming Examples.error_stream EndOfStream) Examples.app0).
  reflexivity.
Defined.

Lemma last_chunk_done_chunk (l : list Call) (c : jsstring) (d : bool) :
  last_chunk_done (l ++ [CallChunk c d]) = d.
Proof.
  unfold last_chunk_done; rewrite filter_app; cbn [filter is_chunk_call].
  now rewrite rev_unit.
Qed.

Lemma last_chunk_done_progress (l : list Call) (e : JSON) :
  last_chunk_done (l ++ [CallProgress e]) = last_chunk_done l.
Proof.
  unfold last_chunk_done; rewrite filter_app; cbn [filter is_chunk_call].
  now rewrite app_nil_r.
Qed.

(** X6. A stream that ends after a last chunk call with done set (the
    one the server marks, or the one the decoder adds): the history of
    the owning conversation is the old history, the user message, and an
    assistant message whose content is the texts of all the chunk calls
    put together, with no pending flag, in the list and in its stored
    copy; and [isGenerating] is false. *)
Theorem completed_stream_is_persisted :
  forall (P : Type) (progress_card : JSON -> P -> completion P)
         (JSON_parse : jsstring -> option JSON) (now : Z) (p0 : P)
         (reads : list jsstring) (st : App) (gid : jsstring) (conv0 : Conversation),
    isGenerating st = false ->
    activeConversationId st = Some gid ->
    find_conv gid (conversations st) = Some conv0 ->
    Render.trim (userInput st) <> [] ->
    last_chunk_done
      (session_calls progress_card JSON_parse now p0 (Streaming reads EndOfStream) st) = true ->
    exists s' conv,
      Send.sendMessage_session progress_card JSON_parse now p0
        (Streaming reads EndOfStream) st = Some s'
      /\ find_conv gid (conversations (app s')) = Some conv
      /\ history conv =
           history conv0 ++
           [mkMessage User (Render.trim (userInput st)) None now None;
            mkMessage Assistant
              (chunks_text (session_calls progress_card JSON_parse now p0
                              (Streaming reads EndOfStream) st))
              None now None]
      /\ stored_conversations (storage (app s')) = Some (conversations (app s'))
      /\ isGenerating (app s') = false.
Proof.
  intros P card parse now p0 reads st gid conv0 Hg Ha Hc Hm Hl.
  rewrite sendMessage_session_sent by assumption; cbv zeta.
  unfold session_calls in *; cbv zeta in Hl.
  set (message := Render.trim (userInput st)) in *.
  set (s0 := Send.prologue now p0 message st) in *.
  destruct (prologue_at now p0 message st Ha Hc) as [H0 E0]; fold s0 in H0, E0.
  set (base := history conv0 ++ [mkMessage User message None now None]) in *.
  set (r := Send.run_stream card parse message (Streaming reads EndOfStream) s0).
  change (snd r) with (@None Error).
  pose proof (run_stream_kept card parse
                (fun x => exists entry,
                     session_at gid base entry (fst x)
                     /\ entry_meta now entry
                     /\ streamedContent (fst x) = chunks_text (snd x)
                     /\ (last_chunk_done (snd x) = true ->
                         entry = mkMessage Assistant (streamedContent (fst x)) None now None
                         /\ isGenerating (app (fst x)) = false))
                message (Streaming reads EndOfStream) s0) as K.
  cbn [fst snd] in K; fold r in K.
  destruct K as (entry & H1 & M1 & E1 & F1).
  - intros c d s l (entry & H & M & E & F).
    destruct (onChunk_at c d H) as [Es H'].
    eexists; split; [exact H'|].
    split; [destruct d; [apply entry_meta_write_final|]; apply entry_meta_write_pending, M|].
    split; [now rewrite Es, chunks_text_snoc, E|].
    rewrite last_chunk_done_chunk; intros ->.
    rewrite Es, onChunk_flag; split; [|reflexivity].
    now apply write_final_meta, entry_meta_write_pending.
  - intros e s l (entry & H & M & E & F).
    destruct (onProgress_at card e H) as [Es H'].
    exists entry; split; [exact H'|split; [exact M|]].
    split; [rewrite Es, chunks_text_snoc, E; cbn [chunk_text]; now rewrite app_nil_r|].
    rewrite last_chunk_done_progress, Es, onProgress_app; exact F.
  - exists (placeholder now); split; [now apply request_at|].
    split; [repeat split|split; [exact E0|discriminate]].
  - destruct (F1 Hl) as [-> G1].
    destruct H1 as (_ & _ & _ & [[conv [Hf Hh]] Hst]).
    exists (fst r), conv; repeat split; try assumption.
    rewrite Hh, E1; unfold base; rewrite <- app_assoc; reflexivity.
Qed.

Lemma completed_stream_is_persisted_witness :
  exists s' conv,
    Send.sendMessage_session Examples.no_card Json.parse_json 1 tt
      (Streaming Examples.hello_reads EndOfStream) Examples.app0 = Some s'
    /\ find_conv (u "a1b2c3d4") (conversations (app s')) = Some conv
    /\ history conv =
         history Examples.conv_a ++
         [mkMessage User (Render.trim (userInput Examples.app0)) None 1 None;
          mkMessage Assistant
            (chunks_text (session_calls Examples.no_card Json.parse_json 1 tt
                            (Streaming Examples.hello_reads EndOfStream) Examples.app0))
            None 1 None]
    /\ stored_conversations (storage (app s')) = Some (conversations (app s'))
    /\ isGenerating (app s') = false.
Proof.
  apply (completed_stream_is_persisted Examples.no_card Json.parse_json 1 tt
           Examples.hello_reads Examples.app0
           (gid := u "a1b2c3d4") (conv0 := Examples.conv_a)).
  - reflexivity.
  - reflexivity.
  - reflexivity.
  - vm_compute; discriminate.
  - vm_compute; reflexivity.
Defined.

(** ** What a call of [sendMessage] leaves alone *)

Lemma str_eqb_neq (a b : jsstring) : a <> b -> str_eqb a b = false.
Proof.
  intros N; destruct (str_eqb a b) eqn:E; [|reflexivity].
  now apply str_eqb_eq in E.
Qed.

Lemma find_conv_update_other (i j : jsstring) (f : Conversation -> Conversation)
    (cs : list Conversation) :
  i <> j ->
  (forall c, id (f c) = id c) ->
  find_conv j (update_conv i f cs) = find_conv j cs.
Proof.
  intros N Hf; induction cs as [|c cs IH]; [reflexivity|].
  cbn [update_conv find_conv].
  destruct (str_eqb (id c) i) eqn:Ei; cbn [find_conv].
  - rewrite Hf; apply str_eqb_eq in Ei; rewrite Ei.
    now rewrite (str_eqb_neq N).
  - now rewrite IH.
Qed.

Lemma map_id_update (i : jsstring) (f : Conversation -> Conversation)
    (cs : list Conversation) :
  (forall c, id (f c) = id c) ->
  map id (update_conv i f cs) = map id cs.
Proof.
  intros Hf; induction cs as [|c cs IH]; [reflexivity|].
  cbn [update_conv]; destruct (str_eqb (id c) i); cbn [map]; [now rewrite Hf|now rewrite IH].
Qed.

Section Untouched.

Lemma untouched_ext (a0 : option jsstring) (cs0 : list Conversation) (st st' : App) :
  conversations st' = conversations st ->
  activeConversationId st' = activeConversationId st ->
  untouched a0 cs0 st -> untouched a0 cs0 st'.
Proof. unfold untouched; intros -> ->; auto. Qed.

Lemma untouched_update (a0 : option jsstring) (cs0 : list Conversation) (i : jsstring) (f : Conversation -> Conversation) (st : App) :
  a0 = Some i ->
  (forall c, id (f c) = id c) ->
  untouched a0 cs0 st ->
  untouched a0 cs0 (saveConversations (with_conversations (update_conv i f (conversations st)) st)).
Proof.
  intros Ei Hf (H1 & H2 & H3); unfold untouched.
  cbn [conversations activeConversationId saveConversations with_conversations].
  split; [exact H1|split].
  - now rewrite map_id_update.
  - intros j Hj; rewrite find_conv_update_other; auto.
    intros ->; now apply Hj.
Qed.

Lemma untouched_persist (a0 : option jsstring) (cs0 : list Conversation) (h : list Message) (st : App) :
  untouched a0 cs0 st -> untouched a0 cs0 (persistConversationHistory a0 h st).
Proof.
  intros H; unfold persistConversationHistory.
  destruct a0 as [i|] eqn:Ea; [|exact H].
  destruct (find_conv i (conversations st)); [|exact H].
  now apply untouched_update.
Qed.

Lemma untouched_rename_default (a0 : option jsstring) (cs0 : list Conversation) (message : jsstring) (st : App) :
  untouched a0 cs0 st -> untouched a0 cs0 (Send.rename_default message st).
Proof.
  intros H; unfold Send.rename_default, getActiveConv.
  destruct H as (H1 & H23); rewrite H1.
  destruct a0 as [i|] eqn:Ea; [|now split].
  destruct (find_conv i (conversations st)) as [conv|] eqn:Ef; [|now split].
  destruct (Send.isDefault (title conv)); [|now split].
  destruct (Send.title_of message); [now split|].
  rewrite (find_conv_id _ _ Ef).
  apply untouched_update; [reflexivity|reflexivity|now split].
Qed.

Lemma untouched_addUser (a0 : option jsstring) (cs0 : list Conversation) (now : Z) (message : jsstring) (st : App) :
  untouched a0 cs0 st -> untouched a0 cs0 (Send.addUserMessageToChat now message st).
Proof.
  intros H; unfold Send.addUserMessageToChat; cbv zeta.
  set (st1 := mkApp (conversations st) (activeConversationId st) _ (isGenerating st)
                    (userInput st) (lastUserMessage st) (storage st) (trace st)).
  assert (H' : untouched a0 cs0 st1) by exact H.
  unfold getActiveConv.
  change (activeConversationId st1) with (activeConversationId st).
  destruct H as (H1 & H23); rewrite H1.
  destruct a0 as [i|] eqn:Ea; [|exact H'].
  destruct (find_conv i (conversations st1)) as [conv|] eqn:Ef; [|exact H'].
  rewrite (find_conv_id _ _ Ef).
  now apply untouched_update.
Qed.

Variable P : Type.
Variable progress_card : JSON -> P -> completion P.
Variable JSON_parse : jsstring -> option JSON.
Variable now : Z.
Variable a0 : option jsstring.
Variable cs0 : list Conversation.

Lemma kept_persist_entry (f : Message -> Message) (s : Session P) :
  kept_session a0 cs0 s -> kept_session a0 cs0 (Send.persist_entry f s).
Proof.
  intros [Hg H]; split; [exact Hg|].
  unfold Send.persist_entry; cbn [app]; rewrite Hg; now apply untouched_persist.
Qed.

Lemma kept_finalize_entry (c : jsstring) (s : Session P) :
  kept_session a0 cs0 s -> kept_session a0 cs0 (Send.finalize_entry c s).
Proof.
  unfold Send.finalize_entry; destruct (nth_error _ _); [apply kept_persist_entry|auto].
Qed.

Lemma kept_onChunk (chunk : jsstring) (done : bool) (s : Session P) :
  kept_session a0 cs0 s -> kept_session a0 cs0 (state_of (Send.onChunk chunk done s)).
Proof.
  intros H; unfold Send.onChunk.
  set (s1 := mkSession (app s) _ _ _ (streamedContent s ++ chunk) _ _).
  assert (H1 : kept_session a0 cs0 s1) by exact H.
  pose proof (kept_persist_entry
                (Send.write_pending (streamedContent s ++ chunk) (negb done)) H1) as H2.
  destruct done; cbn [state_of]; [|exact H2].
  set (s3 := mkSession _ _ _ _ (streamedContent s ++ chunk) (mkDiv false (InnerHtml _)) _).
  assert (H3 : kept_session a0 cs0 s3) by exact H2.
  destruct (kept_finalize_entry (streamedContent s ++ chunk) H3) as [G4 H4].
  split; [exact G4|].
  revert H4; apply untouched_ext; reflexivity.
Qed.

Lemma kept_onProgress (evt : JSON) (s : Session P) :
  kept_session a0 cs0 s -> kept_session a0 cs0 (state_of (Send.onProgress progress_card evt s)).
Proof.
  intros H; unfold Send.onProgress; destruct (progress_card evt (progress s)); exact H.
Qed.

Lemma kept_catch_path (e : Error) (s : Session P) :
  kept_session a0 cs0 s -> kept_session a0 cs0 (Send.catch_path e s).
Proof.
  intros H; unfold Send.catch_path.
  set (s1 := mkSession (app s) _ _ _ _ (mkDiv false _) _).
  assert (H1 : kept_session a0 cs0 s1) by exact H.
  assert (H2 : kept_session a0 cs0 match streamedContent s with
                            | [] => s1
                            | _ :: _ =>
                                Send.finalize_entry
                                  (Send.finalContent e (streamedContent s)) s1
                            end).
  { destruct (streamedContent s); [exact H1|now apply kept_finalize_entry]. }
  destruct H2 as [G2 H2]; split; [exact G2|].
  revert H2; apply untouched_ext; reflexivity.
Qed.

Lemma kept_prologue (p0 : P) (message : jsstring) (st : App) :
  untouched a0 cs0 st -> kept_session a0 cs0 (Send.prologue now p0 message st).
Proof.
  intros H; unfold Send.prologue; cbv zeta.
  change (activeConversationId (Send.set_generating true st)) with (activeConversationId st).
  destruct H as (H1 & H23); rewrite H1.
  split; [reflexivity|]; cbn [app].
  apply untouched_persist.
  apply (untouched_ext
           (st := persistConversationHistory a0
                    (match a0 with
                     | Some i => match find_conv i (conversations (Send.set_generating true st)) with
                                 | Some conv0 => history conv0
                                 | None => []
                                 end
                     | None => []
                     end ++ [mkMessage User message None now None])
                    (Send.addUserMessageToChat now message
                       (Send.set_lastUserMessage message
                          (Send.rename_default message (Send.set_generating true st))))));
    try reflexivity.
  apply untouched_persist, untouched_addUser.
  apply (untouched_ext
           (st := Send.rename_default message (Send.set_generating true st)));
    try reflexivity.
  apply untouched_rename_default.
  now split.
Qed.

Lemma untouched_sendMessage (p0 : P) (resp : Response) (st : App) :
  untouched a0 cs0 st -> untouched a0 cs0 (Send.sendMessage progress_card JSON_parse now p0 resp st).
Proof.
  intros H; unfold Send.sendMessage, Send.sendMessage_session.
  destruct (isGenerating st); [exact H|].
  destruct (Render.trim (userInput st)) as [|c0 t0]; [exact H|].
  set (message := c0 :: t0).
  set (s0 := Send.prologue now p0 message st).
  set (r := Send.run_stream progress_card JSON_parse message resp s0).
  assert (H1 : kept_session a0 cs0 (fst r)).
  { unfold r, Send.run_stream.
    apply (stream_kept JSON_parse (@Send.onChunk P) (Send.onProgress progress_card)
             (kept_session a0 cs0)).
    - intros; now apply kept_onChunk.
    - intros; now apply kept_onProgress.
    - destruct (kept_prologue p0 message H) as [G0 H0]; fold s0 in G0, H0.
      split; [exact G0|].
      revert H0; apply untouched_ext; reflexivity. }
  destruct (snd r) as [e|]; [apply (kept_catch_path e H1)|apply H1].
Qed.

End Untouched.

(** X7. A call of [sendMessage] adds, removes and reorders no
    conversation, keeps the active id, and changes nothing of any
    conversation but the active one: every other conversation is found
    as it was, title and history included. *)
Theorem sendMessage_touches_one_conversation :
  forall (P : Type) (progress_card : JSON -> P -> completion P)
         (JSON_parse : jsstring -> option JSON) (now : Z) (p0 : P)
         (resp : Response) (st : App),
    let st' := Send.sendMessage progress_card JSON_parse now p0 resp st in
    activeConversationId st' = activeConversationId st
    /\ map id (conversations st') = map id (conversations st)
    /\ forall j, activeConversationId st <> Some j ->
         find_conv j (conversations st') = find_conv j (conversations st).
Proof.
  intros P card parse now p0 resp st st'.
  apply (untouched_sendMessage card parse now (a0 := activeConversationId st)
           (cs0 := conversations st)).
  repeat split.
Qed.

(** ** The request *)

Lemma chatHistory_persist (i : option jsstring) (h : list Message) (st : App) :
  chatHistory (persistConversationHistory i h st) = chatHistory st.
Proof.
  unfold persistConversationHistory; destruct i as [i|]; [|reflexivity].
  destruct (find_conv i (conversations st)); reflexivity.
Qed.

Lemma chatHistory_rename_default (message : jsstring) (st : App) :
  chatHistory (Send.rename_default message st) = chatHistory st.
Proof.
  unfold Send.rename_default.
  destruct (getActiveConv st) as [conv|]; [|reflexivity].
  destruct (Send.isDefault (title conv)); [|reflexivity].
  destruct (Send.title_of message); reflexivity.
Qed.

Lemma chatHistory_addUser (now : Z) (message : jsstring) (st : App) :
  chatHistory (Send.addUserMessageToChat now message st) =
  chatHistory st ++ [mkMessage User message None now None].
Proof.
  unfold Send.addUserMessageToChat; destruct (getActiveConv _); reflexivity.
Qed.

(** The chat history when the request is made: the one before the call
    and the user message. *)
Lemma prologue_chatHistory (P : Type) (now : Z) (p0 : P) (message : jsstring) (st : App) :
  chatHistory (app (Send.prologue now p0 message st)) =
  chatHistory st ++ [mkMessage User message None now None].
Proof.
  unfold Send.prologue; cbv zeta; cbn [app].
  rewrite chatHistory_persist.
  change (chatHistory (Send.clear_input ?x)) with (chatHistory x).
  rewrite chatHistory_persist, chatHistory_addUser.
  change (chatHistory (Send.set_lastUserMessage message ?x)) with (chatHistory x).
  now rewrite chatHistory_rename_default.
Qed.

Lemma extends_save (t : list Effect) (st : App) :
  extends_trace t st -> extends_trace t (saveConversations st).
Proof.
  intros [r E]; exists (r ++ [Saved (conversations st)]).
  cbn [trace saveConversations]; now rewrite E, app_assoc.
Qed.

Lemma extends_rename_default (t : list Effect) (message : jsstring) (st : App) :
  extends_trace t st -> extends_trace t (Send.rename_default message st).
Proof.
  intros H; unfold Send.rename_default.
  destruct (getActiveConv st) as [conv|]; [|exact H].
  destruct (Send.isDefault (title conv)); [|exact H].
  destruct (Send.title_of message); [exact H|].
  apply extends_save; exact H.
Qed.

Lemma extends_addUser (t : list Effect) (now : Z) (message : jsstring) (st : App) :
  extends_trace t st -> extends_trace t (Send.addUserMessageToChat now message st).
Proof.
  intros H; unfold Send.addUserMessageToChat.
  destruct (getActiveConv _); [apply extends_save|]; exact H.
Qed.

Lemma extends_prologue (P : Type) (now : Z) (p0 : P) (message : jsstring) (st : App) :
  extends_trace (trace st) (app (Send.prologue now p0 message st)).
Proof.
  unfold Send.prologue; cbv zeta; cbn [app].
  apply grows_persist.
  change (extends_trace (trace st)
            (persistConversationHistory (activeConversationId (Send.set_generating true st))
               (match activeConversationId (Send.set_generating true st) with
                | Some i =>
                    match find_conv i (conversations (Send.set_generating true st)) with
                    | Some conv0 => history conv0
                    | None => []
                    end
                | None => []
                end ++ [mkMessage User message None now None])
               (Send.addUserMessageToChat now message
                  (Send.set_lastUserMessage message
                     (Send.rename_default message (Send.set_generating true st)))))).
  apply grows_persist, extends_addUser.
  change (extends_trace (trace st)
            (Send.rename_default message (Send.set_generating true st))).
  apply extends_rename_default.
  exists [SetGenerating true]; reflexivity.
Qed.

(** X8. The request of a call of [sendMessage] that sends a message
    carries the user message twice: the chat history already holds it
    when the payload is built from it, and it is pushed once more.  The
    payload is the chat history before the call, then the message, then
    the message again; and this is the request the call makes. *)
Theorem request_repeats_the_user_message :
  forall (P : Type) (progress_card : JSON -> P -> completion P)
         (JSON_parse : jsstring -> option JSON) (now : Z) (p0 : P)
         (resp : Response) (st : App),
    isGenerating st = false ->
    Render.trim (userInput st) <> [] ->
    request_of now p0 st =
      map (fun m => (role m, content m)) (chatHistory st) ++
      [(User, Render.trim (userInput st)); (User, Render.trim (userInput st))]
    /\ In (Requested (request_of now p0 st))
          (new_effects st (Send.sendMessage progress_card JSON_parse now p0 resp st)).
Proof.
  intros P card parse now p0 resp st Hg Hm.
  unfold request_of; cbv zeta.
  set (message := Render.trim (userInput st)) in *.
  split.
  - unfold Send.request_messages; rewrite prologue_chatHistory, map_app.
    now rewrite <- app_assoc.
  - unfold Send.sendMessage; rewrite sendMessage_session_sent by assumption; cbv zeta.
    fold message.
    set (s0 := Send.prologue now p0 message st).
    set (m := Send.request_messages message (app s0)).
    destruct (extends_prologue now p0 message st) as [pre Epre]; fold s0 in Epre.
    set (T0 := trace (app s0) ++ [Requested m]).
    set (r := Send.run_stream card parse message resp s0).
    assert (G1 : extends_trace T0 (app (fst r))).
    { unfold r, Send.run_stream.
      apply (stream_kept parse (@Send.onChunk P) (Send.onProgress card)
               (fun s => extends_trace T0 (app s))).
      - intros; now apply grows_onChunk.
      - intros; now apply grows_onProgress.
      - exists []; now rewrite app_nil_r. }
    assert (G2 : forall s' : Session P, extends_trace T0 (app s') ->
              In (Requested m) (new_effects st (app s'))).
    { intros s' [rest E]; unfold new_effects; rewrite E; unfold T0; rewrite Epre.
      rewrite <- !app_assoc, skipn_length_app.
      apply in_or_app; right; now left. }
    destruct (snd r) as [e|]; apply G2; [now apply grows_catch_path|exact G1].
Qed.

Lemma request_repeats_the_user_message_witness :
  request_of 1 tt Examples.app0 =
  map (fun m => (role m, content m)) (chatHistory Examples.app0) ++
  [(User, Render.trim (userInput Examples.app0));
   (User, Render.trim (userInput Examples.app0))].
Proof.
  refine (proj1 (request_repeats_the_user_message Examples.no_card Json.parse_json 1 tt
                   (FetchRejected Examples.network_error) Examples.app0 _ _)).
  - reflexivity.
  - vm_compute; discriminate.
Defined.

(** ** Switching, creating, deleting, renaming *)

Lemma switch_conversations (i : jsstring) (st : App) :
  conversations (switchConversation i st) = conversations st.
Proof.
  unfold switchConversation.
  destruct (isGenerating st && negb (opt_str_eqb (activeConversationId st) i)); [reflexivity|].
  destruct (find_conv i (conversations st)); reflexivity.
Qed.







Lemma findIndex_fresh_last (g : jsstring) (cs : list Conversation) (c : Conversation) :
  findIndex g cs = None -> id c = g ->
  findIndex g (cs ++ [c]) = Some (List.length cs).
Proof.
  intros H E; induction cs as [|x cs IH]; cbn [List.app findIndex List.length].
  - now rewrite E, str_eqb_refl.
  - cbn [findIndex] in H; destruct (str_eqb (id x) g); [discriminate|].
    destruct (findIndex g cs); [discriminate|].
    now rewrite IH.
Qed.

Lemma splice1_last (cs : list Conversation) (c : Conversation) :
  splice1 (List.length cs) (cs ++ [c]) = cs.
Proof.
  unfold splice1.
  rewrite firstn_app, Nat.sub_diag, firstn_all; cbn [firstn].
  rewrite skipn_all2 by (rewrite length_app; simpl; lia).
  now rewrite !app_nil_r.
Qed.

Lemma nth_last (cs : list Conversation) (c d : Conversation) :
  nth (List.length cs) (cs ++ [c]) d = c.
Proof. induction cs as [|x cs IH]; [reflexivity|exact IH]. Qed.

(** X11. Creating a conversation and deleting it again gives the list
    back: when the new id is not an id of the list and the list is not
    empty, the list after [createNewConversation] and
    [deleteConversation] of the new id is the list before, the last
    conversation of the list is the active one, and the chat shows the
    history of the conversation found under its id. *)
Theorem create_then_delete_restores_list :
  forall (genId : jsstring) (now : Z) (defaultAvatar : jsstring) (t : option jsstring)
         (genId' : jsstring) (now' : Z) (defaultAvatar' : jsstring)
         (st : App) (cs : list Conversation) (c : Conversation),
    conversations st = cs ++ [c] ->
    findIndex genId (conversations st) = None ->
    let st' := deleteConversation genId' now' defaultAvatar' genId
                 (createNewConversation genId now defaultAvatar t st) in
    conversations st' = conversations st
    /\ activeConversationId st' = Some (id c)
    /\ chatHistory st' = match find_conv (id c) (conversations st) with
                         | Some conv => history conv
                         | None => []
                         end.
Proof.
  intros genId now av t genId' now' av' st cs c Hcs Hfresh st'.
  subst st'; unfold deleteConversation.
  set (t' := match t with Some (x :: xs) => x :: xs | _ => u "New Conversation" end).
  assert (Ec : conversations (createNewConversation genId now av t st) =
               conversations st ++ [fresh_conversation genId now av t']) by reflexivity.
  assert (Ea : activeConversationId (createNewConversation genId now av t st) = Some genId)
    by reflexivity.
  rewrite Ec, Ea,
    (@findIndex_fresh_last genId (conversations st) (fresh_conversation genId now av t') Hfresh eq_refl),
    splice1_last.
  cbn [opt_str_eqb]; rewrite str_eqb_refl, Hcs.
  assert (L : Nat.min (List.length (cs ++ [c])) (List.length (cs ++ [c]) - 1) = List.length cs)
    by (rewrite length_app; simpl; lia).
  destruct (cs ++ [c]) as [|c0 rest] eqn:E; [now destruct cs|].
  rewrite <- E in *; rewrite L.
  cbn [conversations activeConversationId chatHistory saveConversations].
  rewrite (nth_last cs c c0).
  repeat split.
Qed.

Lemma create_then_delete_restores_list_witness :
  conversations
    (deleteConversation (u "g2") 3 (u "avatar.webp") (u "g1")
       (createNewConversation (u "g1") 2 (u "avatar.webp") None Examples.app0))
  = conversations Examples.app0.
Proof.
  refine (proj1 (create_then_delete_restores_list (u "g1") 2 (u "avatar.webp") None
                   (u "g2") 3 (u "avatar.webp") Examples.app0
                   [] Examples.conv_a _ _)).
  - reflexivity.
  - reflexivity.
Defined.




(** ** Reloading the page *)

Lemma synced_persist_found (gid : jsstring) (h : list Message) (st : App) :
  has_conv gid st -> synced (persistConversationHistory (Some gid) h st).
Proof.
  intros [c Hc]; unfold persistConversationHistory; rewrite Hc; apply synced_save.
Qed.

Lemma find_conv_map_title (f : Conversation -> jsstring) (i : jsstring) (cs : list Conversation) :
  find_conv i (map (fun c => set_title (f c) c) cs) =
  option_map (fun c => set_title (f c) c) (find_conv i cs).
Proof.
  induction cs as [|c cs IH]; [reflexivity|].
  cbn [map find_conv]; change (id (set_title (f c) c)) with (id c).
  destruct (str_eqb (id c) i); [reflexivity|exact IH].
Qed.

Lemma last_user_snoc2 (h : list Message) (m e : Message) :
  role m = User -> role e = Assistant -> Load.last_user (h ++ [m; e]) = Some m.
Proof.
  intros Hm He; induction h as [|x h IH]; cbn [List.app Load.last_user].
  - now rewrite He, Hm.
  - now rewrite IH.
Qed.

Section Reload.

Variable P : Type.
Variable progress_card : JSON -> P -> completion P.
Variable JSON_parse : jsstring -> option JSON.
Variable now : Z.

Lemma synced_prologue_found (p0 : P) (message gid : jsstring) (conv0 : Conversation) (st : App) :
  activeConversationId st = Some gid ->
  find_conv gid (conversations st) = Some conv0 ->
  synced (app (Send.prologue now p0 message st)).
Proof.
  intros Ha Hc; unfold Send.prologue; cbv zeta; cbn [app].
  change (activeConversationId (Send.set_generating true st)) with (activeConversationId st).
  rewrite Ha.
  apply synced_persist_found.
  apply (has_conv_ext (st := persistConversationHistory (Some gid)
                               (match find_conv gid (conversations (Send.set_generating true st)) with
                                | Some conv0 => history conv0
                                | None => []
                                end ++ [mkMessage User message None now None])
                               (Send.addUserMessageToChat now message
                                  (Send.set_lastUserMessage message
                                     (Send.rename_default message
                                        (Send.set_generating true st)))))); [reflexivity|].
  eapply persisted_has_conv.
  apply persist_persisted, has_conv_addUser.
  apply (has_conv_ext (st := Send.rename_default message (Send.set_generating true st)));
    [reflexivity|].
  apply has_conv_rename; now exists conv0.
Qed.

(** After a message is sent the stored copy is the list, whatever it was
    before, and the owning conversation ends with the user message and
    an assistant entry. *)
Lemma sendMessage_stored (p0 : P) (resp : Response) (gid : jsstring) (conv0 : Conversation)
    (st : App) :
  isGenerating st = false ->
  activeConversationId st = Some gid ->
  find_conv gid (conversations st) = Some conv0 ->
  Render.trim (userInput st) <> [] ->
  let st1 := Send.sendMessage progress_card JSON_parse now p0 resp st in
  synced st1
  /\ exists conv entry,
       find_conv gid (conversations st1) = Some conv
       /\ history conv =
            history conv0 ++ [mkMessage User (Render.trim (userInput st)) None now None; entry]
       /\ role entry = Assistant.
Proof.
  intros Hg Ha Hc Hm st1; subst st1.
  unfold Send.sendMessage; rewrite sendMessage_session_sent by assumption; cbv zeta.
  set (message := Render.trim (userInput st)) in *.
  set (s0 := Send.prologue now p0 message st) in *.
  destruct (prologue_at now p0 message st Ha Hc) as [H0 _]; fold s0 in H0.
  pose proof (synced_prologue_found p0 message st Ha Hc) as Y0; fold s0 in Y0.
  set (base := history conv0 ++ [mkMessage User message None now None]) in *.
  set (r := Send.run_stream progress_card JSON_parse message resp s0) in *.
  destruct (run_stream_tracked progress_card JSON_parse message resp
              (gid := gid) (base := base) (now := now) (s := s0))
    as [entry [H1 M1]].
  { exists (placeholder now); split; [exact H0|repeat split]. }
  fold r in H1.
  assert (Y1 : synced (app (fst r))).
  { unfold r, Send.run_stream.
    apply (stream_kept JSON_parse (@Send.onChunk P) (Send.onProgress progress_card)
             (fun s => synced (app s))).
    - intros; now apply synced_onChunk.
    - intros; now apply synced_onProgress.
    - exact Y0. }
  assert (F : forall (s' : Session P) (en : Message),
            session_at gid base en s' -> entry_meta now en ->
            exists conv entry,
              find_conv gid (conversations (app s')) = Some conv
              /\ history conv = history conv0 ++ [mkMessage User message None now None; entry]
              /\ role entry = Assistant).
  { intros s' en (_ & _ & _ & [[conv [Hf Hh]] _]) (Hr & _).
    exists conv, en; split; [exact Hf|split; [|exact Hr]].
    rewrite Hh; unfold base; rewrite <- app_assoc; reflexivity. }
  destruct (snd r) as [e|]; [|split; [exact Y1|exact (F _ _ H1 M1)]].
  split; [now apply synced_catch_path|].
  destruct (streamedContent (fst r)) as [|c1 t1] eqn:Es.
  - destruct (catch_path_empty e H1 Es) as [H2 _]; exact (F _ _ H2 M1).
  - assert (N : streamedContent (fst r) <> []) by (rewrite Es; discriminate).
    destruct (catch_path_at e H1 N) as [H2 _].
    apply (F _ _ H2); now apply entry_meta_write_final.
Qed.

End Reload.

(** X13. Reloading the page after a message was sent.  Whatever the
    store held before and however the request ended, [initConversations]
    and the block that loads the active conversation, run on the store
    that [sendMessage] left, give the same active conversation (its id
    is not the empty string), a chat that shows the old history, the
    user message and one assistant entry, the user message as the last
    user message, and no generation under way. *)
Theorem reload_after_send :
  forall (P : Type) (progress_card : JSON -> P -> completion P)
         (JSON_parse : jsstring -> option JSON) (now : Z) (p0 : P)
         (resp : Response) (st : App) (gid : jsstring) (conv0 : Conversation)
         (genId' : jsstring) (now' : Z) (defaultAvatar' : jsstring),
    isGenerating st = false ->
    activeConversationId st = Some gid ->
    gid <> [] ->
    find_conv gid (conversations st) = Some conv0 ->
    Render.trim (userInput st) <> [] ->
    let st1 := Send.sendMessage progress_card JSON_parse now p0 resp st in
    let st2 := Load.initActiveConversationUI
                 (Load.initConversations genId' now' defaultAvatar' (storage st1)) in
    activeConversationId st2 = Some gid
    /\ map id (conversations st2) = map id (conversations st1)
    /\ (exists entry,
          role entry = Assistant
          /\ chatHistory st2 =
             history conv0 ++ [mkMessage User (Render.trim (userInput st)) None now None; entry])
    /\ lastUserMessage st2 = Render.trim (userInput st)
    /\ isGenerating st2 = false.
Proof.
  intros P card parse now p0 resp st gid conv0 genId' now' av' Hg Ha Hn Hc Hm st1 st2.
  destruct (sendMessage_stored card parse now p0 resp st Hg Ha Hc Hm)
    as ([Ys Ya] & conv & entry & Hf & Hh & Hr); fold st1 in Ys, Ya, Hf.
  assert (A1 : activeConversationId st1 = Some gid).
  { pose proof (@untouched_sendMessage P card parse now (Some gid) (conversations st) p0 resp st)
      as U.
    destruct U as [U _]; [|exact U].
    split; [exact Ha|split; reflexivity]. }
  rewrite A1 in Ya.
  subst st2; unfold Load.initConversations; rewrite Ys, Ya.
  destruct gid as [|g0 gs]; [contradiction|].
  set (gid := g0 :: gs) in *.
  set (cs := map (fun c => set_title (Load.normalize_title (title c)) c) (conversations st1)).
  assert (Fc : find_conv gid cs = Some (set_title (Load.normalize_title (title conv)) conv)).
  { unfold cs; rewrite (find_conv_map_title (fun c => Load.normalize_title (title c))), Hf.
    reflexivity. }
  cbv zeta.
  set (st0 := mkApp cs (Some gid) [] false [] [] (storage st1) []).
  set (stn := if existsb (fun c => Load.title_changes (title c)) (conversations st1)
              then saveConversations st0 else st0).
  assert (Ec : conversations stn = cs) by (unfold stn; now destruct (existsb _ _)).
  assert (Ea : activeConversationId stn = Some gid) by (unfold stn; now destruct (existsb _ _)).
  assert (Eg : isGenerating stn = false) by (unfold stn; now destruct (existsb _ _)).
  rewrite Ec.
  destruct cs as [|c1 cs1] eqn:Ecs; [discriminate|].
  rewrite <- Ecs in *.
  unfold Load.initActiveConversationUI, getActiveConv.
  rewrite Ea, Ec, Fc.
  cbn [activeConversationId conversations chatHistory lastUserMessage isGenerating history set_title].
  split; [reflexivity|].
  split; [unfold cs; rewrite map_map; reflexivity|].
  split; [exists entry; split; [exact Hr|exact Hh]|].
  split; [|exact Eg].
  rewrite Hh.
  change (history conv0 ++ [mkMessage User (Render.trim (userInput st)) None now None; entry])
    with (history conv0 ++ [mkMessage User (Render.trim (userInput st)) None now None; entry]).
  now rewrite last_user_snoc2.
Qed.

Lemma reload_after_send_witness :
  activeConversationId
    (Load.initActiveConversationUI
       (Load.initConversations (u "g1") 2 (u "avatar.webp")
          (storage (Send.sendMessage Examples.no_card Json.parse_json 1 tt
                      (Streaming Examples.hello_reads (ReadRejected Examples.abort_error))
                      Examples.app0))))
  = Some (u "a1b2c3d4").
Proof.
  refine (proj1 (reload_after_send Examples.no_card Json.parse_json 1 tt
                   (Streaming Examples.hello_reads (ReadRejected Examples.abort_error))
                   Examples.app0 (gid := u "a1b2c3d4") (conv0 := Examples.conv_a)
                   (u "g1") 2 (u "avatar.webp") _ _ _ _ _)).
  - reflexivity.
  - reflexivity.
  - discriminate.
  - reflexivity.
  - vm_compute; discriminate.
Defined.

(** ** Frames that are never closed *)

Lemma split_without_sep (sep s : jsstring) :
  sep <> [] -> includes sep s = false -> split sep s = [s].
Proof.
  intros Hs; induction s as [|c t IH]; intros H; [now apply split_nil|].
  cbn [includes] in H; apply orb_false_iff in H as [H1 H2].
  rewrite split_cons_other by assumption.
  now rewrite IH.
Qed.

(** X14. A stream whose text holds no blank line delivers nothing: the
    read loop calls neither callback, however the text is cut into
    reads and whatever data lines it holds.  When the stream ends, the
    only call is the closing chunk call with the empty text and done
    set; when a read is rejected, no call is made and the error is the
    one of the read. *)
Theorem stream_without_blank_line :
  forall (S : Type) (JSON_parse : jsstring -> option JSON)
         (onChunk : jsstring -> bool -> S -> completion S)
         (onProgress : JSON -> S -> completion S)
         (reads : list jsstring) (s : S),
    includes (nl ++ nl) (List.concat reads) = false ->
    loop_calls JSON_parse onChunk onProgress reads s = []
    /\ decode JSON_parse onChunk onProgress (Streaming reads EndOfStream) s =
       ((state_of (onChunk [] true s), [CallChunk [] true]), None)
    /\ forall e, decode JSON_parse onChunk onProgress (Streaming reads (ReadRejected e)) s =
                 ((s, []), Some e).
Proof.
  intros S parse f g reads s H.
  assert (N : nl ++ nl <> []) by discriminate.
  assert (L : read_loop parse (Some (logChunk f)) (Some (logProgress g)) reads (initial (s, []))
              = (List.concat reads, mkInner false false (s, []))).
  { rewrite read_loop_concat.
    cbn [read_loop fold_left]; unfold process_value, initial; cbn [fst snd List.app].
    now rewrite (@split_without_sep (nl ++ nl) (List.concat reads) N H). }
  unfold loop_calls, decode, streamCopilotChat; rewrite L; cbn [fst snd user].
  split; [reflexivity|split; [|reflexivity]].
  unfold finish; cbn [hadChunks sawDone user andb negb call_onChunk].
  unfold logChunk; cbn [fst snd].
  destruct (f [] true s); reflexivity.
Qed.

Lemma stream_without_blank_line_witness :
  loop_calls Json.parse_json Examples.idle_chunk Examples.idle_progress
    [u "data: {" ++ dq ++ u "chunk" ++ dq ++ u ":" ++ dq ++ u "Hel";
     u "lo" ++ dq ++ u "}" ++ nl] tt = [].
Proof.
  refine (proj1 (stream_without_blank_line Json.parse_json Examples.idle_chunk
                   Examples.idle_progress
                   [u "data: {" ++ dq ++ u "chunk" ++ dq ++ u ":" ++ dq ++ u "Hel";
                    u "lo" ++ dq ++ u "}" ++ nl] tt _)).
  reflexivity.
Defined.

(** ** The rows of the colour table *)

Lemma seen_false (k : jsstring) (seen : list jsstring) :
  existsb (str_eqb k) seen = false -> ~ In k seen.
Proof.
  intros H Hin.
  assert (E : existsb (str_eqb k) seen = true)
    by (apply existsb_exists; exists k; split; [exact Hin|apply str_eqb_refl]).
  congruence.
Qed.

Lemma seen_true (k : jsstring) (seen : list jsstring) :
  existsb (str_eqb k) seen = true -> In k seen.
Proof.
  intros H; apply existsb_exists in H as (x & Hx & E).
  apply str_eqb_eq in E; now subst.
Qed.

Lemma uniqueRows_keys (rows : list (jsstring * jsstring)) :
  forall seen,
    NoDup (map Render.row_key (Render.uniqueRows seen rows))
    /\ (forall r, In r (Render.uniqueRows seen rows) ->
                  In r rows /\ ~ In (Render.row_key r) seen)
    /\ (forall r, In r rows ->
                  In (Render.row_key r) seen
                  \/ In (Render.row_key r) (map Render.row_key (Render.uniqueRows seen rows))).
Proof.
  induction rows as [|r rs IH]; intros seen; cbn [Render.uniqueRows].
  - split; [constructor|split; [intros r []|intros r []]].
  - destruct (existsb (str_eqb (Render.row_key r)) seen) eqn:E.
    + destruct (IH seen) as (D & I & C).
      split; [exact D|split].
      * intros r' Hr'; destruct (I r' Hr') as [X Y]; split; [now right|exact Y].
      * intros r' [<-|Hr']; [left; now apply seen_true|now apply C].
    + destruct (IH (Render.row_key r :: seen)) as (D & I & C).
      split; [|split].
      * cbn [map]; constructor; [|exact D].
        intros Hin; apply in_map_iff in Hin as (r' & Hk & Hr').
        destruct (I r' Hr') as [_ Y]; apply Y; left; now rewrite Hk.
      * intros r' [<-|Hr'].
        -- split; [now left|now apply seen_false].
        -- destruct (I r' Hr') as [X Y]; split; [now right|].
           intros Z; apply Y; now right.
      * intros r' [<-|Hr']; [right; now left|].
        destruct (C r' Hr') as [[K|K]|K].
        -- right; left; now rewrite K.
        -- now left.
        -- right; now right.
Qed.

(** X15. The rows of the colour table are the rows found in the lines
    of the text with repeated ones left out: no two rows of the table
    have the same name and colour (the same key), every row of the table
    was found in a line, and every row found in a line has its key in
    the table. *)
Theorem palette_rows_are_distinct :
  forall (text : jsstring),
    NoDup (map Render.row_key (Render.palette_of text))
    /\ (forall r, In r (Render.palette_of text) ->
                  In r (Render.paletteRows (split nl text)))
    /\ (forall r, In r (Render.paletteRows (split nl text)) ->
                  In (Render.row_key r) (map Render.row_key (Render.palette_of text))).
Proof.
  intros text; unfold Render.palette_of.
  destruct (uniqueRows_keys (Render.paletteRows (split nl text)) []) as (D & I & C).
  split; [exact D|split].
  - intros r Hr; now destruct (I r Hr).
  - intros r Hr; destruct (C r Hr) as [[]|K]; exact K.
Qed.

(** ** Relative times *)

(** X16. [formatTimeAgo] names the largest unit that fits, with the
    whole number of such units in the time passed: under five seconds
    (and for a time in the future) it says [just now]; under a minute it
    counts seconds; under an hour, minutes; under a day, hours; from a
    day on, days.  The counts are those of the whole difference, the
    successive roundings lose nothing. *)
Theorem formatTimeAgo_units :
  forall (now ts : Z),
    let d := Z.max 0 (now - ts) in
    ((d < 5000)%Z -> TimeAgo.formatTimeAgo now ts = u "just now")
    /\ ((5000 <= d < 60000)%Z ->
        TimeAgo.formatTimeAgo now ts = TimeAgo.dec (d / 1000) ++ u " seconds ago"
        /\ (5 <= d / 1000 < 60)%Z)
    /\ ((60000 <= d < 3600000)%Z ->
        TimeAgo.formatTimeAgo now ts = TimeAgo.plural (d / 60000) "minute"
        /\ (1 <= d / 60000 < 60)%Z)
    /\ ((3600000 <= d < 86400000)%Z ->
        TimeAgo.formatTimeAgo now ts = TimeAgo.plural (d / 3600000) "hour"
        /\ (1 <= d / 3600000 < 24)%Z)
    /\ ((86400000 <= d)%Z ->
        TimeAgo.formatTimeAgo now ts = TimeAgo.plural (d / 86400000) "day"
        /\ (1 <= d / 86400000)%Z).
Proof.
  intros now ts d.
  assert (D0 : (0 <= d)%Z) by (unfold d; lia).
  assert (E1 : (d / 1000 / 60 = d / 60000)%Z) by (rewrite Z.div_div by lia; reflexivity).
  assert (E2 : (d / 1000 / 60 / 60 = d / 3600000)%Z)
    by (rewrite !Z.div_div by lia; reflexivity).
  assert (E3 : (d / 1000 / 60 / 60 / 24 = d / 86400000)%Z)
    by (rewrite !Z.div_div by lia; reflexivity).
  unfold TimeAgo.formatTimeAgo; fold d; cbv zeta.
  rewrite E3, E2, E1.
  assert (B1 : forall k, (0 < k)%Z -> forall a, (a * k <= d)%Z <-> (a <= d / k)%Z).
  { intros k Hk a; split; intros H.
    - apply Z.div_le_lower_bound; lia.
    - pose proof (Z.mul_div_le d k Hk); nia. }
  assert (B2 : forall k, (0 < k)%Z -> forall a, (d < a * k)%Z <-> (d / k < a)%Z).
  { intros k Hk a; split; intros H.
    - apply Z.div_lt_upper_bound; lia.
    - destruct (Z.lt_ge_cases d (a * k)) as [|G]; [assumption|].
      apply (B1 k Hk a) in G; lia. }
  split; [intros H|split; [intros H|split; [intros H|split; intros H]]].
  - assert (d / 1000 < 5)%Z by (apply B2; lia).
    destruct (Z.ltb_spec (d / 1000) 5); [reflexivity|lia].
  - assert (5 <= d / 1000)%Z by (apply B1; lia).
    assert (d / 1000 < 60)%Z by (apply B2; lia).
    split; [|lia].
    destruct (Z.ltb_spec (d / 1000) 5); [lia|].
    destruct (Z.ltb_spec (d / 1000) 60); [reflexivity|lia].
  - assert (60 <= d / 1000)%Z by (apply B1; lia).
    assert (1 <= d / 60000)%Z by (apply B1; lia).
    assert (d / 60000 < 60)%Z by (apply B2; lia).
    split; [|lia].
    destruct (Z.ltb_spec (d / 1000) 5); [lia|].
    destruct (Z.ltb_spec (d / 1000) 60); [lia|].
    destruct (Z.ltb_spec (d / 60000) 60); [reflexivity|lia].
  - assert (60 <= d / 1000)%Z by (apply B1; lia).
    assert (60 <= d / 60000)%Z by (apply B1; lia).
    assert (1 <= d / 3600000)%Z by (apply B1; lia).
    assert (d / 3600000 < 24)%Z by (apply B2; lia).
    split; [|lia].
    destruct (Z.ltb_spec (d / 1000) 5); [lia|].
    destruct (Z.ltb_spec (d / 1000) 60); [lia|].
    destruct (Z.ltb_spec (d / 60000) 60); [lia|].
    destruct (Z.ltb_spec (d / 3600000) 24); [reflexivity|lia].
  - assert (60 <= d / 1000)%Z by (apply B1; lia).
    assert (60 <= d / 60000)%Z by (apply B1; lia).
    assert (24 <= d / 3600000)%Z by (apply B1; lia).
    assert (1 <= d / 86400000)%Z by (apply B1; lia).
    split; [|lia].
    destruct (Z.ltb_spec (d / 1000) 5); [lia|].
    destruct (Z.ltb_spec (d / 1000) 60); [lia|].
    destruct (Z.ltb_spec (d / 60000) 60); [lia|].
    destruct (Z.ltb_spec (d / 3600000) 24); [lia|reflexivity].
Qed.

Lemma formatTimeAgo_units_witness :
  TimeAgo.formatTimeAgo 7260000 0 = TimeAgo.plural (7260000 / 3600000) "hour"
  /\ (1 <= 7260000 / 3600000 < 24)%Z.
Proof.
  refine (proj1 (proj2 (proj2 (proj2 (formatTimeAgo_units 7260000 0)))) _).
  cbn; lia.
Defined.

(** ** Regenerating *)






Section LastUser.

Variable P : Type.
Variable progress_card : JSON -> P -> completion P.
Variable JSON_parse : jsstring -> option JSON.
Variable now : Z.







End LastUser.



(** ** A request that fails after some text *)

Lemma finalContent_marker (e : Error) (t : jsstring) :
  Send.finalContent e t =
  t ++ nl ++ nl ++
  (if Send.wasAborted e then u "[Generation stopped]"
   else u "Error: " ++ match err_message e with
                       | [] => u "Unknown error"
                       | c :: m => c :: m
                       end).
Proof.
  unfold Send.finalContent, Send.stop_marker, Send.errorMsg.
  destruct (Send.wasAborted e); [reflexivity|].
  destruct (err_message e); reflexivity.
Qed.

(** X18. A read that is rejected after some text has come in, be it a
    cancellation or a failure: the assistant message that is kept is
    the texts of the chunk calls put together, two line feeds, and then
    [[Generation stopped]] for a cancellation or [Error: ] with the
    message of the error (or [Unknown error]) otherwise; it has no
    pending flag, it follows the old history and the user message in
    the list and in its stored copy, and [isGenerating] is false. *)
Theorem partial_text_is_kept_on_failure :
  forall (P : Type) (progress_card : JSON -> P -> completion P)
         (JSON_parse : jsstring -> option JSON) (now : Z) (p0 : P)
         (reads : list jsstring) (e : Error) (st : App)
         (gid : jsstring) (conv0 : Conversation),
    isGenerating st = false ->
    activeConversationId st = Some gid ->
    find_conv gid (conversations st) = Some conv0 ->
    Render.trim (userInput st) <> [] ->
    let calls := session_calls progress_card JSON_parse now p0
                   (Streaming reads (ReadRejected e)) st in
    chunks_text calls <> [] ->
    exists s' conv,
      Send.sendMessage_session progress_card JSON_parse now p0
        (Streaming reads (ReadRejected e)) st = Some s'
      /\ find_conv gid (conversations (app s')) = Some conv
      /\ history conv =
           history conv0 ++
           [mkMessage User (Render.trim (userInput st)) None now None;
            mkMessage Assistant
              (chunks_text calls ++ nl ++ nl ++
               (if Send.wasAborted e then u "[Generation stopped]"
                else u "Error: " ++ match err_message e with
                                    | [] => u "Unknown error"
                                    | c :: m => c :: m
                                    end))
              None now None]
      /\ stored_conversations (storage (app s')) = Some (conversations (app s'))
      /\ isGenerating (app s') = false.
Proof.
  intros P card parse now p0 reads e st gid conv0 Hg Ha Hc Hm calls Ht.
  rewrite sendMessage_session_sent by assumption; cbv zeta.
  unfold calls, session_calls in *; cbv zeta in Ht; cbv zeta.
  set (message := Render.trim (userInput st)) in *.
  set (s0 := Send.prologue now p0 message st) in *.
  destruct (prologue_at now p0 message st Ha Hc) as [H0 E0]; fold s0 in H0, E0.
  set (base := history conv0 ++ [mkMessage User message None now None]) in *.
  set (r := Send.run_stream card parse message (Streaming reads (ReadRejected e)) s0).
  change (snd r) with (Some e).
  pose proof (run_stream_kept card parse
                (fun x => (exists entry, session_at gid base entry (fst x) /\ entry_meta now entry)
                          /\ streamedContent (fst x) = chunks_text (snd x))
                message (Streaming reads (ReadRejected e)) s0) as K.
  cbn [fst snd] in K; fold r in K.
  destruct K as ((entry & H1 & M1) & E1).
  - intros c d s l ((entry & H & M) & E).
    destruct (onChunk_at c d H) as [Es H'].
    split.
    + eexists; split; [exact H'|].
      destruct d; [apply entry_meta_write_final|]; apply entry_meta_write_pending, M.
    + now rewrite Es, chunks_text_snoc, E.
  - intros ev s l ((entry & H & M) & E).
    destruct (onProgress_at card ev H) as [Es H'].
    split; [exists entry; split; [exact H'|exact M]|].
    rewrite Es, chunks_text_snoc, E; cbn [chunk_text]; now rewrite app_nil_r.
  - split; [exists (placeholder now); split; [now apply request_at|repeat split]|exact E0].
  - set (cs := calls_of (decode parse (@Send.onChunk P) (Send.onProgress card)
                           (Streaming reads (ReadRejected e))
                           (Send.with_app (Send.record_request message (app s0)) s0))) in *.
    assert (N : streamedContent (fst r) <> []) by (rewrite E1; exact Ht).
    destruct (catch_path_at e H1 N) as [H2 G2].
    rewrite (write_final_meta _ M1), E1, finalContent_marker in H2.
    destruct H2 as (_ & _ & _ & [[conv [Hf Hh]] Hst]).
    exists (Send.catch_path e (fst r)), conv.
    repeat split; try assumption.
    rewrite Hh; unfold base; rewrite <- app_assoc; reflexivity.
Qed.

Lemma partial_text_is_kept_on_failure_witness :
  exists s' conv,
    Send.sendMessage_session Examples.no_card Json.parse_json 1 tt
      (Streaming Examples.hello_reads (ReadRejected Examples.network_error)) Examples.app0
    = Some s'
    /\ find_conv (u "a1b2c3d4") (conversations (app s')) = Some conv
    /\ history conv =
         history Examples.conv_a ++
         [mkMessage User (Render.trim (userInput Examples.app0)) None 1 None;
          mkMessage Assistant
            (chunks_text
               (session_calls Examples.no_card Json.parse_json 1 tt
                  (Streaming Examples.hello_reads (ReadRejected Examples.network_error))
                  Examples.app0)
             ++ nl ++ nl ++
             (if Send.wasAborted Examples.network_error then u "[Generation stopped]"
              else u "Error: " ++ match err_message Examples.network_error with
                                  | [] => u "Unknown error"
                                  | c :: m => c :: m
                                  end))
            None 1 None]
    /\ stored_conversations (storage (app s')) = Some (conversations (app s'))
    /\ isGenerating (app s') = false.
Proof.
  refine (partial_text_is_kept_on_failure Examples.no_card Json.parse_json 1 tt
            Examples.hello_reads Examples.network_error Examples.app0
            (gid := u "a1b2c3d4") (conv0 := Examples.conv_a) _ _ _ _ _).
  - reflexivity.
  - reflexivity.
  - reflexivity.
  - vm_compute; discriminate.
  - vm_compute; discriminate.
Defined.

(** ** Escaping *)

Lemma forallb_weaken (p q : char -> bool) (s : jsstring) :
  (forall x, p x = true -> q x = true) -> forallb p s = true -> forallb q s = true.
Proof.
  intros H; induction s as [|x s IH]; [reflexivity|].
  cbn [forallb]; intros E; apply andb_true_iff in E as [Ex Es].
  now rewrite (H x Ex), (IH Es).
Qed.

Lemma forallb_all (p : char -> bool) (s : jsstring) :
  (forall x, p x = true) -> forallb p s = true.
Proof. intros H; induction s as [|x s IH]; [reflexivity|]; cbn [forallb]; now rewrite H, IH. Qed.

Lemma replace_char_absent (c : ascii) (rep s : jsstring) :
  forallb (fun x => negb (Regex.is_char c x)) s = true -> Render.replace_char c rep s = s.
Proof.
  unfold Render.replace_char; induction s as [|x s IH]; [reflexivity|].
  cbn [forallb flat_map]; intros E; apply andb_true_iff in E as [Ex Es].
  apply negb_true_iff in Ex; rewrite Ex, (IH Es); reflexivity.
Qed.

(** X19. The escaping step of [renderContentToHtml] leaves no angle
    bracket: whatever the text, the escaped text holds neither [<] nor
    [>]; and a text with no ampersand and no angle bracket is escaped
    to itself. *)
Theorem escape_html_leaves_no_angle_bracket :
  forall (text : jsstring),
    forallb (fun x => negb (Regex.is_char "<" x) && negb (Regex.is_char ">" x))
            (Render.escape_html text) = true
    /\ (forallb (fun x => negb (Regex.is_char "&" x) && negb (Regex.is_char "<" x)
                          && negb (Regex.is_char ">" x)) text = true ->
        Render.escape_html text = text).
Proof.
  intros text; unfold Render.escape_html; split.
  - apply replace_char_other; [reflexivity|].
    apply (@forallb_weaken (fun x => negb (Regex.is_char "<" x))).
    { intros x E; cbv beta; rewrite E; cbn [andb]; apply orb_negb_r. }
    apply replace_char_other; [reflexivity|].
    apply forallb_all; intros x; apply orb_negb_r.
  - intros H.
    rewrite (replace_char_absent "&") at 1.
    2:{ revert H; apply forallb_weaken; intros x E.
        apply andb_true_iff in E as [E _]; now apply andb_true_iff in E as [E _]. }
    rewrite (replace_char_absent "<") at 1.
    2:{ revert H; apply forallb_weaken; intros x E.
        apply andb_true_iff in E as [E _]; now apply andb_true_iff in E as [_ E]. }
    apply replace_char_absent.
    revert H; apply forallb_weaken; intros x E.
    now apply andb_true_iff in E as [_ E].
Qed.

Lemma escape_html_leaves_no_angle_bracket_witness :
  Render.escape_html (u "a plain line") = u "a plain line".
Proof.
  refine (proj2 (escape_html_leaves_no_angle_bracket (u "a plain line")) _).
  reflexivity.
Defined.

(** ** Unique ids *)

Lemma findIndex_none_not_in (i : jsstring) (cs : list Conversation) :
  findIndex i cs = None -> ~ In i (map id cs).
Proof.
  induction cs as [|c cs IH]; cbn [findIndex map]; [intros _ []|].
  destruct (str_eqb (id c) i) eqn:E; [discriminate|].
  destruct (findIndex i cs); [discriminate|].
  intros _ [H|H]; [rewrite H, str_eqb_refl in E; discriminate|now apply IH].
Qed.

Lemma filter_other_all (i : jsstring) (cs : list Conversation) :
  ~ In i (map id cs) -> filter (fun c => negb (str_eqb (id c) i)) cs = cs.
Proof.
  induction cs as [|c cs IH]; [reflexivity|].
  cbn [map filter]; intros H.
  destruct (str_eqb (id c) i) eqn:E.
  - exfalso; apply H; left; now apply str_eqb_eq.
  - cbn [negb]; rewrite IH; [reflexivity|]; intros X; apply H; now right.
Qed.

(** With unique ids, cutting out the element found under an id leaves
    the elements that have another id. *)
Lemma splice1_filter (i : jsstring) (cs : list Conversation) :
  NoDup (map id cs) ->
  forall idx, findIndex i cs = Some idx ->
              splice1 idx cs = filter (fun c => negb (str_eqb (id c) i)) cs.
Proof.
  induction cs as [|c cs IH]; cbn [findIndex map filter]; [discriminate|].
  intros N idx; inversion N as [|x l Hx Hl]; subst.
  destruct (str_eqb (id c) i) eqn:E.
  - intros [= <-]; cbn [negb]; unfold splice1; cbn [firstn skipn List.app].
    apply str_eqb_eq in E; rewrite <- E.
    now rewrite filter_other_all.
  - destruct (findIndex i cs) as [n|] eqn:F; [|discriminate].
    intros [= <-]; cbn [negb].
    rewrite <- (IH Hl n eq_refl); reflexivity.
Qed.

Lemma find_conv_filter_other (i : jsstring) (cs : list Conversation) :
  find_conv i (filter (fun c => negb (str_eqb (id c) i)) cs) = None.
Proof.
  induction cs as [|c cs IH]; [reflexivity|].
  cbn [filter]; destruct (str_eqb (id c) i) eqn:E; cbn [negb]; [exact IH|].
  cbn [find_conv]; now rewrite E.
Qed.

Lemma map_id_filter_in (f : Conversation -> bool) (x : jsstring) (cs : list Conversation) :
  In x (map id (filter f cs)) -> In x (map id cs).
Proof.
  intros H; apply in_map_iff in H as (c & Hc & Hin).
  apply filter_In in Hin as [Hin _]; apply in_map_iff; now exists c.
Qed.

Lemma NoDup_map_id_filter (f : Conversation -> bool) (cs : list Conversation) :
  NoDup (map id cs) -> NoDup (map id (filter f cs)).
Proof.
  induction cs as [|c cs IH]; [intros _; constructor|].
  cbn [map filter]; intros N; inversion N as [|x l Hx Hl]; subst.
  destruct (f c); [|now apply IH].
  cbn [map]; constructor; [|now apply IH].
  intros X; apply Hx; revert X; apply map_id_filter_in.
Qed.

Lemma NoDup_snoc (x : jsstring) (l : list jsstring) :
  NoDup l -> ~ In x l -> NoDup (l ++ [x]).
Proof.
  induction l as [|y l IH]; intros N H; cbn [List.app].
  - constructor; [intros []|constructor].
  - inversion N as [|z l' Hy Hl]; subst.
    constructor.
    + intros X; apply in_app_or in X as [X|[X|[]]]; [now apply Hy|].
      apply H; left; now symmetry.
    + apply IH; [exact Hl|]; intros X; apply H; now right.
Qed.

(** X20. With unique ids, deleting one of several conversations removes
    just that one: the list afterwards is the conversations with
    another id, in their order; the id is no longer found; the active
    id is not the deleted id; and when the deleted conversation was not
    the active one, the active id and the chat are as before. *)
Theorem delete_removes_the_conversation :
  forall (genId : jsstring) (now : Z) (defaultAvatar : jsstring)
         (i : jsstring) (st : App) (idx : nat),
    NoDup (map id (conversations st)) ->
    findIndex i (conversations st) = Some idx ->
    2 <= List.length (conversations st) ->
    let st' := deleteConversation genId now defaultAvatar i st in
    conversations st' = filter (fun c => negb (str_eqb (id c) i)) (conversations st)
    /\ find_conv i (conversations st') = None
    /\ activeConversationId st' <> Some i
    /\ (activeConversationId st <> Some i ->
        activeConversationId st' = activeConversationId st
        /\ chatHistory st' = chatHistory st).
Proof.
  intros genId now av i st idx N F L st'.
  pose proof (findIndex_lt _ _ F) as Hlt.
  pose proof (@splice1_length idx (conversations st) Hlt) as Hlen.
  pose proof (@splice1_filter i (conversations st) N idx F) as Hf.
  subst st'; unfold deleteConversation; rewrite F.
  destruct (splice1 idx (conversations st)) as [|c0 rest] eqn:E;
    [cbn [List.length] in Hlen; lia|].
  set (cs' := c0 :: rest) in *.
  destruct (opt_str_eqb (activeConversationId st) i) eqn:W.
  - cbv zeta; cbn [conversations activeConversationId chatHistory saveConversations].
    split; [exact Hf|split; [rewrite Hf; apply find_conv_filter_other|split]].
    + intros [= X].
      assert (Hin : In (nth (Nat.min idx (List.length cs' - 1)) cs' c0) cs').
      { apply nth_In; unfold cs'; cbn [List.length]; lia. }
      assert (O : forall c, In c cs' -> negb (str_eqb (id c) i) = true)
        by (intros c Hc; rewrite Hf in Hc; now apply filter_In in Hc).
      apply O in Hin; apply negb_true_iff in Hin.
      change (id (nth (Nat.min idx (List.length cs' - 1)) cs' c0) = i) in X.
      rewrite X, str_eqb_refl in Hin; discriminate.
    + intros A; exfalso; apply A.
      destruct (activeConversationId st) as [a|]; [|discriminate].
      cbn [opt_str_eqb] in W; apply str_eqb_eq in W; now subst.
  - cbn [conversations activeConversationId chatHistory saveConversations].
    split; [exact Hf|split; [rewrite Hf; apply find_conv_filter_other|split]].
    + intros A; rewrite A in W; cbn [opt_str_eqb] in W.
      rewrite str_eqb_refl in W; discriminate.
    + intros _; split; reflexivity.
Qed.

Lemma delete_removes_the_conversation_witness :
  find_conv (u "g1")
    (conversations
       (deleteConversation (u "g2") 3 (u "avatar.webp") (u "g1")
          (createNewConversation (u "g1") 2 (u "avatar.webp") None Examples.app0)))
  = None.
Proof.
  refine (proj1 (proj2 (delete_removes_the_conversation (u "g2") 3 (u "avatar.webp") (u "g1")
                          (createNewConversation (u "g1") 2 (u "avatar.webp") None Examples.app0)
                          (idx := 1) _ _ _))).
  - cbn [conversations createNewConversation saveConversations Examples.app0 List.app map].
    constructor; [intros [X|[]]; vm_compute in X; discriminate|].
    constructor; [intros []|constructor].
  - reflexivity.
  - cbn; lia.
Defined.

(** X21. The ids of the list stay unique.  When no two conversations
    share an id, none do after [deleteConversation], after
    [createNewConversation] with an id that is not in the list, after
    [switchConversation], after a committed rename, or after a call of
    [sendMessage], whatever the network does. *)
Theorem ids_stay_unique :
  forall (st : App),
    NoDup (map id (conversations st)) ->
    (forall genId now defaultAvatar i,
        NoDup (map id (conversations (deleteConversation genId now defaultAvatar i st))))
    /\ (forall genId now defaultAvatar t,
           findIndex genId (conversations st) = None ->
           NoDup (map id (conversations (createNewConversation genId now defaultAvatar t st))))
    /\ (forall i, NoDup (map id (conversations (switchConversation i st))))
    /\ (forall i input, NoDup (map id (conversations (Rename.commitRename i input st))))
    /\ (forall (P : Type) (progress_card : JSON -> P -> completion P)
               (JSON_parse : jsstring -> option JSON) (now : Z) (p0 : P) (resp : Response),
           NoDup (map id (conversations
                            (Send.sendMessage progress_card JSON_parse now p0 resp st)))).
Proof.
  intros st N.
  split; [|split; [|split; [|split]]].
  - intros genId now av i; unfold deleteConversation.
    destruct (findIndex i (conversations st)) as [idx|] eqn:F; [|exact N].
    pose proof (@splice1_filter i (conversations st) N idx F) as Hf.
    destruct (splice1 idx (conversations st)) as [|c0 rest] eqn:E.
    + cbn [conversations createNewConversation saveConversations List.app map fresh_conversation id].
      constructor; [intros []|constructor].
    + assert (N' : NoDup (map id (c0 :: rest)))
        by (rewrite Hf; now apply NoDup_map_id_filter).
      destruct (opt_str_eqb (activeConversationId st) i); exact N'.
  - intros genId now av t F.
    cbn [conversations createNewConversation saveConversations].
    rewrite map_app; cbn [map fresh_conversation id].
    apply NoDup_snoc; [exact N|now apply findIndex_none_not_in].
  - intros i; now rewrite switch_conversations.
  - intros i input; unfold Rename.commitRename.
    destruct (find_conv i (conversations st)); [|exact N].
    destruct (Rename.first_words (Render.trim input)); [exact N|].
    cbn [conversations saveConversations with_conversations].
    now rewrite map_id_update.
  - intros P card parse now p0 resp.
    pose proof (@untouched_sendMessage P card parse now (activeConversationId st)
                  (conversations st) p0 resp st) as U.
    destruct U as (_ & U & _); [split; [reflexivity|split; reflexivity]|].
    now rewrite U.
Qed.

Lemma ids_stay_unique_witness :
  NoDup (map id (conversations
                   (createNewConversation (u "g1") 2 (u "avatar.webp") None Examples.app0))).
Proof.
  refine (proj1 (proj2 (@ids_stay_unique Examples.app0 _)) (u "g1") 2%Z (u "avatar.webp") None _).
  - cbn [conversations Examples.app0 map].
    constructor; [intros []|constructor].
  - reflexivity.
Defined.
